(** * Gamification and context engine of the English-learning application

    A shallow embedding of [database.py] (XP and levels, badges, weekly
    challenges, weekly leaderboard, conversation store, security question)
    and of the scoring and context helpers of [app.py], with the properties
    of the specification stated and proved over it.

    Conventions of the embedding:
    - Python integers are [Z]; Python [str] values are [string] (the model
      covers ASCII text: [lower], [upper] and [strip] act on ASCII letters
      and ASCII white space);
    - a MongoDB collection is a list of documents in natural order, a
      collection handle that is [None] in Python is [None] here;
    - a document is a record of optional fields; a nested document used as
      a dictionary (week to XP, mode to transcript, counter name to value)
      is a [gmap];
    - the clock ([datetime.now()]) is an explicit argument: the week key
      and the time stamp are passed to the operations that read them;
    - an exception caught by the [try]/[except] around a function body is
      the [None] of an inner [option]-valued body. *)

From Stdlib Require Import ZArith QArith List String Ascii Lia Bool.
From Stdlib Require Import Sorting.Sorted Sorting.Permutation.
From stdpp Require Import base gmap strings list.
Import ListNotations.
Open Scope Z_scope.

(* ===================================================================== *)
(** * Part I: the embedding *)
(* ===================================================================== *)

(** ** XP / level formula *)

(** [range(a, b)] of Python. *)
Definition py_range (a b : Z) : list Z :=
  map (fun i => a + Z.of_nat i) (seq 0 (Z.to_nat (b - a))).

(** [xp_threshold_for_level]: the accumulating [for] loop over
    [range(1, level)]. *)
Definition xp_threshold_for_level (level : Z) : Z :=
  if level <=? 1 then 0
  else fold_left (fun total l => total + 25 * 2 ^ (l - 1)) (py_range 1 level) 0.

(** The [while True] loop of [calculate_level_from_xp], started at [level]
    and run for at most [fuel] tests of the loop condition. *)
Fixpoint level_loop (fuel : nat) (xp level : Z) : option Z :=
  match fuel with
  | O => None
  | S fuel' =>
      let next_threshold := xp_threshold_for_level (level + 1) in
      if xp >=? next_threshold then level_loop fuel' xp (level + 1)
      else Some level
  end.

(** Number of loop tests that always suffices (see [level_loop_fuel]). *)
Definition level_fuel (xp : Z) : nat := S (Z.to_nat xp).

Definition calculate_level_from_xp (xp : Z) : Z :=
  match level_loop (level_fuel xp) xp 1 with
  | Some level => level
  | None => 1
  end.

(** ** Text helpers: the methods of Python's [str] used by the code *)

Definition is_space (c : ascii) : bool :=
  let n := nat_of_ascii c in
  ((9 <=? n)%nat && (n <=? 13)%nat) || ((28 <=? n)%nat && (n <=? 32)%nat).

Definition is_upper (c : ascii) : bool :=
  let n := nat_of_ascii c in (65 <=? n)%nat && (n <=? 90)%nat.

Definition is_lower (c : ascii) : bool :=
  let n := nat_of_ascii c in (97 <=? n)%nat && (n <=? 122)%nat.

Definition lower_char (c : ascii) : ascii :=
  if is_upper c then ascii_of_nat (nat_of_ascii c + 32) else c.

Definition upper_char (c : ascii) : ascii :=
  if is_lower c then ascii_of_nat (nat_of_ascii c - 32) else c.

(** [s.lower()] and [s.upper()]. *)
Fixpoint lower (s : string) : string :=
  match s with
  | EmptyString => EmptyString
  | String c s' => String (lower_char c) (lower s')
  end.

Fixpoint upper (s : string) : string :=
  match s with
  | EmptyString => EmptyString
  | String c s' => String (upper_char c) (upper s')
  end.

Fixpoint lstrip (s : string) : string :=
  match s with
  | EmptyString => EmptyString
  | String c s' => if is_space c then lstrip s' else s
  end.

Fixpoint rstrip (s : string) : string :=
  match s with
  | EmptyString => EmptyString
  | String c s' =>
      match rstrip s' with
      | EmptyString => if is_space c then EmptyString else String c EmptyString
      | r => String c r
      end
  end.

(** [s.strip()]: white space removed at both ends. *)
Definition strip (s : string) : string := rstrip (lstrip s).

Definition newline : ascii := ascii_of_nat 10.

(** [s.split('\n')]: never empty, one piece more than there are newlines. *)
Fixpoint split_lines (s : string) : list string :=
  match s with
  | EmptyString => [EmptyString]
  | String c s' =>
      if Ascii.eqb c newline then EmptyString :: split_lines s'
      else match split_lines s' with
           | [] => [String c EmptyString]
           | piece :: pieces => String c piece :: pieces
           end
  end.

(** ['\n'.join(pieces)]. *)
Definition join_lines (pieces : list string) : string :=
  String.concat (String newline EmptyString) pieces.

(** [l[-n:]] for a positive [n]. *)
Definition last_n {A} (n : nat) (l : list A) : list A :=
  skipn (length l - n) l.

(** Truth value of a Python string: empty is false. *)
Definition nonempty (s : string) : bool :=
  match s with EmptyString => false | _ => true end.

(** ** Star scoring of an attempt ([check_repeat], [check_spelling]) *)

Section Scoring.

(** [SequenceMatcher(None, a, b).ratio()] of Python's difflib: the float
    [2.0 * matches / (len a + len b)], or [1.0] for two empty strings.
    The quotient is a correctly rounded double, so on strings of realistic
    length it compares with the literals 0.9, 0.75, ... exactly as the
    rational does; the ratio is a rational here. *)
Variable ratio : string -> string -> Q.

(** The [if]/[elif] ladder of [check_repeat]. *)
Definition repeat_stars (score : Q) : Z :=
  if Qle_bool (9 # 10) score then 3
  else if Qle_bool (75 # 100) score then 2
  else if Qle_bool (6 # 10) score then 1
  else 0.

Definition check_repeat_stars (student correct : string) : Z :=
  let score := ratio (lower student) (lower correct) in
  repeat_stars score.

(** [xp_multiplier = {'easy': 1, 'medium': 2, 'hard': 3}.get(difficulty, 1)]. *)
Definition xp_multiplier (difficulty : string) : Z :=
  if String.eqb difficulty "easy" then 1
  else if String.eqb difficulty "medium" then 2
  else if String.eqb difficulty "hard" then 3
  else 1.

(** XP shown for a stage of [check_repeat] and [check_spelling]. *)
Definition xp_awarded (stage_complete logged_in : bool)
    (accumulated_stars stars : Z) (difficulty : string) : Z :=
  if stage_complete && logged_in
  then (accumulated_stars + stars) * xp_multiplier difficulty
  else 0.

Definition check_spelling_stars (student_spelling correct_word : string) : Z :=
  let student := strip (lower student_spelling) in
  let correct := strip (lower correct_word) in
  let is_correct := String.eqb student correct in
  if is_correct then 3
  else
    let similarity := ratio student correct in
    if Qle_bool (8 # 10) similarity then 2
    else if Qle_bool (5 # 10) similarity then 1
    else 0.

End Scoring.

(** ** Documents of the store *)

(** A field of a document whose type the code tests with [isinstance]:
    missing, present with a value of another type, or well typed. *)
Inductive field (A : Type) : Type :=
  | Absent
  | Malformed
  | Val (a : A).
Arguments Absent {A}.
Arguments Malformed {A}.
Arguments Val {A} a.

(** One weekly challenge: keys [type], [target], [current], [completed],
    [xp]. *)
Record Challenge := mkChallenge {
  c_type : string;
  c_target : Z;
  c_current : Z;
  c_completed : bool;
  c_xp : Z
}.

(** The [daily_challenges] sub-document: keys [week], [challenge1],
    [challenge2], [challenge3], [completed_today], [streak]. The empty
    dictionary that [create_user] stores is the [None] of
    [option Challenges]. *)
Record Challenges := mkChallenges {
  week : string;
  challenge1 : Challenge;
  challenge2 : Challenge;
  challenge3 : Challenge;
  completed_today : Z;
  streak : Z
}.

(** The value under [badges_earned]: missing, the list of badge
    identifiers, or a value of another type; of such a value the code
    takes at most the length, which a string or a dictionary has ([Sized])
    and [None], a number or a boolean has not ([Unsized]). *)
Inductive badges_value : Type :=
  | NoBadges
  | BadgeList (l : list string)
  | Sized (n : Z)
  | Unsized.

(** The [achievements] sub-document: the value under [badges_earned], the
    numeric entries (login streaks, activity counters, [challenge_streak])
    by key, and [last_login]. *)
Record Achievements := mkAchievements {
  badges_earned : badges_value;
  counters : gmap string Z;
  last_login : option string
}.

(** A document of the [users] collection, with the fields the modelled
    operations read or write. *)
Record User := mkUser {
  u_id : string;                          (* _id *)
  u_username : option string;
  u_name : option string;
  u_password : option string;
  u_user_type : option string;
  u_class : option string;
  u_division : option string;
  u_total_xp : option Z;
  u_total_stars : option Z;
  u_level : option Z;
  u_last_active : option string;
  u_achievements : field Achievements;
  u_weekly_xp : field (gmap string Z);
  u_daily_challenges : option Challenges;
  u_security_question : option string;
  u_security_answer : option string
}.

(** A document of the [conversations] collection: [user_id], the nested
    map [conversations] from mode to transcript, [updated_at]. *)
Record ConvDoc := mkConvDoc {
  cd_user_id : string;
  cd_conversations : option (gmap string string);
  cd_updated_at : option string
}.

(** The module-level handles: [None] when the connection failed. *)
Record DB := mkDB {
  users_collection : option (list User);
  conversations_collection : option (list ConvDoc)
}.

(** ** State and exceptions

    A computation reads and writes the store and may raise; what was
    written before the exception stays written. *)

Definition M (A : Type) : Type := DB -> option A * DB.

Definition ret {A} (a : A) : M A := fun db => (Some a, db).

Definition raise {A} : M A := fun db => (None, db).

Definition bind {A B} (m : M A) (k : A -> M B) : M B :=
  fun db =>
    match m db with
    | (Some a, db') => k a db'
    | (None, db') => (None, db')
    end.

Notation "'let!' x ':=' m 'in' k" := (bind m (fun x => k))
  (at level 10, x name, m at level 100, k at level 200).
Notation "'do!' m 'in' k" := (bind m (fun _ => k))
  (at level 10, m at level 100, k at level 200).

(** [try: body except Exception: return dflt]. *)
Definition try_except {A} (body : M A) (dflt : A) : DB -> A * DB :=
  fun db =>
    match body db with
    | (Some a, db') => (a, db')
    | (None, db') => (dflt, db')
    end.

(** A call of a function that handles its own exceptions. *)
Definition call {A} (f : DB -> A * DB) : M A :=
  fun db => let (a, db') := f db in (Some a, db').

(** ** The [users] collection *)

Definition has_id (uid : string) (u : User) : bool := String.eqb (u_id u) uid.

(** [users_collection.find_one({'_id': uid})]; a method call on a [None]
    handle raises. *)
Definition find_one (uid : string) : M (option User) :=
  fun db =>
    match users_collection db with
    | None => (None, db)
    | Some coll => (Some (List.find (has_id uid) coll), db)
    end.

(** The first document with the identifier is replaced by its update; a
    write the server refuses is [None]. *)
Fixpoint update_first (uid : string) (f : User -> option User)
    (coll : list User) : option (list User) :=
  match coll with
  | [] => Some []
  | u :: rest =>
      if has_id uid u then
        match f u with
        | Some u' => Some (u' :: rest)
        | None => None
        end
      else
        match update_first uid f rest with
        | Some rest' => Some (u :: rest')
        | None => None
        end
  end.

(** [users_collection.update_one({'_id': uid}, {...})]. *)
Definition update_one (uid : string) (f : User -> option User) : M unit :=
  fun db =>
    match users_collection db with
    | None => (None, db)
    | Some coll =>
        match update_first uid f coll with
        | Some coll' =>
            (Some tt, mkDB (Some coll') (conversations_collection db))
        | None => (None, db)
        end
    end.

(** *** Field updates ([$set] with one key)

    A dotted key under [achievements] creates the sub-document when it is
    missing and is refused by the server when [achievements] is not a
    document. *)

Definition set_achievements (a : Achievements) (u : User) : option User :=
  Some (mkUser (u_id u) (u_username u) (u_name u) (u_password u)
          (u_user_type u) (u_class u) (u_division u) (u_total_xp u)
          (u_total_stars u) (u_level u) (u_last_active u) (Val a)
          (u_weekly_xp u) (u_daily_challenges u) (u_security_question u)
          (u_security_answer u)).

Definition empty_achievements : Achievements :=
  mkAchievements NoBadges ∅ None.

Definition in_achievements (g : Achievements -> Achievements) (u : User)
  : option User :=
  match u_achievements u with
  | Absent => set_achievements (g empty_achievements) u
  | Malformed => None
  | Val a => set_achievements (g a) u
  end.

(** [{'$set': {'achievements.badges_earned': earned}}] *)
Definition set_badges_earned (earned : list string) : User -> option User :=
  in_achievements
    (fun a => mkAchievements (BadgeList earned) (counters a) (last_login a)).

(** [{'$set': {'achievements.<key>': n}}] for a numeric entry. *)
Definition set_counter (key : string) (n : Z) : User -> option User :=
  in_achievements
    (fun a => mkAchievements (badges_earned a) (<[key := n]> (counters a))
                (last_login a)).

(** [{'$set': {'daily_challenges': challenges}}] *)
Definition set_daily_challenges (cs : Challenges) (u : User) : option User :=
  Some (mkUser (u_id u) (u_username u) (u_name u) (u_password u)
          (u_user_type u) (u_class u) (u_division u) (u_total_xp u)
          (u_total_stars u) (u_level u) (u_last_active u) (u_achievements u)
          (u_weekly_xp u) (Some cs) (u_security_question u)
          (u_security_answer u)).

(** [{'$set': {'total_xp': new_xp, 'level': new_level}}] *)
Definition set_xp_level (new_xp new_level : Z) (u : User) : option User :=
  Some (mkUser (u_id u) (u_username u) (u_name u) (u_password u)
          (u_user_type u) (u_class u) (u_division u) (Some new_xp)
          (u_total_stars u) (Some new_level) (u_last_active u)
          (u_achievements u) (u_weekly_xp u) (u_daily_challenges u)
          (u_security_question u) (u_security_answer u)).

(** [{'$set': {'security_question': q, 'security_answer': h}}] *)
Definition set_security (q h : string) (u : User) : option User :=
  Some (mkUser (u_id u) (u_username u) (u_name u) (u_password u)
          (u_user_type u) (u_class u) (u_division u) (u_total_xp u)
          (u_total_stars u) (u_level u) (u_last_active u) (u_achievements u)
          (u_weekly_xp u) (u_daily_challenges u) (Some q) (Some h)).

(** ** Badges *)

(** An entry of the catalogue [ALL_BADGES]: the keys [type] and [req]
    (the display keys [name], [icon] and [desc] play no part in the
    evaluation and are left out). *)
Record Badge := mkBadge {
  b_type : string;
  b_req : Z
}.

(** The catalogue, in the order of the dictionary literal. *)
Definition ALL_BADGES : list (string * Badge) :=
  [ ("level_2", mkBadge "level" 2);
    ("level_5", mkBadge "level" 5);
    ("level_10", mkBadge "level" 10);
    ("level_15", mkBadge "level" 15);
    ("xp_25", mkBadge "total_xp" 25);
    ("xp_100", mkBadge "total_xp" 100);
    ("xp_500", mkBadge "total_xp" 500);
    ("xp_1000", mkBadge "total_xp" 1000);
    ("conv_5", mkBadge "conversation_count" 5);
    ("conv_25", mkBadge "conversation_count" 25);
    ("roleplay_5", mkBadge "roleplay_count" 5);
    ("roleplay_20", mkBadge "roleplay_count" 20);
    ("repeat_10", mkBadge "repeat_count" 10);
    ("repeat_50", mkBadge "repeat_count" 50);
    ("repeat_200", mkBadge "repeat_count" 200);
    ("spell_5", mkBadge "spelling_count" 5);
    ("spell_25", mkBadge "spelling_count" 25);
    ("spell_100", mkBadge "spelling_count" 100);
    ("vocab_10", mkBadge "vocabulary_count" 10);
    ("vocab_50", mkBadge "vocabulary_count" 50);
    ("perfect_5", mkBadge "high_pronunciation_count" 5);
    ("perfect_25", mkBadge "high_pronunciation_count" 25) ]%string.

Definition init_user_achievements : Achievements :=
  mkAchievements (BadgeList [])
    (list_to_map
       [ ("daily_login_streak", 0); ("max_login_streak", 0);
         ("conversation_count", 0); ("roleplay_count", 0);
         ("repeat_count", 0); ("spelling_count", 0);
         ("vocabulary_count", 0); ("high_pronunciation_count", 0);
         ("challenge_streak", 0) ]%string)
    None.

(** [bid in earned] *)
Definition is_in (bid : string) (earned : list string) : bool :=
  existsb (String.eqb bid) earned.

(** The value a badge of type [vt] is compared with. *)
Definition badge_current (user : User) (achievements : Achievements)
    (vt : string) : Z :=
  if String.eqb vt "level" then default 1 (u_level user)
  else if String.eqb vt "total_xp" then default 0 (u_total_xp user)
  else default 0 (counters achievements !! vt).

(** One turn of the [for bid, badge in ALL_BADGES.items()] loop. *)
Definition badge_step (user : User) (achievements : Achievements)
    (earned : list string) (new_badges : list string)
    (item : string * Badge) : list string :=
  let (bid, badge) := item in
  if is_in bid earned then new_badges
  else
    let vt := b_type badge in
    let req := b_req badge in
    let current := badge_current user achievements vt in
    if current >=? req then new_badges ++ [bid] else new_badges.

Definition badge_loop (user : User) (achievements : Achievements)
    (earned : list string) : list string :=
  fold_left (badge_step user achievements earned) ALL_BADGES [].

Definition is_nil {A} (l : list A) : bool :=
  match l with [] => true | _ => false end.

Definition check_and_award_badges (user_id : string) : DB -> list string * DB :=
  fun db =>
    match users_collection db with
    | None => ([], db)
    | Some _ =>
        try_except
          (let! user := find_one user_id in
           match user with
           | None => ret []
           | Some user =>
               let! achievements :=
                 match u_achievements user with
                 | Absent => ret init_user_achievements
                 | Val a => ret a
                 | Malformed =>
                     do! update_one user_id
                           (set_achievements init_user_achievements) in
                     ret init_user_achievements
                 end in
               let earned :=
                 match badges_earned achievements with
                 | BadgeList l => l
                 | _ => []
                 end in
               let new_badges := badge_loop user achievements earned in
               if is_nil new_badges then ret new_badges
               else
                 do! update_one user_id
                       (set_badges_earned (earned ++ new_badges)) in
                 ret new_badges
           end)
          [] db
    end.

(** ** Weekly challenges *)

(** The challenge set installed at the start of a week. *)
Definition fresh_challenges (current_week : string) (new_streak : Z)
  : Challenges :=
  mkChallenges current_week
    (mkChallenge "practice" 5 0 false 5)
    (mkChallenge "learning" 10 0 false 5)
    (mkChallenge "mastery" 3 0 false 5)
    0 new_streak.

(** [get_daily_challenges]; [current_week] is what [get_week_key()]
    returns at the time of the call. *)
Definition get_daily_challenges (user_id : string) (current_week : string)
  : DB -> option Challenges * DB :=
  fun db =>
    match users_collection db with
    | None => (None, db)
    | Some _ =>
        try_except
          (let! user := find_one user_id in
           match user with
           | None => ret None
           | Some user =>
               let challenges := u_daily_challenges user in
               let same_week :=
                 match challenges with
                 | Some cs => String.eqb (week cs) current_week
                 | None => false
                 end in
               if negb same_week then
                 let streak := default 0 (streak <$> challenges) in
                 let all_done :=
                   default 0 (completed_today <$> challenges) =? 3 in
                 let new_streak := if all_done then streak + 1 else 0 in
                 let challenges := fresh_challenges current_week new_streak in
                 do! (if new_streak >=? 7 then
                        do! update_one user_id
                              (set_counter "challenge_streak" new_streak) in
                        do! call (check_and_award_badges user_id) in
                        ret tt
                      else ret tt) in
                 do! update_one user_id (set_daily_challenges challenges) in
                 ret (Some challenges)
               else ret challenges
           end)
          None db
    end.

(** The keys [challenge1], [challenge2], [challenge3]. *)
Inductive Slot := Slot1 | Slot2 | Slot3.

(** [type_map.get(challenge_type)] *)
Definition type_map (challenge_type : string) : option Slot :=
  if String.eqb challenge_type "practice" then Some Slot1
  else if String.eqb challenge_type "learning" then Some Slot2
  else if String.eqb challenge_type "mastery" then Some Slot3
  else None.

Definition get_slot (key : Slot) (cs : Challenges) : Challenge :=
  match key with
  | Slot1 => challenge1 cs
  | Slot2 => challenge2 cs
  | Slot3 => challenge3 cs
  end.

Definition set_slot (key : Slot) (c : Challenge) (cs : Challenges)
  : Challenges :=
  match key with
  | Slot1 => mkChallenges (week cs) c (challenge2 cs) (challenge3 cs)
               (completed_today cs) (streak cs)
  | Slot2 => mkChallenges (week cs) (challenge1 cs) c (challenge3 cs)
               (completed_today cs) (streak cs)
  | Slot3 => mkChallenges (week cs) (challenge1 cs) (challenge2 cs) c
               (completed_today cs) (streak cs)
  end.

Definition set_completed_today (n : Z) (cs : Challenges) : Challenges :=
  mkChallenges (week cs) (challenge1 cs) (challenge2 cs) (challenge3 cs)
    n (streak cs).

(** The in-place update of the fetched challenge set and the XP it
    accrues: the slot of the type advances unless it is completed, then
    the bonus test on [completed_today]. *)
Definition advance_challenges (challenges : Challenges)
    (challenge_type : string) (increment : Z) : Challenges * Z :=
  let xp_earned := 0 in
  let key := type_map challenge_type in
  let '(challenges, xp_earned) :=
    match key with
    | Some key =>
        let c := get_slot key challenges in
        if negb (c_completed c) then
          let current := Z.min (c_target c) (c_current c + increment) in
          let c := mkChallenge (c_type c) (c_target c) current
                     (c_completed c) (c_xp c) in
          let challenges := set_slot key c challenges in
          if current >=? c_target c then
            let c := mkChallenge (c_type c) (c_target c) (c_current c)
                       true (c_xp c) in
            let challenges := set_slot key c challenges in
            let challenges :=
              set_completed_today (completed_today challenges + 1)
                challenges in
            (challenges, xp_earned + c_xp c)
          else (challenges, xp_earned)
        else (challenges, xp_earned)
    | None => (challenges, xp_earned)
    end in
  let xp_earned :=
    if completed_today challenges =? 3 then xp_earned + 10 else xp_earned in
  (challenges, xp_earned).

Definition update_challenge_progress (user_id : string)
    (challenge_type : string) (increment : Z) (current_week : string)
  : DB -> Z * DB :=
  fun db =>
    match users_collection db with
    | None => (0, db)
    | Some _ =>
        try_except
          (let! challenges :=
             call (get_daily_challenges user_id current_week) in
           match challenges with
           | None => ret 0
           | Some challenges =>
               let '(challenges, xp_earned) :=
                 advance_challenges challenges challenge_type increment in
               do! update_one user_id (set_daily_challenges challenges) in
               do! (if xp_earned >? 0 then
                      let! cur_user := find_one user_id in
                      match cur_user with
                      | Some cur_user =>
                          let new_xp :=
                            default 0 (u_total_xp cur_user) + xp_earned in
                          let new_level := calculate_level_from_xp new_xp in
                          do! update_one user_id
                                (set_xp_level new_xp new_level) in
                          do! call (check_and_award_badges user_id) in
                          ret tt
                      | None => ret tt
                      end
                    else ret tt) in
               ret xp_earned
           end)
          0 db
    end.

(** ** Weekly leaderboard *)

(** A leaderboard entry; [rank] is missing until the entries are
    enumerated. *)
Record Entry := mkEntry {
  e_user_id : string;
  e_name : string;
  e_xp : Z;
  e_weekly_xp : Z;
  e_level : Z;
  e_badges : Z;
  e_division : string;
  e_rank : option Z
}.

(** [list(users_collection.find({}))] *)
Definition find_all : M (list User) :=
  fun db =>
    match users_collection db with
    | None => (None, db)
    | Some coll => (Some coll, db)
    end.

(** The three [continue] tests of the filtering loop. *)
Definition lb_selected (selected_class_str selected_div_str : string)
    (s : User) : bool :=
  let student_class := strip (default "" (u_class s)) in
  let student_div := upper (strip (default "" (u_division s))) in
  let user_type := default "student" (u_user_type s) in
  if String.eqb user_type "teacher" then false
  else if negb (String.eqb (lower student_class) (lower selected_class_str))
  then false
  else if nonempty selected_div_str
          && negb (String.eqb student_div selected_div_str)
  then false
  else true.

(** [len(s.get('achievements', {}).get('badges_earned', []))]: raises on
    an [achievements] value without [get] and on a [badges_earned] value
    without length; a string or a dictionary there is counted by its
    length. *)
Definition badge_count (s : User) : option Z :=
  match u_achievements s with
  | Absent => Some 0
  | Malformed => None
  | Val a =>
      match badges_earned a with
      | NoBadges => Some 0
      | BadgeList l => Some (Z.of_nat (length l))
      | Sized n => Some n
      | Unsized => None
      end
  end.

(** The entry appended for a student. *)
Definition lb_entry (week_key : string) (s : User) : option Entry :=
  let weekly_xp :=
    match u_weekly_xp s with
    | Val weekly_xp_map => default 0 (weekly_xp_map !! week_key)
    | Absent => 0
    | Malformed => 0
    end in
  match badge_count s with
  | Some badges =>
      Some (mkEntry (u_id s)
              (default (default "Unknown" (u_username s)) (u_name s))
              (default 0 (u_total_xp s))
              weekly_xp
              (default 1 (u_level s))
              badges
              (default "" (u_division s))
              None)
  | None => None
  end.

Fixpoint lb_entries (week_key : string) (students : list User)
  : option (list Entry) :=
  match students with
  | [] => Some []
  | s :: rest =>
      match lb_entry week_key s with
      | Some e =>
          match lb_entries week_key rest with
          | Some es => Some (e :: es)
          | None => None
          end
      | None => None
      end
  end.

(** The sort key [(x['weekly_xp'], x['xp'])] and the order of tuples. *)
Definition sort_key (e : Entry) : Z * Z := (e_weekly_xp e, e_xp e).

Definition key_leb (k1 k2 : Z * Z) : bool :=
  (fst k1 <? fst k2) || ((fst k1 =? fst k2) && (snd k1 <=? snd k2)).

(** [lb.sort(key=..., reverse=True)]: descending and stable (entries with
    equal keys keep their order), which fixes the result; computed here by
    insertion from the right. *)
Fixpoint insert_desc (x : Entry) (l : list Entry) : list Entry :=
  match l with
  | [] => [x]
  | y :: l' =>
      if key_leb (sort_key y) (sort_key x) then x :: l
      else y :: insert_desc x l'
  end.

Definition sort_desc (l : list Entry) : list Entry :=
  fold_right insert_desc [] l.

Definition set_rank (r : Z) (e : Entry) : Entry :=
  mkEntry (e_user_id e) (e_name e) (e_xp e) (e_weekly_xp e) (e_level e)
    (e_badges e) (e_division e) (Some r).

(** [for i, e in enumerate(lb): e['rank'] = i + 1], from index [i]. *)
Fixpoint assign_ranks (i : Z) (lb : list Entry) : list Entry :=
  match lb with
  | [] => []
  | e :: rest => set_rank (i + 1) e :: assign_ranks (i + 1) rest
  end.

Definition get_weekly_leaderboard (selected_class selected_division : string)
    (week_key : string) : DB -> list Entry * DB :=
  fun db =>
    match users_collection db with
    | None => ([], db)
    | Some _ =>
        try_except
          (let! all_docs := find_all in
           let selected_class_str := strip selected_class in
           let selected_div_str := upper (strip selected_division) in
           let students :=
             List.filter (lb_selected selected_class_str selected_div_str)
               all_docs in
           match lb_entries week_key students with
           | Some lb => ret (assign_ranks 0 (sort_desc lb))
           | None => raise
           end)
          [] db
    end.

(** ** User documents: creation, lookup, update *)

Section Credentials.

(** The password hashing of werkzeug: [generate_password_hash] draws a
    random salt, which is an argument here; [check_password_hash] raises
    ([None]) on a stored value it cannot parse. *)
Variable generate_password_hash : string -> string -> string.
Variable check_password_hash : string -> string -> option bool.

Definition hash_password (salt plain_text : string) : string :=
  generate_password_hash salt plain_text.

(** [check_pw]: the legacy comparison when the check raises. *)
Definition check_pw (stored provided : string) : bool :=
  match check_password_hash stored provided with
  | Some b => b
  | None => String.eqb stored provided
  end.

(** [users_collection.insert_one(user)]: a duplicate [_id] raises. *)
Definition insert_one (user : User) : M unit :=
  fun db =>
    match users_collection db with
    | None => (None, db)
    | Some coll =>
        match List.find (has_id (u_id user)) coll with
        | Some _ => (None, db)
        | None =>
            (Some tt, mkDB (Some (coll ++ [user])) (conversations_collection db))
        end
    end.

(** [create_user]; the keys [created_at], [mode_stats] and [mistakes] of
    the new document are not modelled. *)
Definition create_user (user_id username password user_type : string)
    (salt now : string) : DB -> option User * DB :=
  fun db =>
    match users_collection db with
    | None => (None, db)
    | Some _ =>
        try_except
          (let user :=
             mkUser user_id (Some username) None
               (Some (hash_password salt password)) (Some user_type)
               None None (Some 0) (Some 0) (Some 1) (Some now)
               (Val init_user_achievements) Absent None None None in
           do! insert_one user in
           ret (Some user))
          None db
    end.

Definition get_user_by_id (user_id : string) : DB -> option User * DB :=
  fun db =>
    match users_collection db with
    | None => (None, db)
    | Some _ => try_except (find_one user_id) None db
    end.

(** A key of the [update_data] dictionary of [update_user], for the keys
    the application passes. *)
Inductive Update :=
  | SetClass (v : string)
  | SetDivision (v : string)
  | SetName (v : string)
  | SetLevel (v : Z)
  | SetAchievements (v : Achievements).

Definition set_last_active (now : string) (u : User) : User :=
  mkUser (u_id u) (u_username u) (u_name u) (u_password u) (u_user_type u)
    (u_class u) (u_division u) (u_total_xp u) (u_total_stars u) (u_level u)
    (Some now) (u_achievements u) (u_weekly_xp u) (u_daily_challenges u)
    (u_security_question u) (u_security_answer u).

Definition apply_update (u : User) (upd : Update) : User :=
  match upd with
  | SetClass v =>
      mkUser (u_id u) (u_username u) (u_name u) (u_password u)
        (u_user_type u) (Some v) (u_division u) (u_total_xp u)
        (u_total_stars u) (u_level u) (u_last_active u) (u_achievements u)
        (u_weekly_xp u) (u_daily_challenges u) (u_security_question u)
        (u_security_answer u)
  | SetDivision v =>
      mkUser (u_id u) (u_username u) (u_name u) (u_password u)
        (u_user_type u) (u_class u) (Some v) (u_total_xp u)
        (u_total_stars u) (u_level u) (u_last_active u) (u_achievements u)
        (u_weekly_xp u) (u_daily_challenges u) (u_security_question u)
        (u_security_answer u)
  | SetName v =>
      mkUser (u_id u) (u_username u) (Some v) (u_password u)
        (u_user_type u) (u_class u) (u_division u) (u_total_xp u)
        (u_total_stars u) (u_level u) (u_last_active u) (u_achievements u)
        (u_weekly_xp u) (u_daily_challenges u) (u_security_question u)
        (u_security_answer u)
  | SetLevel v =>
      mkUser (u_id u) (u_username u) (u_name u) (u_password u)
        (u_user_type u) (u_class u) (u_division u) (u_total_xp u)
        (u_total_stars u) (Some v) (u_last_active u) (u_achievements u)
        (u_weekly_xp u) (u_daily_challenges u) (u_security_question u)
        (u_security_answer u)
  | SetAchievements v =>
      mkUser (u_id u) (u_username u) (u_name u) (u_password u)
        (u_user_type u) (u_class u) (u_division u) (u_total_xp u)
        (u_total_stars u) (u_level u) (u_last_active u) (Val v)
        (u_weekly_xp u) (u_daily_challenges u) (u_security_question u)
        (u_security_answer u)
  end.

Definition update_user (user_id : string) (update_data : list Update)
    (now : string) : DB -> bool * DB :=
  fun db =>
    match users_collection db with
    | None => (false, db)
    | Some _ =>
        try_except
          (do! update_one user_id
                 (fun u =>
                    Some (set_last_active now
                            (fold_left apply_update update_data u))) in
           ret true)
          false db
    end.

(** ** Security question *)

Definition set_security_question (user_id question answer_plain : string)
    (salt : string) : DB -> bool * DB :=
  fun db =>
    match users_collection db with
    | None => (false, db)
    | Some _ =>
        try_except
          (do! update_one user_id
                 (set_security question
                    (hash_password salt (lower (strip answer_plain)))) in
           ret true)
          false db
    end.

Definition verify_security_answer (user_id question answer_plain : string)
  : DB -> bool * DB :=
  fun db =>
    match users_collection db with
    | None => (false, db)
    | Some _ =>
        try_except
          (let! user := find_one user_id in
           match user with
           | None => ret false
           | Some user =>
               if negb (bool_decide (u_security_question user = Some question))
               then ret false
               else
                 match u_security_answer user with
                 | None => ret false
                 | Some stored_answer =>
                     if negb (nonempty stored_answer) then ret false
                     else ret (check_pw stored_answer
                                 (lower (strip answer_plain)))
                 end
           end)
          false db
    end.

End Credentials.

(** ** Conversation transcripts *)

Definition has_user_id (uid : string) (d : ConvDoc) : bool :=
  String.eqb (cd_user_id d) uid.

(** The lines [save_conversation] counts, and its limit for a mode. *)
Definition conversation_msgs (conversation_text : string) : list string :=
  if nonempty conversation_text then split_lines (strip conversation_text)
  else [].

Definition trim_limit (mode : string) : nat :=
  if String.eqb mode "conversation" then 100%nat else 50%nat.

(** The text that is stored: the last [limit] lines when there are more,
    the text as it was passed otherwise. *)
Definition trimmed (mode conversation_text : string) : string :=
  let msgs := conversation_msgs conversation_text in
  let limit := trim_limit mode in
  if (limit <? length msgs)%nat then join_lines (last_n limit msgs)
  else conversation_text.

(** A mode name that is one key of the nested map when it is put in the
    path [conversations.<mode>]: not empty, no dot, no leading dollar. *)
Fixpoint no_dot (s : string) : bool :=
  match s with
  | EmptyString => true
  | String c s' => negb (Ascii.eqb c ".") && no_dot s'
  end.

Definition plain_key (s : string) : bool :=
  match s with
  | EmptyString => false
  | String c _ => negb (Ascii.eqb c "$") && no_dot s
  end.

(** [{'$set': {'conversations.<mode>': text, 'updated_at': now}}] on a
    document, for a mode name that is a plain key. *)
Definition set_mode (mode text now : string) (d : ConvDoc) : ConvDoc :=
  mkConvDoc (cd_user_id d)
    (Some (<[mode := text]> (default ∅ (cd_conversations d))))
    (Some now).

(** [update_one({'user_id': uid}, {...}, upsert=True)]: the first document
    of the user is updated, and one is inserted when there is none. *)
Fixpoint upsert_mode (uid mode text now : string) (coll : list ConvDoc)
  : list ConvDoc :=
  match coll with
  | [] => [mkConvDoc uid (Some {[mode := text]}) (Some now)]
  | d :: rest =>
      if has_user_id uid d then set_mode mode text now d :: rest
      else d :: upsert_mode uid mode text now rest
  end.

Definition save_conversation (user_id mode conversation_text : string)
    (now : string) : DB -> bool * DB :=
  fun db =>
    match conversations_collection db with
    | None => (false, db)
    | Some coll =>
        let conversation_text := trimmed mode conversation_text in
        (true,
         mkDB (users_collection db)
           (Some (upsert_mode user_id mode conversation_text now coll)))
    end.

Definition get_conversation (user_id mode : string) : DB -> string * DB :=
  fun db =>
    match conversations_collection db with
    | None => (EmptyString, db)
    | Some coll =>
        match List.find (has_user_id user_id) coll with
        | Some doc =>
            match cd_conversations doc with
            | Some conversations =>
                (default EmptyString (conversations !! mode), db)
            | None => (EmptyString, db)
            end
        | None => (EmptyString, db)
        end
    end.

(** ** Context handling of the application ([app.py]) *)

(** The store together with the in-process dictionary
    [conversation_contexts] (user id to mode to text). *)
Record App := mkApp {
  app_db : DB;
  conversation_contexts : gmap string (gmap string string)
}.

Definition get_user_context (user_id mode : string) : App -> string * App :=
  fun app =>
    let (context, db) := get_conversation user_id mode (app_db app) in
    if nonempty context then (context, mkApp db (conversation_contexts app))
    else
      let contexts :=
        match conversation_contexts app !! user_id with
        | Some _ => conversation_contexts app
        | None =>
            <[user_id := {[ "conversation"%string := EmptyString;
                            "roleplay"%string := EmptyString ]}]>
              (conversation_contexts app)
        end in
      (default EmptyString (default ∅ (contexts !! user_id) !! mode),
       mkApp db contexts).

Definition update_user_context (user_id mode context : string) (now : string)
  : App -> App :=
  fun app =>
    let (_, db) := save_conversation user_id mode context now (app_db app) in
    let contexts :=
      match conversation_contexts app !! user_id with
      | Some _ => conversation_contexts app
      | None => <[user_id := ∅]> (conversation_contexts app)
      end in
    mkApp db
      (<[user_id := <[mode := context]> (default ∅ (contexts !! user_id))]>
         contexts).

(** The context part of [english_coach]: [reply] is the answer of the
    dialogue generator, already stripped. *)
Definition english_coach_turn (child_text reply user_id : string)
    (now : string) : App -> App :=
  fun app =>
    let (context, app) := get_user_context user_id "conversation" app in
    let new_context :=
      (context ++ String newline "Child: " ++ child_text
         ++ String newline "Assistant: " ++ reply)%string in
    update_user_context user_id "conversation" new_context now app.

(** The context part of [roleplay_coach]. *)
Definition roleplay_coach_turn (child_text roleplay_type reply user_id : string)
    (now : string) : App -> App :=
  fun app =>
    let context_key :=
      if nonempty roleplay_type then ("roleplay_" ++ roleplay_type)%string
      else "roleplay"%string in
    let (context, app) := get_user_context user_id context_key app in
    let new_context :=
      (context ++ String newline "Student: " ++ child_text
         ++ String newline "Assistant: " ++ reply)%string in
    update_user_context user_id context_key new_context now app.

(** ** Login streak, activity counters, weekly XP *)

(** [{'$set': {'achievements.daily_login_streak': streak,
    'achievements.max_login_streak': max_streak,
    'achievements.last_login': today}}] *)
Definition set_login (streak max_streak : Z) (today : string)
  : User -> option User :=
  in_achievements
    (fun a =>
       mkAchievements (badges_earned a)
         (<["max_login_streak"%string := max_streak]>
            (<["daily_login_streak"%string := streak]> (counters a)))
         (Some today)).

(** [update_login_streak]; [today] and [yesterday] are the two dates the
    function formats from the clock. *)
Definition update_login_streak (user_id : string) (today yesterday : string)
  : DB -> unit * DB :=
  fun db =>
    match users_collection db with
    | None => (tt, db)
    | Some _ =>
        try_except
          (let! user := find_one user_id in
           match user with
           | None => ret tt
           | Some user =>
               let! achievements :=
                 match u_achievements user with
                 | Absent => ret init_user_achievements
                 | Val a => ret a
                 | Malformed =>
                     do! update_one user_id
                           (set_achievements init_user_achievements) in
                     ret init_user_achievements
                 end in
               let last_login := last_login achievements in
               if bool_decide (last_login = Some today) then ret tt
               else
                 let streak :=
                   default 0 (counters achievements !! "daily_login_streak"%string) in
                 let streak :=
                   if bool_decide (last_login = Some yesterday) then streak + 1
                   else 1 in
                 let max_streak :=
                   Z.max streak
                     (default 0
                        (counters achievements !! "max_login_streak"%string)) in
                 do! update_one user_id (set_login streak max_streak today) in
                 do! call (check_and_award_badges user_id) in
                 ret tt
           end)
          tt db
    end.

(** [{'$inc': {'achievements.<key>': amount}}]: a missing entry counts
    from 0. *)
Definition inc_counter (key : string) (amount : Z) : User -> option User :=
  in_achievements
    (fun a =>
       mkAchievements (badges_earned a)
         (<[key := default 0 (counters a !! key) + amount]> (counters a))
         (last_login a)).

Definition increment_activity (user_id activity_type : string) (amount : Z)
  : DB -> unit * DB :=
  fun db =>
    match users_collection db with
    | None => (tt, db)
    | Some _ =>
        try_except
          (let field := (activity_type ++ "_count")%string in
           do! update_one user_id (inc_counter field amount) in
           do! call (check_and_award_badges user_id) in
           ret tt)
          tt db
    end.

(** [{'$inc': {'weekly_xp.<week>': xp_to_add}}]: creates the map when it is
    missing, refused when [weekly_xp] is not a document. *)
Definition inc_weekly_xp (week_key : string) (xp_to_add : Z) (u : User)
  : option User :=
  match u_weekly_xp u with
  | Malformed => None
  | w =>
      let m := match w with Val m => m | _ => ∅ end in
      Some (mkUser (u_id u) (u_username u) (u_name u) (u_password u)
              (u_user_type u) (u_class u) (u_division u) (u_total_xp u)
              (u_total_stars u) (u_level u) (u_last_active u)
              (u_achievements u)
              (Val (<[week_key := default 0 (m !! week_key) + xp_to_add]> m))
              (u_daily_challenges u) (u_security_question u)
              (u_security_answer u))
  end.

(** [update_weekly_xp]; [week_key] is what [get_week_key()] returns. *)
Definition update_weekly_xp (user_id : string) (xp_to_add : Z)
    (week_key : string) : DB -> unit * DB :=
  fun db =>
    match users_collection db with
    | None => (tt, db)
    | Some _ =>
        if xp_to_add <=? 0 then (tt, db)
        else
          try_except
            (do! update_one user_id (inc_weekly_xp week_key xp_to_add) in
             ret tt)
            tt db
    end.

(** [{'$set': data}] of [update_user_xp]: [total_stars] only when [stars]
    is given. *)
Definition set_xp_data (xp level : Z) (stars : option Z) (now : string)
    (u : User) : option User :=
  Some (mkUser (u_id u) (u_username u) (u_name u) (u_password u)
          (u_user_type u) (u_class u) (u_division u) (Some xp)
          (match stars with Some st => Some st | None => u_total_stars u end)
          (Some level) (Some now) (u_achievements u) (u_weekly_xp u)
          (u_daily_challenges u) (u_security_question u)
          (u_security_answer u)).

Definition update_user_xp (user_id : string) (xp level : Z) (stars : option Z)
    (now : string) : DB -> bool * DB :=
  fun db =>
    match users_collection db with
    | None => (false, db)
    | Some _ =>
        try_except
          (do! update_one user_id (set_xp_data xp level stars now) in
           do! call (check_and_award_badges user_id) in
           ret true)
          false db
    end.

(** ** Lookups, removal, passwords *)

(** [users_collection.find_one({'username': username})] *)
Definition get_user_by_username (username : string) : DB -> option User * DB :=
  fun db =>
    match users_collection db with
    | None => (None, db)
    | Some coll =>
        (List.find (fun u => bool_decide (u_username u = Some username)) coll,
         db)
    end.

(** [list(users_collection.find({'user_type': 'student'}))] *)
Definition get_all_users : DB -> list User * DB :=
  fun db =>
    match users_collection db with
    | None => ([], db)
    | Some coll =>
        (List.filter
           (fun u => bool_decide (u_user_type u = Some "student"%string)) coll,
         db)
    end.

(** [users_collection.delete_one({'_id': uid})]: the first match goes. *)
Fixpoint delete_first (uid : string) (coll : list User) : list User :=
  match coll with
  | [] => []
  | u :: rest => if has_id uid u then rest else u :: delete_first uid rest
  end.

Definition delete_user (user_id : string) : DB -> bool * DB :=
  fun db =>
    match users_collection db with
    | None => (false, db)
    | Some coll =>
        (true,
         mkDB (Some (delete_first user_id coll)) (conversations_collection db))
    end.

Definition get_user_security_question (user_id : string)
  : DB -> option string * DB :=
  fun db =>
    match users_collection db with
    | None => (None, db)
    | Some _ =>
        try_except
          (let! user := find_one user_id in
           match user with
           | Some user => ret (u_security_question user)
           | None => ret None
           end)
          None db
    end.

(** [is_hashed] *)
Definition is_hashed (stored : string) : bool :=
  String.prefix "pbkdf2:" stored || String.prefix "scrypt:" stored.

(** [{'$set': {'password': h}}] *)
Definition set_password (h : string) (u : User) : option User :=
  Some (mkUser (u_id u) (u_username u) (u_name u) (Some h) (u_user_type u)
          (u_class u) (u_division u) (u_total_xp u) (u_total_stars u)
          (u_level u) (u_last_active u) (u_achievements u) (u_weekly_xp u)
          (u_daily_challenges u) (u_security_question u)
          (u_security_answer u)).

Section PasswordReset.

Variable generate_password_hash : string -> string -> string.

(** [reset_student_password_by_security] and [admin_reset_user_password]
    have this one body. *)
Definition reset_student_password_by_security (user_id new_password : string)
    (salt : string) : DB -> bool * DB :=
  fun db =>
    match users_collection db with
    | None => (false, db)
    | Some _ =>
        try_except
          (do! update_one user_id
                 (set_password
                    (hash_password generate_password_hash salt new_password)) in
           ret true)
          false db
    end.

End PasswordReset.

(** [{'$unset': {'conversations.<mode>': ''}}] on a document. *)
Definition unset_mode (mode : string) (d : ConvDoc) : ConvDoc :=
  mkConvDoc (cd_user_id d) (delete mode <$> cd_conversations d)
    (cd_updated_at d).

Fixpoint unset_first (uid mode : string) (coll : list ConvDoc)
  : list ConvDoc :=
  match coll with
  | [] => []
  | d :: rest =>
      if has_user_id uid d then unset_mode mode d :: rest
      else d :: unset_first uid mode rest
  end.

Definition delete_conversation (user_id mode : string) : DB -> bool * DB :=
  fun db =>
    match conversations_collection db with
    | None => (false, db)
    | Some coll =>
        (true, mkDB (users_collection db) (Some (unset_first user_id mode coll)))
    end.

(** ** Migration helpers *)

(** The query [{'user_type': {'$ne': 'teacher'}}]. *)
Definition not_teacher (u : User) : bool :=
  negb (bool_decide (u_user_type u = Some "teacher"%string)).

(** [{'$set': updates}] of the migration: the level, and the default
    achievements when the stored ones are not a document. *)
Definition set_migrated (correct_level : Z) (reset_achievements : bool)
    (u : User) : option User :=
  Some (mkUser (u_id u) (u_username u) (u_name u) (u_password u)
          (u_user_type u) (u_class u) (u_division u) (u_total_xp u)
          (u_total_stars u) (Some correct_level) (u_last_active u)
          (if reset_achievements then Val init_user_achievements
           else u_achievements u)
          (u_weekly_xp u) (u_daily_challenges u) (u_security_question u)
          (u_security_answer u)).

(** The body of the migration loop for one user of the snapshot; an
    exception in it counts as an error and the loop goes on. *)
Definition migrate_one (user : User) : DB -> bool * DB :=
  try_except
    (let uid := u_id user in
     let correct_level := calculate_level_from_xp (default 0 (u_total_xp user)) in
     let reset_achievements :=
       match u_achievements user with Malformed => true | _ => false end in
     do! update_one uid (set_migrated correct_level reset_achievements) in
     do! call (check_and_award_badges uid) in
     ret true)
    false.

Fixpoint migrate_loop (all_users : list User) (migrated errors : Z)
  : DB -> (Z * Z) * DB :=
  fun db =>
    match all_users with
    | [] => ((migrated, errors), db)
    | user :: rest =>
        let (ok, db') := migrate_one user db in
        if ok then migrate_loop rest (migrated + 1) errors db'
        else migrate_loop rest migrated (errors + 1) db'
    end.

(** [migrate_all_users_levels_and_badges]: the pair is
    [(migrated, errors)]. *)
Definition migrate_all_users_levels_and_badges : DB -> (Z * Z) * DB :=
  fun db =>
    match users_collection db with
    | None => ((0, 0), db)
    | Some coll => migrate_loop (List.filter not_teacher coll) 0 0 db
    end.

(** [{'$set': {'weekly_xp.<week>': total_xp}}] *)
Definition set_weekly_xp (week_key : string) (total_xp : Z) (u : User)
  : option User :=
  match u_weekly_xp u with
  | Malformed => None
  | w =>
      let m := match w with Val m => m | _ => ∅ end in
      Some (mkUser (u_id u) (u_username u) (u_name u) (u_password u)
              (u_user_type u) (u_class u) (u_division u) (u_total_xp u)
              (u_total_stars u) (u_level u) (u_last_active u)
              (u_achievements u) (Val (<[week_key := total_xp]> m))
              (u_daily_challenges u) (u_security_question u)
              (u_security_answer u))
  end.

(** The loop of [backfill_weekly_xp] over the snapshot: an exception
    leaves it. *)
Fixpoint backfill_loop (week_key : string) (users : list User) : M unit :=
  match users with
  | [] => ret tt
  | user :: rest =>
      let missing :=
        match u_weekly_xp user with
        | Val weekly_xp_map =>
            match weekly_xp_map !! week_key with
            | Some _ => false
            | None => true
            end
        | _ => true
        end in
      if missing then
        let total_xp := default 0 (u_total_xp user) in
        if total_xp >? 0 then
          do! update_one (u_id user) (set_weekly_xp week_key total_xp) in
          backfill_loop week_key rest
        else backfill_loop week_key rest
      else backfill_loop week_key rest
  end.

Definition backfill_weekly_xp (week_key : string) : DB -> unit * DB :=
  fun db =>
    match users_collection db with
    | None => (tt, db)
    | Some coll =>
        try_except (backfill_loop week_key (List.filter not_teacher coll)) tt db
    end.

(** ** Levels and progress in the application ([app.py]) *)

Definition get_xp_for_level (level : Z) : Z := xp_threshold_for_level level.

Definition calculate_level (xp : Z) : Z := calculate_level_from_xp xp.

Definition get_xp_for_next_level (current_level : Z) : Z :=
  xp_threshold_for_level (current_level + 1)
  - xp_threshold_for_level current_level.

Definition get_difficulty_for_level (level : Z) : string :=
  if level <=? 2 then "easy"
  else if level <=? 4 then "easy"
  else if level <=? 7 then "medium"
  else if level <=? 10 then "medium"
  else "hard".

(** The answer of [get_user_stats] for a logged-in student. *)
Record UserStats := mkUserStats {
  st_total_xp : Z;
  st_total_stars : Z;
  st_level : Z;
  st_xp_in_current_level : Z;
  st_xp_needed_for_next : Z;
  st_recommended_difficulty : string
}.

(** [get_user_stats] from [user_data = get_user_by_id(user_id) or {}]. *)
Definition get_user_stats (user_data : option User) : UserStats :=
  let current_level := default 1 (user_data ≫= u_level) in
  let current_xp := default 0 (user_data ≫= u_total_xp) in
  let xp_for_current_level := get_xp_for_level current_level in
  let xp_for_next_level := get_xp_for_level (current_level + 1) in
  let xp_in_current_level := current_xp - xp_for_current_level in
  let xp_needed_for_next := xp_for_next_level - xp_for_current_level in
  mkUserStats (default 0 (user_data ≫= u_total_xp))
    (default 0 (user_data ≫= u_total_stars))
    current_level xp_in_current_level xp_needed_for_next
    (get_difficulty_for_level current_level).

(** [update_user_mode_stats]: the counters under [mode_stats] are not part
    of the [User] record of this model; of the update there remain
    [last_active] and, with [upsert=True], the document inserted when the
    user has none. *)
Fixpoint upsert_last_active (uid now : string) (coll : list User)
  : list User :=
  match coll with
  | [] =>
      [mkUser uid None None None None None None None None None (Some now)
         Absent Absent None None None]
  | u :: rest =>
      if has_id uid u then set_last_active now u :: rest
      else u :: upsert_last_active uid now rest
  end.

Definition update_user_mode_stats (user_id mode : string) (stars_earned : Z)
    (now : string) : DB -> bool * DB :=
  fun db =>
    match users_collection db with
    | None => (false, db)
    | Some coll =>
        (true,
         mkDB (Some (upsert_last_active user_id now coll))
           (conversations_collection db))
    end.

(** What [save_user_progress] returns: [leveled_up], [new_level],
    [old_level]. *)
Record LevelInfo := mkLevelInfo {
  leveled_up : bool;
  new_level : Z;
  old_level : Z
}.

(** The activity and challenge calls [save_user_progress] makes for a
    mode. *)
Definition track_mode (user_id mode : string) (stars_earned : Z)
    (week_key : string) : DB -> DB :=
  fun db =>
    if String.eqb mode "repeat" then
      let db := snd (increment_activity user_id "repeat" 1 db) in
      snd (update_challenge_progress user_id "learning" 1 week_key db)
    else if String.eqb mode "spellbee" then
      if stars_earned >? 0
      then snd (increment_activity user_id "spelling" 1 db)
      else db
    else if String.eqb mode "conversation" then
      let db := snd (increment_activity user_id "conversation" 1 db) in
      snd (update_challenge_progress user_id "practice" 1 week_key db)
    else if String.eqb mode "roleplay" then
      let db := snd (increment_activity user_id "roleplay" 1 db) in
      snd (update_challenge_progress user_id "practice" 1 week_key db)
    else db.

Definition save_user_progress (user_id : string) (stars_earned : Z)
    (mode : string) (now week_key : string) : DB -> option LevelInfo * DB :=
  fun db =>
    let (user, db) := get_user_by_id user_id db in
    match user with
    | Some user =>
        let old_level := default 1 (u_level user) in
        let old_xp := default 0 (u_total_xp user) in
        let old_stars := default 0 (u_total_stars user) in
        let new_xp := old_xp + stars_earned in
        let new_stars := old_stars + stars_earned in
        let new_level := calculate_level new_xp in
        let db := snd (update_user_xp user_id new_xp new_level (Some new_stars)
                         now db) in
        let db := snd (update_weekly_xp user_id stars_earned week_key db) in
        let db := snd (update_user_mode_stats user_id mode stars_earned now db) in
        let db := track_mode user_id mode stars_earned week_key db in
        (Some (mkLevelInfo (new_level >? old_level) new_level old_level), db)
    | None => (None, db)
    end.

(** ** Letter feedback of the spelling check ([compare_spelling]) *)

(** An entry of the comparison: the letter of the correct word with its
    status, and the letter typed when it is another one. *)
Inductive LetterStatus :=
  | LetterCorrect (letter : ascii)
  | LetterIncorrect (letter typed : ascii)
  | LetterMissing (letter : ascii).

(** One turn of the [for i in range(max_len)] loop. *)
Definition compare_spelling_step (student correct : string)
    (comparison : list LetterStatus) (i : nat) : list LetterStatus :=
  match String.get i correct with
  | Some correct_letter =>
      match String.get i student with
      | Some student_letter =>
          if Ascii.eqb student_letter correct_letter
          then comparison ++ [LetterCorrect correct_letter]
          else comparison ++ [LetterIncorrect correct_letter student_letter]
      | None => comparison ++ [LetterMissing correct_letter]
      end
  | None => comparison
  end.

Definition compare_spelling (student_spelling correct_word : string)
  : list LetterStatus :=
  let student := strip (lower student_spelling) in
  let correct := strip (lower correct_word) in
  let max_len := Nat.max (String.length student) (String.length correct) in
  fold_left (compare_spelling_step student correct) (seq 0 max_len) [].

(** ** Mistake log ([log_mistake])

    The function reads and writes the key [mistakes] of a user document,
    which is not part of the [User] record above; a document is seen here
    through its keys [_id] and [mistakes]. *)

(** A logged mistake: [data] and [time]. *)
Record Mistake := mkMistake {
  mk_data : string;
  mk_time : string
}.

(** The [mistakes] sub-document: the lists by category and the key
    [total]. *)
Record Mistakes := mkMistakes {
  m_lists : gmap string (list Mistake);
  m_total : option Z
}.

Record MistakesDoc := mkMistakesDoc {
  md_id : string;
  md_mistakes : option Mistakes
}.

Definition default_mistakes : Mistakes :=
  mkMistakes
    (list_to_map
       [ ("pronunciation", []); ("spelling", []); ("vocabulary", []) ]%string)
    (Some 0).

(** The update of the dictionary between the lookup and the write:
    [None] when [append] is called on the number under [total]. *)
Definition log_mistake_update (mistakes : Mistakes) (mistake_type : string)
    (entry : Mistake) : option Mistakes :=
  let after_append :=
    match m_lists mistakes !! mistake_type with
    | Some l =>
        Some (mkMistakes
                (<[mistake_type := last_n 50 (l ++ [entry])]> (m_lists mistakes))
                (m_total mistakes))
    | None =>
        if String.eqb mistake_type "total" && bool_decide (is_Some (m_total mistakes))
        then None
        else Some mistakes
    end in
  match after_append with
  | Some mistakes =>
      Some (mkMistakes (m_lists mistakes)
              (Some (default 0 (m_total mistakes) + 1)))
  | None => None
  end.

Fixpoint log_mistake_first (uid : string) (f : option Mistakes -> option Mistakes)
    (coll : list MistakesDoc) : list MistakesDoc :=
  match coll with
  | [] => []
  | d :: rest =>
      if String.eqb (md_id d) uid then
        match f (md_mistakes d) with
        | Some m => mkMistakesDoc (md_id d) (Some m) :: rest
        | None => d :: rest
        end
      else d :: log_mistake_first uid f rest
  end.

(** [log_mistake] on the collection seen through [_id] and [mistakes];
    [time] is the formatted clock. An exception leaves the collection as
    it is. *)
Definition log_mistake (user_id mistake_type mistake_data time : string)
    (users : option (list MistakesDoc)) : option (list MistakesDoc) :=
  match users with
  | None => None
  | Some coll =>
      Some (log_mistake_first user_id
              (fun stored =>
                 log_mistake_update (default default_mistakes stored)
                   mistake_type (mkMistake mistake_data time))
              coll)
  end.

(* ===================================================================== *)
(** * Part II: properties *)
(* ===================================================================== *)

(** ** The helpers on small inputs *)

Example strip_example :
  strip (String newline "  Hello World " ++ String newline "")%string
  = "Hello World"%string.
Proof. reflexivity. Qed.

Example lower_example : lower "HeLLo, World 42" = "hello, world 42"%string.
Proof. reflexivity. Qed.

Example split_lines_example :
  split_lines ("a" ++ String newline "b" ++ String newline "")%string
  = ["a"; "b"; ""]%string
  /\ split_lines "" = [""%string].
Proof. split; reflexivity. Qed.

Example join_lines_example :
  join_lines ["a"; "b"; "c"]%string
  = ("a" ++ String newline "b" ++ String newline "c")%string.
Proof. reflexivity. Qed.

Example last_n_example : last_n 2 [1; 2; 3] = [2; 3] /\ last_n 5 [1; 2] = [1; 2].
Proof. split; reflexivity. Qed.

Example level_examples :
  map calculate_level_from_xp [0; 24; 25; 74; 75; 174; 175; 374; 375; 1000]
  = [1; 1; 2; 2; 3; 3; 4; 4; 5; 6].
Proof. vm_compute. reflexivity. Qed.

Example threshold_examples :
  map xp_threshold_for_level [0; 1; 2; 3; 4; 5; 6] = [0; 0; 25; 75; 175; 375; 775].
Proof. reflexivity. Qed.

(** ** Level engine *)

Section LevelFacts.

Lemma py_range_snoc a b : a <= b -> py_range a (b + 1) = py_range a b ++ [b].
Proof.
  intros Hab. unfold py_range.
  replace (Z.to_nat (b + 1 - a)) with (Z.to_nat (b - a) + 1)%nat by lia.
  rewrite seq_app, map_app. simpl. f_equal. f_equal. lia.
Qed.

Lemma threshold_step level :
  1 <= level ->
  xp_threshold_for_level (level + 1)
  = xp_threshold_for_level level + 25 * 2 ^ (level - 1).
Proof.
  intros Hl. unfold xp_threshold_for_level.
  destruct (Z.leb_spec (level + 1) 1) as [H1|H1]; [lia|].
  rewrite py_range_snoc by lia. rewrite fold_left_app. simpl.
  destruct (Z.leb_spec level 1) as [H2|H2]; [|reflexivity].
  assert (level = 1) as -> by lia. reflexivity.
Qed.

(** Closed form of the threshold: 25 * (2^(level-1) - 1). *)
Lemma threshold_closed level :
  1 <= level -> xp_threshold_for_level level = 25 * (2 ^ (level - 1) - 1).
Proof.
  intros Hl. pattern level. apply Zlt_lower_bound_ind with (z := 1); [|lia].
  intros x IH Hx. destruct (Z.eq_dec x 1) as [->|Hne]; [reflexivity|].
  replace x with ((x - 1) + 1) at 1 by lia.
  rewrite threshold_step by lia. rewrite IH by lia.
  replace (x - 1) with (Z.succ (x - 1 - 1)) at 3 by lia.
  rewrite Z.pow_succ_r by lia. lia.
Qed.

Lemma threshold_low level : level <= 1 -> xp_threshold_for_level level = 0.
Proof.
  intros Hl. unfold xp_threshold_for_level.
  destruct (Z.leb_spec level 1); [reflexivity|lia].
Qed.

Lemma threshold_mono a b :
  a <= b -> xp_threshold_for_level a <= xp_threshold_for_level b.
Proof.
  intros Hab. destruct (Z_le_gt_dec a 1) as [Ha|Ha].
  - rewrite (threshold_low a Ha). destruct (Z_le_gt_dec b 1) as [Hb|Hb].
    + rewrite (threshold_low b Hb). lia.
    + rewrite threshold_closed by lia.
      assert (0 < 2 ^ (b - 1)) by (apply Z.pow_pos_nonneg; lia). lia.
  - rewrite !threshold_closed by lia.
    assert (2 ^ (a - 1) <= 2 ^ (b - 1)) by (apply Z.pow_le_mono_r; lia). lia.
Qed.

Lemma pow2_gt_lin n : 0 <= n -> n < 2 ^ n.
Proof. intros Hn. apply Z.pow_gt_lin_r; lia. Qed.

(** The loop started at [level] stops at [L] as soon as [xp] lies below the
    threshold after [L]; [L - level + 1] tests are enough. *)
Lemma level_loop_reaches fuel xp level L :
  1 <= level <= L ->
  (level < L -> xp_threshold_for_level L <= xp) ->
  xp < xp_threshold_for_level (L + 1) ->
  (Z.to_nat (L - level) < fuel)%nat ->
  level_loop fuel xp level = Some L.
Proof.
  revert level. induction fuel as [|fuel IH]; intros level Hl Hreach Hstop Hfuel;
    [lia|].
  simpl. destruct (Z.geb_spec xp (xp_threshold_for_level (level + 1))) as [Hge|Hlt].
  - assert (level < L) as HlL.
    { destruct (Z.eq_dec level L) as [->|]; [lia|lia]. }
    apply IH; lia.
  - destruct (Z.eq_dec level L) as [->|Hne]; [reflexivity|].
    exfalso. assert (level + 1 <= L) as Hle by lia.
    pose proof (threshold_mono _ _ Hle). specialize (Hreach ltac:(lia)). lia.
Qed.

(** The level of an XP total in closed form. *)
Definition level_of_xp (xp : Z) : Z :=
  if xp <? 0 then 1 else Z.log2 (xp / 25 + 1) + 1.

Lemma level_of_xp_bounds xp :
  1 <= level_of_xp xp
  /\ (1 < level_of_xp xp -> xp_threshold_for_level (level_of_xp xp) <= xp)
  /\ xp < xp_threshold_for_level (level_of_xp xp + 1)
  /\ (Z.to_nat (level_of_xp xp - 1) < level_fuel xp)%nat.
Proof.
  unfold level_of_xp, level_fuel. destruct (Z.ltb_spec xp 0) as [Hneg|Hpos].
  - repeat split; try lia. rewrite threshold_closed by lia. simpl. lia.
  - assert (0 <= xp / 25) as Hq by (apply Z.div_pos; lia).
    pose proof (Z.log2_nonneg (xp / 25 + 1)) as Hlog.
    destruct (Z.log2_spec (xp / 25 + 1)) as [Hlo Hhi]; [lia|].
    pose proof (Z.mul_div_le xp 25 ltac:(lia)) as Hd1.
    pose proof (Z.mul_succ_div_gt xp 25 ltac:(lia)) as Hd2.
    set (k := Z.log2 (xp / 25 + 1)) in *.
    repeat split; try lia.
    + intros _. rewrite threshold_closed by lia.
      replace (k + 1 - 1) with k by lia. lia.
    + rewrite threshold_closed by lia.
      replace (k + 1 + 1 - 1) with (Z.succ k) by lia. lia.
    + replace (k + 1 - 1) with k by lia.
      pose proof (pow2_gt_lin k Hlog). lia.
Qed.

(** Enough fuel: with [level_fuel xp] tests or more the loop returns, and
    what it returns is the closed form. *)
Lemma level_loop_fuel xp fuel :
  (level_fuel xp <= fuel)%nat -> level_loop fuel xp 1 = Some (level_of_xp xp).
Proof.
  intros Hfuel. destruct (level_of_xp_bounds xp) as (H1 & H2 & H3 & H4).
  apply level_loop_reaches; lia.
Qed.

Lemma calculate_level_from_xp_closed xp :
  calculate_level_from_xp xp = level_of_xp xp.
Proof.
  unfold calculate_level_from_xp. rewrite level_loop_fuel; [reflexivity|lia].
Qed.

(** The function is total: its loop returns within the fuel it is given. *)
Lemma calculate_level_from_xp_returns xp :
  level_loop (level_fuel xp) xp 1 = Some (calculate_level_from_xp xp).
Proof.
  rewrite calculate_level_from_xp_closed. apply level_loop_fuel. lia.
Qed.

Lemma level_unique xp L :
  1 <= L ->
  (1 < L -> xp_threshold_for_level L <= xp) ->
  xp < xp_threshold_for_level (L + 1) ->
  calculate_level_from_xp xp = L.
Proof.
  intros HL Hlo Hhi.
  pose proof (calculate_level_from_xp_returns xp) as Hrun.
  destruct (level_of_xp_bounds xp) as (_ & _ & _ & Hf).
  assert (level_loop (Nat.max (level_fuel xp) (S (Z.to_nat (L - 1)))) xp 1
          = Some L) as HrunL.
  { apply level_loop_reaches; try lia. }
  rewrite level_loop_fuel in HrunL by lia.
  rewrite calculate_level_from_xp_closed. congruence.
Qed.

(** C3. Threshold round trip: the level computed from the threshold of a
    level [>= 1] is that level, one XP less gives the level below (for
    levels above 1), and the first thresholds are 25, 75, 175 and 375. *)
Theorem threshold_round_trip level :
  1 <= level ->
  calculate_level_from_xp (xp_threshold_for_level level) = level
  /\ (1 < level ->
      calculate_level_from_xp (xp_threshold_for_level level - 1) = level - 1)
  /\ xp_threshold_for_level 2 = 25
  /\ xp_threshold_for_level 3 = 75
  /\ xp_threshold_for_level 4 = 175
  /\ xp_threshold_for_level 5 = 375.
Proof.
  intros Hl.
  assert (0 < 2 ^ (level - 1)) as Hpow by (apply Z.pow_pos_nonneg; lia).
  split; [|split; [|repeat split]].
  - apply level_unique; try lia.
    rewrite threshold_step by lia. lia.
  - intros Hgt. apply level_unique; try lia.
    + intros Hgt2. replace level with ((level - 1) + 1) at 2 by lia.
      rewrite (threshold_step (level - 1)) by lia.
      assert (0 < 2 ^ (level - 1 - 1)) by (apply Z.pow_pos_nonneg; lia). lia.
    + replace (level - 1 + 1) with level by lia. lia.
Qed.

Lemma threshold_round_trip_witness :
  1 <= 4
  /\ calculate_level_from_xp (xp_threshold_for_level 4) = 4
  /\ calculate_level_from_xp (xp_threshold_for_level 4 - 1) = 3.
Proof.
  split; [lia|].
  destruct (threshold_round_trip 4 ltac:(lia)) as (H1 & H2 & _).
  split; [exact H1 | apply H2; lia].
Defined.

End LevelFacts.

(** ** Star scoring *)

Section ScoringFacts.

Variable ratio : string -> string -> Q.

Lemma Qle_bool_false (x y : Q) : (y < x)%Q -> Qle_bool x y = false.
Proof.
  intros Hlt. destruct (Qle_bool x y) eqn:E; [|reflexivity].
  apply Qle_bool_iff in E. exfalso. exact (Qlt_not_le _ _ Hlt E).
Qed.

Lemma repeat_stars_bands (r : Q) :
  ((9 # 10 <= r)%Q -> repeat_stars r = 3)
  /\ ((75 # 100 <= r)%Q -> (r < 9 # 10)%Q -> repeat_stars r = 2)
  /\ ((6 # 10 <= r)%Q -> (r < 75 # 100)%Q -> repeat_stars r = 1)
  /\ ((r < 6 # 10)%Q -> repeat_stars r = 0).
Proof.
  unfold repeat_stars. repeat split.
  - intros H3. apply Qle_bool_iff in H3. now rewrite H3.
  - intros H2 H3. apply Qle_bool_iff in H2.
    now rewrite (Qle_bool_false _ _ H3), H2.
  - intros H1 H2. apply Qle_bool_iff in H1.
    assert (r < 9 # 10)%Q as H3.
    { eapply Qlt_trans; [exact H2|reflexivity]. }
    now rewrite (Qle_bool_false _ _ H3), (Qle_bool_false _ _ H2), H1.
  - intros H1.
    assert (r < 75 # 100)%Q as H2.
    { eapply Qlt_trans; [exact H1|reflexivity]. }
    assert (r < 9 # 10)%Q as H3.
    { eapply Qlt_trans; [exact H2|reflexivity]. }
    now rewrite (Qle_bool_false _ _ H3), (Qle_bool_false _ _ H2),
      (Qle_bool_false _ _ H1).
Qed.

(** C2. In repeat mode the stars follow the bands of the similarity ratio
    [r] of the lower-cased texts: 3 from 0.9, 2 from 0.75 and below 0.9,
    1 from 0.6 and below 0.75, 0 below 0.6; in spelling mode two words
    that are equal once lower-cased and stripped give 3 stars, whatever
    the ratio function is. *)
Theorem star_scoring_bands (student correct spelling word : string) :
  let r := ratio (lower student) (lower correct) in
  ((9 # 10 <= r)%Q -> check_repeat_stars ratio student correct = 3)
  /\ ((75 # 100 <= r)%Q -> (r < 9 # 10)%Q ->
      check_repeat_stars ratio student correct = 2)
  /\ ((6 # 10 <= r)%Q -> (r < 75 # 100)%Q ->
      check_repeat_stars ratio student correct = 1)
  /\ ((r < 6 # 10)%Q -> check_repeat_stars ratio student correct = 0)
  /\ (strip (lower spelling) = strip (lower word) ->
      check_spelling_stars ratio spelling word = 3).
Proof.
  intros r. unfold check_repeat_stars. fold r.
  destruct (repeat_stars_bands r) as (H3 & H2 & H1 & H0).
  repeat split; try assumption.
  intros Heq. unfold check_spelling_stars. rewrite Heq.
  now rewrite String.eqb_refl.
Qed.

End ScoringFacts.

(** A ratio for examples: 1 on equal texts, 7/10 otherwise. *)
Definition example_ratio (a b : string) : Q :=
  if String.eqb a b then 1 else 7 # 10.

Lemma star_scoring_bands_witness :
  check_repeat_stars example_ratio "Good Morning" "good morning" = 3
  /\ check_repeat_stars example_ratio "good mourning" "good morning" = 1
  /\ check_spelling_stars (fun _ _ => 0%Q) "  Elephant " "elephant" = 3.
Proof.
  destruct (star_scoring_bands example_ratio "Good Morning" "good morning"
              "" "") as (H3 & _).
  destruct (star_scoring_bands example_ratio "good mourning" "good morning"
              "" "") as (_ & _ & H1 & _).
  destruct (star_scoring_bands (fun _ _ => 0%Q) "" "" "  Elephant " "elephant")
    as (_ & _ & _ & _ & Hs).
  split; [|split].
  - apply H3. vm_compute. discriminate.
  - apply H1; vm_compute; [discriminate|reflexivity].
  - apply Hs. reflexivity.
Defined.

(** ** The store is unavailable *)

Section Unavailable.

Variable generate_password_hash : string -> string -> string.
Variable check_password_hash : string -> string -> option bool.

(** C9. With the collection handles [None], the operations return their
    default and leave the state as it is: the empty list for the
    leaderboard and the badge evaluation, [None] for a user lookup and the
    challenge set, [False] for an update, the empty string for a
    transcript, 0 for a challenge update. *)
Theorem store_unavailable_defaults (db : DB)
    (user_id mode text now week_key cls div ctype q a salt : string)
    (update_data : list Update) (increment : Z) :
  users_collection db = None ->
  conversations_collection db = None ->
  get_weekly_leaderboard cls div week_key db = ([], db)
  /\ get_user_by_id user_id db = (None, db)
  /\ update_user user_id update_data now db = (false, db)
  /\ check_and_award_badges user_id db = ([], db)
  /\ get_conversation user_id mode db = (EmptyString, db)
  /\ update_challenge_progress user_id ctype increment week_key db = (0, db)
  /\ get_daily_challenges user_id week_key db = (None, db)
  /\ save_conversation user_id mode text now db = (false, db)
  /\ create_user generate_password_hash user_id text text text salt now db
     = (None, db)
  /\ set_security_question generate_password_hash user_id q a salt db
     = (false, db)
  /\ verify_security_answer check_password_hash user_id q a db = (false, db).
Proof.
  intros Hu Hc.
  unfold get_weekly_leaderboard, get_user_by_id, update_user,
    check_and_award_badges, get_conversation, update_challenge_progress,
    get_daily_challenges, save_conversation, create_user,
    set_security_question, verify_security_answer.
  rewrite Hu, Hc. repeat split; reflexivity.
Qed.

End Unavailable.

(** The state after a failed connection. *)
Definition no_db : DB := mkDB None None.

Lemma store_unavailable_defaults_witness :
  get_weekly_leaderboard "5" "A" "2026-W45" no_db = ([], no_db)
  /\ get_user_by_id "1234" no_db = (None, no_db)
  /\ update_user "1234" [SetLevel 3] "2026-11-03 10:00:00" no_db
     = (false, no_db)
  /\ check_and_award_badges "1234" no_db = ([], no_db)
  /\ get_conversation "1234" "conversation" no_db = (EmptyString, no_db)
  /\ update_challenge_progress "1234" "practice" 1 "2026-W45" no_db
     = (0, no_db).
Proof.
  destruct (store_unavailable_defaults (fun _ p => p) (fun _ _ => None)
              no_db "1234" "conversation" "" "2026-11-03 10:00:00"
              "2026-W45" "5" "A" "practice" "" "" "" [SetLevel 3] 1
              eq_refl eq_refl)
    as (H1 & H2 & H3 & H4 & H5 & H6 & _).
  repeat split; assumption.
Defined.

(** ** The users collection *)

#[local] Arguments find_one : simpl never.
#[local] Arguments update_one : simpl never.
#[local] Arguments find_all : simpl never.
#[local] Arguments check_and_award_badges : simpl never.
#[local] Arguments get_daily_challenges : simpl never.

Section CollectionFacts.

Lemma find_has_id uid coll u :
  List.find (has_id uid) coll = Some u -> u_id u = uid.
Proof.
  intros H. apply find_some in H as [_ H]. now apply String.eqb_eq in H.
Qed.

Lemma update_first_found uid f coll u u' :
  List.find (has_id uid) coll = Some u ->
  f u = Some u' ->
  u_id u' = u_id u ->
  exists coll',
    update_first uid f coll = Some coll'
    /\ List.find (has_id uid) coll' = Some u'.
Proof.
  intros Hfind Hf Hid. induction coll as [|x rest IH]; [discriminate|].
  simpl in *. destruct (has_id uid x) eqn:E.
  - injection Hfind as ->. rewrite Hf. eexists; split; [reflexivity|].
    simpl. unfold has_id in *. rewrite Hid, E. reflexivity.
  - destruct (IH Hfind) as (rest' & -> & Hrest).
    eexists; split; [reflexivity|]. simpl. now rewrite E.
Qed.

Lemma update_first_same uid f coll u :
  List.find (has_id uid) coll = Some u ->
  f u = Some u ->
  update_first uid f coll = Some coll.
Proof.
  intros Hfind Hf. induction coll as [|x rest IH]; [discriminate|].
  simpl in *. destruct (has_id uid x) eqn:E.
  - injection Hfind as ->. now rewrite Hf.
  - now rewrite (IH Hfind).
Qed.

Lemma bind_ok {A B} (m : M A) (k : A -> M B) db a db' :
  m db = (Some a, db') -> bind m k db = k a db'.
Proof. intros H. unfold bind. now rewrite H. Qed.

Lemma bind_err {A B} (m : M A) (k : A -> M B) db db' :
  m db = (None, db') -> bind m k db = (None, db').
Proof. intros H. unfold bind. now rewrite H. Qed.

Lemma find_one_run db coll uid :
  users_collection db = Some coll ->
  find_one uid db = (Some (List.find (has_id uid) coll), db).
Proof. intros H. unfold find_one. now rewrite H. Qed.


Lemma update_one_run db coll uid f u u' :
  users_collection db = Some coll ->
  List.find (has_id uid) coll = Some u ->
  f u = Some u' ->
  u_id u' = u_id u ->
  exists coll',
    update_one uid f db
    = (Some tt, mkDB (Some coll') (conversations_collection db))
    /\ List.find (has_id uid) coll' = Some u'.
Proof.
  intros Hc Hfind Hf Hid.
  destruct (update_first_found uid f coll u u' Hfind Hf Hid) as (coll' & Hu & Hf').
  exists coll'. split; [|exact Hf']. unfold update_one. now rewrite Hc, Hu.
Qed.

End CollectionFacts.

(** ** Badge evaluation *)

Section BadgeFacts.

(** The list of earned badges as the evaluation reads it. *)
Definition earned_list (a : field Achievements) : list string :=
  match a with
  | Val a => match badges_earned a with BadgeList l => l | _ => [] end
  | _ => []
  end.

Definition earned_of (uid : string) (db : DB) : list string :=
  match users_collection db with
  | Some coll =>
      match List.find (has_id uid) coll with
      | Some u => earned_list (u_achievements u)
      | None => []
      end
  | None => []
  end.

(** The test a badge passes to be awarded. *)
Definition qualifies (user : User) (a : Achievements) (earned : list string)
    (item : string * Badge) : bool :=
  negb (is_in (fst item) earned)
  && (badge_current user a (b_type (snd item)) >=? b_req (snd item)).

Lemma badge_fold_filter user a earned cat acc :
  fold_left (badge_step user a earned) cat acc
  = acc ++ map fst (List.filter (qualifies user a earned) cat).
Proof.
  revert acc. induction cat as [|[bid b] cat IH]; intros acc; simpl.
  - now rewrite app_nil_r.
  - rewrite IH. unfold qualifies at 2. simpl.
    destruct (is_in bid earned); simpl; [reflexivity|].
    destruct (badge_current user a (b_type b) >=? b_req b); simpl;
      [now rewrite <- app_assoc|reflexivity].
Qed.

Lemma badge_loop_filter user a earned :
  badge_loop user a earned
  = map fst (List.filter (qualifies user a earned) ALL_BADGES).
Proof. unfold badge_loop. now rewrite badge_fold_filter. Qed.

Lemma is_in_In bid l : is_in bid l = true <-> In bid l.
Proof.
  unfold is_in. rewrite existsb_exists. split.
  - intros (x & Hx & Heq). apply String.eqb_eq in Heq. now subst.
  - intros H. exists bid. split; [exact H|apply String.eqb_refl].
Qed.

Lemma is_in_app bid l1 l2 : is_in bid (l1 ++ l2) = is_in bid l1 || is_in bid l2.
Proof. unfold is_in. apply existsb_app. Qed.

(** A badge the loop left out, and not earned before, fails its test. *)
Lemma filter_again user a a' user' earned cat :
  (forall vt, badge_current user' a' vt = badge_current user a vt) ->
  List.filter
    (qualifies user' a'
       (earned ++ map fst (List.filter (qualifies user a earned) cat)))
    cat = [].
Proof.
  intros Hcur.
  set (nb := map fst (List.filter (qualifies user a earned) cat)).
  assert (forall item, In item cat ->
            qualifies user' a' (earned ++ nb) item = false) as Hall.
  { intros item Hin. unfold qualifies. rewrite is_in_app, Hcur.
    destruct (is_in (fst item) earned) eqn:E1; [reflexivity|].
    destruct (is_in (fst item) nb) eqn:E2; [reflexivity|]. simpl.
    destruct (badge_current user a (b_type (snd item)) >=? b_req (snd item))
      eqn:E3; [|reflexivity].
    exfalso. assert (is_in (fst item) nb = true) as Habs; [|congruence].
    apply is_in_In. unfold nb. apply in_map. apply filter_In. split; [exact Hin|].
    unfold qualifies. now rewrite E1, E3. }
  clearbody nb. induction cat as [|x cat IH]; [reflexivity|].
  simpl. rewrite (Hall x (or_introl eq_refl)). apply IH.
  intros item Hin. apply Hall. now right.
Qed.

Lemma badge_loop_again user a user' a' earned :
  (forall vt, badge_current user' a' vt = badge_current user a vt) ->
  badge_loop user' a' (earned ++ badge_loop user a earned) = [].
Proof.
  intros Hcur. rewrite (badge_loop_filter user' a').
  rewrite (badge_loop_filter user a). now rewrite filter_again.
Qed.

Lemma badge_loop_fresh user a earned bid :
  In bid (badge_loop user a earned) -> ~ In bid earned.
Proof.
  rewrite badge_loop_filter. intros Hin Hearned.
  apply in_map_iff in Hin as (item & <- & Hitem).
  apply filter_In in Hitem as [_ Hq]. unfold qualifies in Hq.
  apply is_in_In in Hearned. rewrite Hearned in Hq. discriminate.
Qed.

Lemma init_counters_zero vt :
  default 0 (counters init_user_achievements !! vt) = 0.
Proof.
  unfold init_user_achievements. simpl.
  repeat (rewrite lookup_insert; case_decide; [reflexivity|]).
  now rewrite lookup_empty.
Qed.

End BadgeFacts.

Section BadgeIdempotence.

(** The achievements the evaluation works with: the stored ones, or the
    defaults when they are missing or malformed. *)
Definition base_achievements (a : field Achievements) : Achievements :=
  match a with
  | Val a => a
  | _ => init_user_achievements
  end.

Definition new_badges_of (u : User) : list string :=
  badge_loop u (base_achievements (u_achievements u))
    (earned_list (u_achievements u)).

(** The user document after an evaluation. *)
Definition awarded (u : User) : User :=
  let u1 :=
    match u_achievements u with
    | Malformed => default u (set_achievements init_user_achievements u)
    | _ => u
    end in
  if is_nil (new_badges_of u) then u1
  else
    default u1
      (set_badges_earned (earned_list (u_achievements u) ++ new_badges_of u) u1).

Lemma earned_list_base a :
  match badges_earned (base_achievements a) with
  | BadgeList l => l
  | _ => []
  end = earned_list a.
Proof. destruct a as [| |a]; reflexivity. Qed.

Lemma award_tail coll convs uid u earned nb :
  List.find (has_id uid) coll = Some u ->
  u_achievements u <> Malformed ->
  exists coll',
    (if is_nil nb then ret nb
     else do! update_one uid (set_badges_earned (earned ++ nb)) in ret nb)
      (mkDB (Some coll) convs)
    = (Some nb, mkDB (Some coll') convs)
    /\ List.find (has_id uid) coll'
       = Some (if is_nil nb then u
               else default u (set_badges_earned (earned ++ nb) u))
    /\ (nb = [] -> coll' = coll).
Proof.
  intros Hfind Hwf. destruct nb as [|b nb]; cbn [is_nil].
  - exists coll. repeat split. exact Hfind.
  - assert (exists u', set_badges_earned (earned ++ b :: nb) u = Some u'
                       /\ u_id u' = u_id u) as (u' & Hset & Hid).
    { unfold set_badges_earned, in_achievements.
      destruct (u_achievements u); [| congruence |];
        eexists; split; reflexivity. }
    destruct (update_one_run (mkDB (Some coll) convs) coll uid _ u u'
                eq_refl Hfind Hset Hid) as (coll' & Hrun & Hf').
    exists coll'. rewrite (bind_ok _ _ _ _ _ Hrun), Hset.
    repeat split; [exact Hf'|discriminate].
Qed.

Lemma check_and_award_run coll convs uid u :
  List.find (has_id uid) coll = Some u ->
  exists coll',
    check_and_award_badges uid (mkDB (Some coll) convs)
    = (new_badges_of u, mkDB (Some coll') convs)
    /\ List.find (has_id uid) coll' = Some (awarded u)
    /\ (new_badges_of u = [] -> u_achievements u <> Malformed -> coll' = coll).
Proof.
  intros Hfind. unfold check_and_award_badges. cbn [users_collection].
  unfold try_except.
  rewrite (bind_ok _ _ _ _ _
             (find_one_run (mkDB (Some coll) convs) coll uid eq_refl)).
  rewrite Hfind. unfold awarded, new_badges_of.
  destruct (u_achievements u) as [| |a] eqn:Ha.
  - (* missing: the defaults are used and not stored *)
    rewrite (bind_ok _ _ _ init_user_achievements _ eq_refl).
    cbn [base_achievements earned_list init_user_achievements badges_earned].
    destruct (award_tail coll convs uid u []
                (badge_loop u init_user_achievements []) Hfind)
      as (coll' & Hrun & Hf' & Hsame); [congruence|].
    exists coll'. rewrite Hrun. repeat split; [exact Hf'|]. auto.
  - (* malformed: the defaults are stored first *)
    destruct (update_one_run (mkDB (Some coll) convs) coll uid
                (set_achievements init_user_achievements) u
                (default u (set_achievements init_user_achievements u))
                eq_refl Hfind eq_refl eq_refl) as (coll1 & Hrun1 & Hf1).
    cbn [conversations_collection] in Hrun1.
    rewrite (bind_ok _ _ _ init_user_achievements _
               (bind_ok _ _ _ _ _ Hrun1)).
    cbn [base_achievements earned_list init_user_achievements badges_earned].
    destruct (award_tail coll1 convs uid _ []
                (badge_loop u init_user_achievements []) Hf1)
      as (coll' & Hrun & Hf' & Hsame); [discriminate|].
    exists coll'. rewrite Hrun. repeat split; [exact Hf'|].
    intros _ Hne. now elim Hne.
  - (* a document *)
    rewrite (bind_ok _ _ _ a _ eq_refl).
    cbn [base_achievements earned_list].
    destruct (award_tail coll convs uid u
                match badges_earned a with BadgeList l => l | _ => [] end
                (badge_loop u a
                   match badges_earned a with
                   | BadgeList l => l
                   | _ => []
                   end) Hfind)
      as (coll' & Hrun & Hf' & Hsame); [congruence|].
    exists coll'. rewrite Hrun. repeat split; [exact Hf'|]. auto.
Qed.

Lemma awarded_not_malformed u : u_achievements (awarded u) <> Malformed.
Proof.
  unfold awarded. destruct (is_nil (new_badges_of u));
    destruct (u_achievements u) as [| |a] eqn:Ha; simpl;
    unfold set_badges_earned, in_achievements; simpl; rewrite ?Ha; simpl;
    congruence.
Qed.

Lemma awarded_earned u :
  earned_list (u_achievements (awarded u))
  = earned_list (u_achievements u) ++ new_badges_of u.
Proof.
  unfold awarded. destruct (new_badges_of u) as [|b nb] eqn:Hnb; simpl.
  - rewrite app_nil_r. destruct (u_achievements u) as [| |a] eqn:Ha; simpl;
      rewrite ?Ha; reflexivity.
  - destruct (u_achievements u) as [| |a] eqn:Ha; simpl;
      unfold set_badges_earned, in_achievements; simpl; rewrite ?Ha; reflexivity.
Qed.

Lemma awarded_current u vt :
  badge_current (awarded u) (base_achievements (u_achievements (awarded u))) vt
  = badge_current u (base_achievements (u_achievements u)) vt.
Proof.
  unfold awarded, badge_current.
  destruct (is_nil (new_badges_of u));
    destruct (u_achievements u) as [| |a] eqn:Ha; simpl;
    unfold set_badges_earned, in_achievements; simpl; rewrite ?Ha; simpl;
    try reflexivity;
    destruct (String.eqb vt "level"); try reflexivity;
    destruct (String.eqb vt "total_xp"); try reflexivity;
    now rewrite ?lookup_empty, ?init_counters_zero.
Qed.

Lemma awarded_again u : new_badges_of (awarded u) = [].
Proof.
  unfold new_badges_of at 1. rewrite awarded_earned. unfold new_badges_of.
  apply badge_loop_again. intros vt. apply awarded_current.
Qed.

(** Evaluation touches the achievements only. *)
Lemma awarded_frame u :
  u_id (awarded u) = u_id u
  /\ u_total_xp (awarded u) = u_total_xp u
  /\ u_level (awarded u) = u_level u
  /\ u_daily_challenges (awarded u) = u_daily_challenges u.
Proof.
  unfold awarded. destruct (is_nil (new_badges_of u));
    destruct (u_achievements u) as [| |a] eqn:Ha;
    unfold set_badges_earned, in_achievements;
    cbn [set_achievements default u_achievements]; rewrite ?Ha;
    repeat split; reflexivity.
Qed.

Lemma new_badges_fresh u bid :
  In bid (new_badges_of u) -> ~ In bid (earned_list (u_achievements u)).
Proof. unfold new_badges_of. apply badge_loop_fresh. Qed.

Lemma earned_of_found uid coll convs u :
  List.find (has_id uid) coll = Some u ->
  earned_of uid (mkDB (Some coll) convs) = earned_list (u_achievements u).
Proof. intros H. unfold earned_of. cbn [users_collection]. now rewrite H. Qed.

Lemma earned_of_missing uid coll convs :
  List.find (has_id uid) coll = None ->
  earned_of uid (mkDB (Some coll) convs) = [].
Proof. intros H. unfold earned_of. cbn [users_collection]. now rewrite H. Qed.

(** What one evaluation does, and what the next one finds. *)
Lemma check_and_award_twice db uid nb1 db1 :
  check_and_award_badges uid db = (nb1, db1) ->
  check_and_award_badges uid db1 = ([], db1)
  /\ earned_of uid db1 = earned_of uid db ++ nb1
  /\ (forall bid, In bid nb1 -> ~ In bid (earned_of uid db)).
Proof.
  intros Hrun. destruct db as [[coll|] convs].
  2: { assert (check_and_award_badges uid (mkDB None convs)
               = ([], mkDB None convs)) as Hnone by reflexivity.
       rewrite Hnone in Hrun. injection Hrun as <- <-.
       split; [exact Hnone|]. split; [reflexivity|]. intros bid []. }
  destruct (List.find (has_id uid) coll) as [u|] eqn:Hfind.
  2: { assert (check_and_award_badges uid (mkDB (Some coll) convs)
               = ([], mkDB (Some coll) convs)) as Hnone.
       { unfold check_and_award_badges. cbn [users_collection].
         unfold try_except.
         rewrite (bind_ok _ _ _ _ _
                    (find_one_run (mkDB (Some coll) convs) coll uid eq_refl)).
         now rewrite Hfind. }
       rewrite Hnone in Hrun. injection Hrun as <- <-.
       split; [exact Hnone|]. rewrite (earned_of_missing _ _ _ Hfind).
       split; [reflexivity|]. intros bid []. }
  destruct (check_and_award_run coll convs uid u Hfind)
    as (coll1 & Hrun1 & Hf1 & _).
  destruct (check_and_award_run coll1 convs uid (awarded u) Hf1)
    as (coll2 & Hrun2 & Hf2 & Hsame).
  rewrite awarded_again in Hrun2.
  specialize (Hsame (awarded_again u) (awarded_not_malformed u)). subst coll2.
  rewrite Hrun1 in Hrun. injection Hrun as <- <-.
  split; [exact Hrun2|].
  rewrite (earned_of_found _ _ _ _ Hfind), (earned_of_found _ _ _ _ Hf1).
  split; [apply awarded_earned|].
  intros bid Hin. exact (new_badges_fresh u bid Hin).
Qed.

(** C8. Badge evaluation is idempotent: a second evaluation right after a
    first one awards nothing and leaves the store as it is; the first one
    appends its newly awarded badges to the earned list, none of which was
    in it, so no earned badge is added again and none is lost. *)
Theorem badge_evaluation_idempotent (db : DB) (user_id : string) :
  let first := check_and_award_badges user_id db in
  let second := check_and_award_badges user_id (snd first) in
  fst second = []
  /\ snd second = snd first
  /\ earned_of user_id (snd first) = earned_of user_id db ++ fst first
  /\ (forall bid, In bid (fst first) -> ~ In bid (earned_of user_id db))
  /\ (forall bid, In bid (earned_of user_id db) ->
      In bid (earned_of user_id (snd second))).
Proof.
  cbv zeta.
  destruct (check_and_award_badges user_id db) as [nb1 db1] eqn:Hrun1.
  cbn [fst snd].
  destruct (check_and_award_twice db user_id nb1 db1 Hrun1)
    as (Hrun2 & Hearned & Hfresh).
  rewrite Hrun2. cbn [fst snd].
  split; [reflexivity|]. split; [reflexivity|]. split; [exact Hearned|].
  split; [exact Hfresh|].
  intros bid Hin. rewrite Hearned. apply in_or_app. left. exact Hin.
Qed.

End BadgeIdempotence.

(** ** Weekly challenges *)

Section ChallengeFacts.


Definition count_completed (cs : Challenges) : Z :=
  (if c_completed (challenge1 cs) then 1 else 0)
  + (if c_completed (challenge2 cs) then 1 else 0)
  + (if c_completed (challenge3 cs) then 1 else 0).

(** The counter [completed_today] agrees with the [completed] flags. *)
Definition consistent (cs : Challenges) : Prop :=
  completed_today cs = count_completed cs.

Lemma fresh_consistent wk n : consistent (fresh_challenges wk n).
Proof. reflexivity. Qed.

(** The update of a challenge set keeps the counter and the flags in
    step: the counter moves only with a flag. *)
Lemma advance_consistent cs ctype increment :
  consistent cs -> consistent (fst (advance_challenges cs ctype increment)).
Proof.
  unfold consistent, advance_challenges, count_completed.
  intros H. destruct (type_map ctype) as [[| |]|]; cbn [get_slot];
    destruct cs as [w [t1 g1 k1 d1 x1] [t2 g2 k2 d2 x2] [t3 g3 k3 d3 x3] n s];
    destruct d1, d2, d3; cbn in *;
    repeat match goal with
           | |- context [if ?b then _ else _] => destruct b; cbn in *
           end; lia.
Qed.


Lemma call_run {A} (f : DB -> A * DB) db a db' :
  f db = (a, db') -> call f db = (Some a, db').
Proof. intros H. unfold call. now rewrite H. Qed.

(** The streak the rollover computes from what is stored. *)
Definition rollover_streak (stored : option Challenges) : Z :=
  if default 0 (completed_today <$> stored) =? 3
  then default 0 (streak <$> stored) + 1
  else 0.

Definition stale (stored : option Challenges) (current_week : string) : Prop :=
  match stored with
  | Some cs => week cs <> current_week
  | None => True
  end.

(** The field updates of a progress call, on a document. *)
Lemma set_daily_challenges_run cs v :
  exists v',
    set_daily_challenges cs v = Some v'
    /\ u_id v' = u_id v
    /\ u_daily_challenges v' = Some cs
    /\ u_total_xp v' = u_total_xp v
    /\ u_achievements v' = u_achievements v.
Proof. eexists. repeat split. Qed.

Lemma set_counter_run key n v :
  u_achievements v <> Malformed ->
  exists v',
    set_counter key n v = Some v'
    /\ u_id v' = u_id v
    /\ u_total_xp v' = u_total_xp v
    /\ u_achievements v' <> Malformed.
Proof.
  intros Hwf. unfold set_counter, in_achievements.
  destruct (u_achievements v); [|congruence|]; eexists; repeat split;
    discriminate.
Qed.

Lemma set_xp_level_run new_xp new_level v :
  exists v',
    set_xp_level new_xp new_level v = Some v'
    /\ u_id v' = u_id v
    /\ u_total_xp v' = Some new_xp
    /\ u_level v' = Some new_level
    /\ u_daily_challenges v' = u_daily_challenges v.
Proof. eexists. repeat split. Qed.

(** A fetch in a new week installs the fresh set; a streak of 7 or more
    is first recorded under [achievements], which must then be a
    document. *)
Lemma get_daily_challenges_rollover coll convs uid u wk :
  List.find (has_id uid) coll = Some u ->
  (7 <= rollover_streak (u_daily_challenges u) ->
   u_achievements u <> Malformed) ->
  stale (u_daily_challenges u) wk ->
  let fresh := fresh_challenges wk (rollover_streak (u_daily_challenges u)) in
  exists coll' u',
    get_daily_challenges uid wk (mkDB (Some coll) convs)
    = (Some fresh, mkDB (Some coll') convs)
    /\ List.find (has_id uid) coll' = Some u'
    /\ u_daily_challenges u' = Some fresh
    /\ u_total_xp u' = u_total_xp u.
Proof.
  intros Hfind Hwf Hstale fresh.
  unfold get_daily_challenges. cbn [users_collection]. unfold try_except.
  rewrite (bind_ok _ _ _ _ _
             (find_one_run (mkDB (Some coll) convs) coll uid eq_refl)).
  rewrite Hfind.
  assert (match u_daily_challenges u with
          | Some cs => String.eqb (week cs) wk
          | None => false
          end = false) as ->.
  { destruct (u_daily_challenges u) as [cs|]; [|reflexivity].
    apply String.eqb_neq. exact Hstale. }
  cbn [negb]. fold (rollover_streak (u_daily_challenges u)). fold fresh.
  destruct (Z.geb_spec (rollover_streak (u_daily_challenges u)) 7)
    as [Hseven|_].
  - (* the streak is recorded and the badges re-evaluated first *)
    destruct (set_counter_run "challenge_streak"
                (rollover_streak (u_daily_challenges u)) u (Hwf Hseven))
      as (u1 & Hset & Hid1 & Hxp1 & _).
    destruct (update_one_run (mkDB (Some coll) convs) coll uid _ u u1
                eq_refl Hfind Hset Hid1) as (coll1 & Hrun1 & Hf1).
    cbn [conversations_collection] in Hrun1.
    destruct (check_and_award_run coll1 convs uid u1 Hf1)
      as (coll2 & Hrun2 & Hf2 & _).
    destruct (awarded_frame u1) as (_ & Hxp2 & _).
    destruct (set_daily_challenges_run fresh (awarded u1))
      as (u3 & Hset3 & Hid3 & Hdc3 & Hxp3 & Hach3).
    destruct (update_one_run (mkDB (Some coll2) convs) coll2 uid _
                (awarded u1) u3 eq_refl Hf2 Hset3 Hid3)
      as (coll3 & Hrun3 & Hf3).
    cbn [conversations_collection] in Hrun3.
    exists coll3, u3.
    rewrite (bind_ok _ _ _ tt (mkDB (Some coll2) convs)).
    + rewrite (bind_ok _ _ _ _ _ Hrun3).
      split; [reflexivity|]. split; [exact Hf3|]. split; [exact Hdc3|].
      congruence.
    + rewrite (bind_ok _ _ _ _ _ Hrun1).
      rewrite (bind_ok _ _ _ _ _ (call_run _ _ _ _ Hrun2)). reflexivity.
  - destruct (set_daily_challenges_run fresh u)
      as (u3 & Hset3 & Hid3 & Hdc3 & Hxp3 & Hach3).
    destruct (update_one_run (mkDB (Some coll) convs) coll uid _ u u3
                eq_refl Hfind Hset3 Hid3) as (coll3 & Hrun3 & Hf3).
    cbn [conversations_collection] in Hrun3.
    exists coll3, u3.
    rewrite (bind_ok _ _ _ tt (mkDB (Some coll) convs) eq_refl).
    rewrite (bind_ok _ _ _ _ _ Hrun3).
    split; [reflexivity|]. split; [exact Hf3|]. split; [exact Hdc3|].
    exact Hxp3.
Qed.

(** A fetch within the week returns what is stored and writes nothing. *)
Lemma get_daily_challenges_current coll convs uid u cs wk :
  List.find (has_id uid) coll = Some u ->
  u_daily_challenges u = Some cs ->
  week cs = wk ->
  get_daily_challenges uid wk (mkDB (Some coll) convs)
  = (Some cs, mkDB (Some coll) convs).
Proof.
  intros Hfind Hdc Hweek.
  unfold get_daily_challenges. cbn [users_collection]. unfold try_except.
  rewrite (bind_ok _ _ _ _ _
             (find_one_run (mkDB (Some coll) convs) coll uid eq_refl)).
  rewrite Hfind, Hdc, Hweek, String.eqb_refl. reflexivity.
Qed.

(** The challenge set a fetch returns. *)
Definition current_challenges (stored : option Challenges) (wk : string)
  : Challenges :=
  match stored with
  | Some cs =>
      if String.eqb (week cs) wk then cs
      else fresh_challenges wk (rollover_streak stored)
  | None => fresh_challenges wk (rollover_streak stored)
  end.

Lemma get_daily_challenges_run coll convs uid u wk :
  List.find (has_id uid) coll = Some u ->
  u_achievements u <> Malformed ->
  exists coll' u',
    get_daily_challenges uid wk (mkDB (Some coll) convs)
    = (Some (current_challenges (u_daily_challenges u) wk),
       mkDB (Some coll') convs)
    /\ List.find (has_id uid) coll' = Some u'
    /\ u_daily_challenges u'
       = Some (current_challenges (u_daily_challenges u) wk)
    /\ u_total_xp u' = u_total_xp u.
Proof.
  intros Hfind Hwf. unfold current_challenges.
  destruct (u_daily_challenges u) as [cs|] eqn:Hdc.
  - destruct (String.eqb_spec (week cs) wk) as [Hweek|Hweek].
    + exists coll, u.
      rewrite (get_daily_challenges_current coll convs uid u cs wk Hfind Hdc
                 Hweek).
      repeat split; assumption.
    + destruct (get_daily_challenges_rollover coll convs uid u wk Hfind
                  (fun _ => Hwf))
        as (coll' & u' & H); [now rewrite Hdc|].
      rewrite Hdc in H. exists coll', u'. exact H.
  - destruct (get_daily_challenges_rollover coll convs uid u wk Hfind
                (fun _ => Hwf))
      as (coll' & u' & H); [now rewrite Hdc|].
    rewrite Hdc in H. exists coll', u'. exact H.
Qed.

(** What a progress call returns and stores: the XP accrued by the update
    of the current challenge set, added to [total_xp] when positive. *)
Lemma update_challenge_progress_run coll convs uid u ctype increment wk :
  List.find (has_id uid) coll = Some u ->
  u_achievements u <> Malformed ->
  let cs := current_challenges (u_daily_challenges u) wk in
  let cs' := fst (advance_challenges cs ctype increment) in
  let xp_earned := snd (advance_challenges cs ctype increment) in
  exists coll' u',
    update_challenge_progress uid ctype increment wk (mkDB (Some coll) convs)
    = (xp_earned, mkDB (Some coll') convs)
    /\ List.find (has_id uid) coll' = Some u'
    /\ u_daily_challenges u' = Some cs'
    /\ u_total_xp u'
       = if xp_earned >? 0 then Some (default 0 (u_total_xp u) + xp_earned)
         else u_total_xp u.
Proof.
  intros Hfind Hwf cs cs' xp_earned.
  destruct (get_daily_challenges_run coll convs uid u wk Hfind Hwf)
    as (coll1 & u1 & Hget & Hf1 & _ & Hxp1).
  fold cs in Hget.
  unfold update_challenge_progress. cbn [users_collection]. unfold try_except.
  rewrite (bind_ok _ _ _ _ _ (call_run _ _ _ _ Hget)).
  unfold cs', xp_earned.
  destruct (advance_challenges cs ctype increment) as [cs2 xp] eqn:Hadv.
  cbn [fst snd].
  destruct (set_daily_challenges_run cs2 u1)
    as (u2 & Hset2 & Hid2 & Hdc2 & Hxp2 & _).
  destruct (update_one_run (mkDB (Some coll1) convs) coll1 uid _ u1 u2
              eq_refl Hf1 Hset2 Hid2) as (coll2 & Hrun2 & Hf2).
  cbn [conversations_collection] in Hrun2.
  rewrite (bind_ok _ _ _ _ _ Hrun2).
  destruct (xp >? 0).
  - destruct (set_xp_level_run (default 0 (u_total_xp u2) + xp)
                (calculate_level_from_xp (default 0 (u_total_xp u2) + xp)) u2)
      as (u3 & Hset3 & Hid3 & Hxp3 & _ & Hdc3).
    destruct (update_one_run (mkDB (Some coll2) convs) coll2 uid _ u2 u3
                eq_refl Hf2 Hset3 Hid3) as (coll3 & Hrun3 & Hf3).
    cbn [conversations_collection] in Hrun3.
    destruct (check_and_award_run coll3 convs uid u3 Hf3)
      as (coll4 & Hrun4 & Hf4 & _).
    destruct (awarded_frame u3) as (_ & Hxp4 & _ & Hdc4).
    exists coll4, (awarded u3).
    rewrite (bind_ok _ _ _ tt (mkDB (Some coll4) convs)).
    + split; [reflexivity|]. split; [exact Hf4|]. split; [congruence|].
      congruence.
    + rewrite (bind_ok _ _ _ _ _
                 (find_one_run (mkDB (Some coll2) convs) coll2 uid eq_refl)).
      rewrite Hf2. rewrite (bind_ok _ _ _ _ _ Hrun3).
      rewrite (bind_ok _ _ _ _ _ (call_run _ _ _ _ Hrun4)). reflexivity.
  - exists coll2, u2.
    rewrite (bind_ok _ _ _ tt (mkDB (Some coll2) convs) eq_refl).
    split; [reflexivity|]. split; [exact Hf2|]. split; [exact Hdc2|].
    congruence.
Qed.



End ChallengeFacts.

(** ** Worked examples *)

(** A hash and its check for examples: the plain text behind a scheme
    prefix, whatever the salt. *)
Definition example_hash (salt plain_text : string) : string :=
  ("pbkdf2:" ++ plain_text)%string.

Definition example_check (stored provided : string) : option bool :=
  match stored with
  | String "p" (String "b" (String "k" (String "d" (String "f"
      (String "2" (String ":" rest)))))) => Some (String.eqb rest provided)
  | _ => None
  end.

Definition example_week : string := "2026-W45".
Definition example_now : string := "2026-11-03 10:00:00".

(** The store after the sign-up of student 1234. *)
Definition example_db : DB :=
  snd (create_user example_hash "1234" "asha" "secret" "student" "na"
         example_now (mkDB (Some []) (Some []))).

(** [n] calls of [update_challenge_progress] with increment 1, and what
    they return. *)
Fixpoint progress_calls (n : nat) (user_id challenge_type : string)
    (current_week : string) (db : DB) : list Z * DB :=
  match n with
  | O => ([], db)
  | S n' =>
      let (xp_earned, db1) :=
        update_challenge_progress user_id challenge_type 1 current_week db in
      let (rest, db2) :=
        progress_calls n' user_id challenge_type current_week db1 in
      (xp_earned :: rest, db2)
  end.

(** The store once the student has completed the three challenges of the
    week: 5 practice, 10 learning and 3 mastery steps. *)
Definition example_db_all_done : DB :=
  let db := snd (progress_calls 5 "1234" "practice" example_week example_db) in
  let db := snd (progress_calls 10 "1234" "learning" example_week db) in
  snd (progress_calls 3 "1234" "mastery" example_week db).

Definition total_xp_of (user_id : string) (db : DB) : option Z :=
  match users_collection db with
  | Some coll =>
      match List.find (has_id user_id) coll with
      | Some u => u_total_xp u
      | None => None
      end
  | None => None
  end.

Definition challenges_of (user_id : string) (db : DB) : option Challenges :=
  match users_collection db with
  | Some coll =>
      match List.find (has_id user_id) coll with
      | Some u => u_daily_challenges u
      | None => None
      end
  | None => None
  end.

Section ChallengeProgress.

(** What a call accrues when it completes nothing: nothing, unless the
    counter already stands at 3, in which case it is the bonus of 10. *)
Lemma advance_without_completion cs ctype increment :
  match type_map ctype with
  | Some key => c_completed (get_slot key cs) = true
  | None => True
  end ->
  advance_challenges cs ctype increment
  = (cs, if completed_today cs =? 3 then 10 else 0).
Proof.
  intros H. unfold advance_challenges.
  destruct (type_map ctype) as [key|]; [rewrite H|]; reflexivity.
Qed.

(** A call for a completed slot or an unknown type, within the week:
    it returns 0 and leaves [total_xp] as long as the counter is not 3,
    and returns 10 and adds 10 to [total_xp] once it is. *)
Lemma progress_without_completion coll convs uid u cs ctype increment wk :
  List.find (has_id uid) coll = Some u ->
  u_achievements u <> Malformed ->
  u_daily_challenges u = Some cs ->
  week cs = wk ->
  match type_map ctype with
  | Some key => c_completed (get_slot key cs) = true
  | None => True
  end ->
  exists coll' u',
    update_challenge_progress uid ctype increment wk (mkDB (Some coll) convs)
    = (if completed_today cs =? 3 then 10 else 0, mkDB (Some coll') convs)
    /\ List.find (has_id uid) coll' = Some u'
    /\ u_total_xp u'
       = if completed_today cs =? 3
         then Some (default 0 (u_total_xp u) + 10)
         else u_total_xp u.
Proof.
  intros Hfind Hwf Hdc Hweek Hslot.
  destruct (update_challenge_progress_run coll convs uid u ctype increment wk
              Hfind Hwf) as (coll' & u' & Hrun & Hf' & _ & Hxp).
  assert (current_challenges (u_daily_challenges u) wk = cs) as Hcur.
  { unfold current_challenges. now rewrite Hdc, Hweek, String.eqb_refl. }
  rewrite Hcur in Hrun, Hxp.
  rewrite (advance_without_completion cs ctype increment Hslot) in Hrun, Hxp.
  cbn [fst snd] in Hrun, Hxp. exists coll', u'.
  split; [exact Hrun|]. split; [exact Hf'|].
  rewrite Hxp. now destruct (completed_today cs =? 3).
Qed.

(** C1. The return value of [update_challenge_progress] at a student who
    has completed the three challenges of the week: the call for the
    completed practice slot, and the call with an unknown type, each
    return 10 and raise [total_xp] from 25 to 35. *)
Theorem challenge_bonus_paid_again :
  (c_completed <$> (challenge1 <$> challenges_of "1234" example_db_all_done))
  = Some true
  /\ total_xp_of "1234" example_db_all_done = Some 25
  /\ fst (update_challenge_progress "1234" "practice" 1 example_week
            example_db_all_done) = 10
  /\ total_xp_of "1234"
       (snd (update_challenge_progress "1234" "practice" 1 example_week
               example_db_all_done)) = Some 35
  /\ fst (update_challenge_progress "1234" "juggling" 1 example_week
            example_db_all_done) = 10
  /\ total_xp_of "1234"
       (snd (update_challenge_progress "1234" "juggling" 1 example_week
               example_db_all_done)) = Some 35.
Proof. vm_compute. repeat split. Qed.

(** The calls that lead there return 5 for each completed challenge and
    the bonus with the last one. *)
Example challenge_week_run :
  fst (progress_calls 5 "1234" "practice" example_week example_db)
  = [0; 0; 0; 0; 5]
  /\ fst (progress_calls 3 "1234" "mastery" example_week
            (snd (progress_calls 10 "1234" "learning" example_week
                    (snd (progress_calls 5 "1234" "practice" example_week
                            example_db)))))
     = [0; 0; 15].
Proof. vm_compute. split; reflexivity. Qed.

End ChallengeProgress.

(** A student whose stored challenge set is the completed one of the week
    before, with a streak of 2. *)
Definition example_last_week : Challenges :=
  mkChallenges "2026-W44"
    (mkChallenge "practice" 5 5 true 5)
    (mkChallenge "learning" 10 10 true 5)
    (mkChallenge "mastery" 3 3 true 5)
    3 2.

Definition example_student : User :=
  mkUser "1234" (Some "asha") (Some "Asha") (Some "pbkdf2:secret")
    (Some "student") (Some "5") (Some "A") (Some 40) (Some 40) (Some 2)
    (Some example_now) (Val init_user_achievements) Absent
    (Some example_last_week) None None.




(** ** Weekly leaderboard *)

Section LeaderboardFacts.






























End LeaderboardFacts.

(** Students A, B and C of class 5, a student of class 6 and a teacher. *)
Definition example_member (uid cls user_type : string) (weekly total : Z)
  : User :=
  mkUser uid (Some uid) None None (Some user_type) (Some cls) (Some "A")
    (Some total) (Some total) (Some (calculate_level_from_xp total)) None
    (Val init_user_achievements) (Val {[ example_week := weekly ]}) None
    None None.






(** ** Lines of a text *)

Section LineFacts.

(** Number of newline characters. *)
Fixpoint count_nl (s : string) : nat :=
  match s with
  | EmptyString => O
  | String c s' => if Ascii.eqb c newline then S (count_nl s') else count_nl s'
  end.

Lemma split_lines_length s : length (split_lines s) = S (count_nl s).
Proof.
  induction s as [|c s IH]; simpl; [reflexivity|].
  destruct (Ascii.eqb c newline); simpl; [now rewrite IH|].
  destruct (split_lines s); simpl in *; [discriminate|exact IH].
Qed.

Lemma split_lines_pieces s : Forall (fun p => count_nl p = O) (split_lines s).
Proof.
  induction s as [|c s IH]; simpl; [repeat constructor|].
  destruct (Ascii.eqb c newline) eqn:E; [now constructor|].
  destruct (split_lines s) as [|p ps]; [repeat constructor; simpl; now rewrite E|].
  inversion IH; subst. constructor; [simpl; now rewrite E|assumption].
Qed.

Lemma split_lines_app_nl x rest :
  count_nl x = O ->
  split_lines (x ++ String newline rest) = x :: split_lines rest.
Proof.
  induction x as [|c x IH]; simpl; intros Hx.
  - reflexivity.
  - destruct (Ascii.eqb c newline); [discriminate|]. now rewrite IH.
Qed.

Lemma split_lines_single x : count_nl x = O -> split_lines x = [x].
Proof.
  induction x as [|c x IH]; simpl; intros Hx; [reflexivity|].
  destruct (Ascii.eqb c newline); [discriminate|]. now rewrite IH.
Qed.

(** Splitting undoes joining, for pieces without newline. *)
Lemma split_join_lines pieces :
  pieces <> [] ->
  Forall (fun p => count_nl p = O) pieces ->
  split_lines (join_lines pieces) = pieces.
Proof.
  intros Hne Hall. induction Hall as [|p ps Hp Hps IH]; [congruence|].
  unfold join_lines in *. simpl. destruct ps as [|q qs].
  - now apply split_lines_single.
  - change (String newline "" +:+ String.concat (String newline "") (q :: qs))
      with (String newline (String.concat (String newline "") (q :: qs))).
    rewrite split_lines_app_nl by exact Hp.
    f_equal. apply IH. discriminate.
Qed.

Lemma count_nl_lstrip s : (count_nl (lstrip s) <= count_nl s)%nat.
Proof.
  induction s as [|c s IH]; simpl; [lia|].
  destruct (is_space c); simpl; destruct (Ascii.eqb c newline); lia.
Qed.

Lemma count_nl_rstrip s : (count_nl (rstrip s) <= count_nl s)%nat.
Proof.
  induction s as [|c s IH]; simpl; [lia|].
  destruct (rstrip s) as [|d r]; simpl in *.
  - destruct (is_space c); simpl; destruct (Ascii.eqb c newline); lia.
  - destruct (Ascii.eqb c newline); lia.
Qed.

Lemma count_nl_strip s : (count_nl (strip s) <= count_nl s)%nat.
Proof.
  unfold strip. pose proof (count_nl_rstrip (lstrip s)).
  pose proof (count_nl_lstrip s). lia.
Qed.

(** The lines the code counts are never more than the pieces of the text. *)
Lemma conversation_msgs_length s :
  (length (conversation_msgs s) <= length (split_lines s))%nat.
Proof.
  unfold conversation_msgs. destruct (nonempty s); simpl; [|lia].
  rewrite !split_lines_length. pose proof (count_nl_strip s). lia.
Qed.

Lemma conversation_msgs_pieces s :
  Forall (fun p => count_nl p = O) (conversation_msgs s).
Proof.
  unfold conversation_msgs. destruct (nonempty s); [|constructor].
  apply split_lines_pieces.
Qed.

Lemma last_n_length {A} n (l : list A) :
  (n <= length l)%nat -> length (last_n n l) = n.
Proof. intros H. unfold last_n. rewrite length_skipn. lia. Qed.

Lemma last_n_Forall {A} (P : A -> Prop) n (l : list A) :
  Forall P l -> Forall P (last_n n l).
Proof.
  unfold last_n. generalize (length l - n)%nat as k. intros k H. revert k.
  induction H as [|x l Hx Hl IH]; intros [|k]; simpl; auto.
Qed.

End LineFacts.

(** ** Conversation transcripts *)

Section ConversationFacts.

(** The transcript a lookup finds in a collection. *)
Definition stored_text (uid mode : string) (coll : list ConvDoc) : string :=
  match List.find (has_user_id uid) coll with
  | Some doc =>
      match cd_conversations doc with
      | Some conversations => default EmptyString (conversations !! mode)
      | None => EmptyString
      end
  | None => EmptyString
  end.

Lemma get_conversation_run users coll uid mode :
  get_conversation uid mode (mkDB users (Some coll))
  = (stored_text uid mode coll, mkDB users (Some coll)).
Proof.
  unfold get_conversation, stored_text. cbn [conversations_collection].
  destruct (List.find (has_user_id uid) coll) as [doc|]; [|reflexivity].
  destruct (cd_conversations doc); reflexivity.
Qed.

Lemma save_conversation_run users coll uid mode text now :
  save_conversation uid mode text now (mkDB users (Some coll))
  = (true, mkDB users (Some (upsert_mode uid mode (trimmed mode text) now coll))).
Proof. reflexivity. Qed.

(** A lookup after an upsert: the text written for the mode written, what
    was there for any other mode. *)
Lemma stored_text_upsert uid mode text now coll mode' :
  stored_text uid mode' (upsert_mode uid mode text now coll)
  = if String.eqb mode mode' then text else stored_text uid mode' coll.
Proof.
  unfold stored_text. induction coll as [|d rest IH]; simpl.
  - unfold has_user_id. simpl. rewrite String.eqb_refl. simpl.
    destruct (String.eqb_spec mode mode') as [->|Hne].
    + now rewrite lookup_singleton_eq.
    + now rewrite lookup_singleton_ne.
  - destruct (has_user_id uid d) eqn:Hd; simpl.
    + unfold has_user_id in *. simpl. rewrite Hd. simpl.
      destruct (String.eqb_spec mode mode') as [->|Hne].
      * now rewrite lookup_insert_eq.
      * rewrite lookup_insert_ne by exact Hne.
        destruct (cd_conversations d); [reflexivity|].
        unfold default at 2. now rewrite lookup_empty.
    + rewrite Hd. exact IH.
Qed.

Lemma trim_limit_pos mode : (0 < trim_limit mode)%nat.
Proof. unfold trim_limit. destruct (String.eqb mode "conversation"); lia. Qed.

(** The text that is stored, measured in the lines the code counts. *)
Lemma trimmed_lines mode text :
  let limit := trim_limit mode in
  let msgs := conversation_msgs text in
  (length (conversation_msgs (trimmed mode text)) <= limit)%nat
  /\ ((limit < length msgs)%nat ->
      trimmed mode text = join_lines (last_n limit msgs)
      /\ split_lines (trimmed mode text) = last_n limit msgs
      /\ length (split_lines (trimmed mode text)) = limit)
  /\ ((length msgs <= limit)%nat -> trimmed mode text = text).
Proof.
  intros limit msgs. unfold trimmed. fold limit. fold msgs.
  pose proof (trim_limit_pos mode) as Hpos. fold limit in Hpos.
  destruct (Nat.ltb_spec limit (length msgs)) as [Hlt|Hge].
  - assert (split_lines (join_lines (last_n limit msgs)) = last_n limit msgs)
      as Hsplit.
    { apply split_join_lines.
      - intros Hnil. apply (f_equal (@length string)) in Hnil.
        rewrite last_n_length in Hnil by lia. simpl in Hnil. lia.
      - apply last_n_Forall. apply conversation_msgs_pieces. }
    assert (length (split_lines (join_lines (last_n limit msgs))) = limit)
      as Hlen.
    { rewrite Hsplit. apply last_n_length. lia. }
    split; [|split].
    + pose proof (conversation_msgs_length (join_lines (last_n limit msgs))).
      lia.
    + intros _. repeat split; assumption.
    + intros Hle. lia.
  - split; [exact Hge|]. split; [lia|reflexivity].
Qed.

End ConversationFacts.

(** C5, as amended. After a save of the context of a (user, mode), the
    stored transcript has at most 100 lines for the mode [conversation]
    and at most 50 for any other mode, the lines being counted as
    [save_conversation] counts them (on the text without its surrounding
    white space); when the text passed has more than the limit of such
    lines, what is stored is the last limit-many of them joined by
    newlines, the older ones being dropped from the front; a text within
    the limit is stored as it was passed. *)
Theorem transcript_trimmed users coll uid mode text now :
  plain_key mode = true ->
  let db := mkDB users (Some coll) in
  let stored :=
    fst (get_conversation uid mode
           (snd (save_conversation uid mode text now db))) in
  let limit := trim_limit mode in
  let msgs := conversation_msgs text in
  (mode = "conversation"%string -> limit = 100%nat)
  /\ (mode <> "conversation"%string -> limit = 50%nat)
  /\ (length (conversation_msgs stored) <= limit)%nat
  /\ ((limit < length msgs)%nat ->
      stored = join_lines (last_n limit msgs)
      /\ split_lines stored = last_n limit msgs
      /\ length (split_lines stored) = limit)
  /\ ((length msgs <= limit)%nat -> stored = text).
Proof.
  intros _ db stored limit msgs.
  assert (stored = trimmed mode text) as ->.
  { unfold stored, db. rewrite save_conversation_run. cbn [snd].
    rewrite get_conversation_run. cbn [fst].
    rewrite stored_text_upsert. now rewrite String.eqb_refl. }
  split; [|split].
  - intros ->. reflexivity.
  - intros Hne. unfold limit, trim_limit.
    apply String.eqb_neq in Hne. now rewrite Hne.
  - apply trimmed_lines.
Qed.

(** A context of [n] exchanges as [english_coach] builds it from the empty
    context. *)
Fixpoint example_turns (n : nat) : string :=
  match n with
  | O => EmptyString
  | S n' =>
      (example_turns n' ++ String newline "Child: I like mango"
         ++ String newline "Assistant: CORRECT: I like mangoes.")%string
  end.

Lemma transcript_trimmed_witness :
  let stored :=
    fst (get_conversation "1234" "roleplay_teacher"
           (snd (save_conversation "1234" "roleplay_teacher"
                   (example_turns 30) example_now (mkDB None (Some []))))) in
  (length (conversation_msgs stored) <= 50)%nat
  /\ length (split_lines stored) = 50%nat.
Proof.
  destruct (transcript_trimmed None [] "1234" "roleplay_teacher"
              (example_turns 30) example_now eq_refl)
    as (_ & _ & Hbound & Htrim & _).
  split; [exact Hbound|].
  apply Htrim. apply Nat.ltb_lt. vm_compute. reflexivity.
Defined.

(** C5 as stated fails on the plain line count of the stored text: the
    context of 50 exchanges starts with a newline, has 100 lines once
    stripped, is stored as it is, and splits into 101 lines. *)
Lemma transcript_raw_lines_counterexample :
  let stored :=
    fst (get_conversation "1234" "conversation"
           (snd (save_conversation "1234" "conversation"
                   (example_turns 50) example_now (mkDB None (Some []))))) in
  stored = example_turns 50
  /\ length (conversation_msgs (example_turns 50)) = 100%nat
  /\ ~ (length (split_lines stored) <= 100)%nat.
Proof.
  cbv zeta. split; [vm_compute; reflexivity|]. split; [vm_compute; reflexivity|].
  intros H. vm_compute in H. lia.
Qed.

(** The application with an empty store and no cached context. *)
Definition example_app : App := mkApp (mkDB (Some []) (Some [])) ∅.

Fixpoint coach_turns (n : nat) (app : App) : App :=
  match n with
  | O => app
  | S n' =>
      english_coach_turn "I like mango" "CORRECT: I like mangoes." "1234"
        example_now (coach_turns n' app)
  end.

(** Fifty conversation turns of the application leave that text in the
    store; the next turn trims it to 100 lines. *)
Example fifty_turns_stored :
  fst (get_conversation "1234" "conversation"
         (app_db (coach_turns 50 example_app))) = example_turns 50
  /\ length (split_lines
               (fst (get_conversation "1234" "conversation"
                       (app_db (coach_turns 51 example_app))))) = 100%nat.
Proof. vm_compute. split; reflexivity. Qed.

(** ** Isolation of the contexts *)

Section IsolationFacts.

(** The text the in-process dictionary holds for a user and a mode. *)
Definition cached_text (uid mode : string)
    (contexts : gmap string (gmap string string)) : string :=
  default EmptyString (default ∅ (contexts !! uid) !! mode).

(** The key [roleplay_coach] stores its context under. *)
Definition roleplay_key (roleplay_type : string) : string :=
  if nonempty roleplay_type then ("roleplay_" ++ roleplay_type)%string
  else "roleplay"%string.

Lemma get_conversation_db uid mode db : snd (get_conversation uid mode db) = db.
Proof.
  unfold get_conversation. destruct (conversations_collection db); [|reflexivity].
  destruct (List.find (has_user_id uid) l) as [doc|]; [|reflexivity].
  destruct (cd_conversations doc); reflexivity.
Qed.

(** Saving under one mode leaves what is stored under another. *)
Lemma save_conversation_other db uid mode mode' text now :
  mode' <> mode ->
  fst (get_conversation uid mode' (snd (save_conversation uid mode text now db)))
  = fst (get_conversation uid mode' db).
Proof.
  intros Hne. destruct db as [users [coll|]]; [|reflexivity].
  rewrite save_conversation_run. cbn [snd].
  rewrite !get_conversation_run. cbn [fst].
  rewrite stored_text_upsert.
  destruct (String.eqb_spec mode mode') as [->|_]; [congruence|reflexivity].
Qed.

Lemma default_contexts_text mode :
  default EmptyString
    (({[ "conversation"%string := EmptyString;
         "roleplay"%string := EmptyString ]} : gmap string string) !! mode)
  = EmptyString.
Proof.
  rewrite lookup_insert. case_decide; [reflexivity|].
  rewrite lookup_singleton. case_decide; reflexivity.
Qed.

(** A read returns the stored text, or the cached one when nothing is
    stored; it changes nothing a later read can see. *)
Lemma get_user_context_value uid mode app :
  fst (get_user_context uid mode app)
  = let context := fst (get_conversation uid mode (app_db app)) in
    if nonempty context then context
    else cached_text uid mode (conversation_contexts app).
Proof.
  unfold get_user_context, cached_text. cbv zeta.
  destruct (get_conversation uid mode (app_db app)) as [context db].
  cbn [fst]. destruct (nonempty context); [reflexivity|]. cbn [fst].
  destruct (conversation_contexts app !! uid) as [m|] eqn:Hm.
  - now rewrite Hm.
  - rewrite lookup_insert_eq. unfold default at 2 4.
    rewrite default_contexts_text. now rewrite lookup_empty.
Qed.

Lemma get_user_context_db uid mode app :
  app_db (snd (get_user_context uid mode app)) = app_db app.
Proof.
  unfold get_user_context.
  pose proof (get_conversation_db uid mode (app_db app)) as Hdb.
  destruct (get_conversation uid mode (app_db app)) as [context db].
  cbn [snd] in Hdb. subst db. destruct (nonempty context); reflexivity.
Qed.

Lemma get_user_context_cache uid mode app mode' :
  cached_text uid mode' (conversation_contexts (snd (get_user_context uid mode app)))
  = cached_text uid mode' (conversation_contexts app).
Proof.
  unfold get_user_context, cached_text.
  destruct (get_conversation uid mode (app_db app)) as [context db].
  destruct (nonempty context); [reflexivity|]. cbn [snd conversation_contexts].
  destruct (conversation_contexts app !! uid) as [m|] eqn:Hm;
    [now rewrite ?Hm|].
  rewrite lookup_insert_eq. unfold default at 2 4.
  rewrite default_contexts_text. now rewrite lookup_empty.
Qed.

Lemma update_user_context_db uid mode context now app :
  app_db (update_user_context uid mode context now app)
  = snd (save_conversation uid mode context now (app_db app)).
Proof.
  unfold update_user_context.
  destruct (save_conversation uid mode context now (app_db app)). reflexivity.
Qed.

Lemma update_user_context_cache uid mode context now app mode' :
  mode' <> mode ->
  cached_text uid mode'
    (conversation_contexts (update_user_context uid mode context now app))
  = cached_text uid mode' (conversation_contexts app).
Proof.
  intros Hne. unfold update_user_context, cached_text.
  destruct (save_conversation uid mode context now (app_db app)) as [ok db].
  cbn [conversation_contexts]. rewrite lookup_insert_eq.
  match goal with
  | |- context [default ∅ (Some ?x)] => change (default ∅ (Some x)) with x
  end.
  rewrite lookup_insert_ne by congruence.
  destruct (conversation_contexts app !! uid) as [m|] eqn:Hm.
  - now rewrite Hm.
  - now rewrite lookup_insert_eq.
Qed.

(** What a read of [mode'] returns depends on the store and the cache at
    [mode'] only. *)
Lemma context_read_frame uid mode' app1 app2 :
  fst (get_conversation uid mode' (app_db app1))
  = fst (get_conversation uid mode' (app_db app2)) ->
  cached_text uid mode' (conversation_contexts app1)
  = cached_text uid mode' (conversation_contexts app2) ->
  fst (get_user_context uid mode' app1) = fst (get_user_context uid mode' app2).
Proof.
  intros Hs Hc. rewrite !get_user_context_value. cbv zeta. now rewrite Hs, Hc.
Qed.

Lemma update_user_context_other uid mode mode' context now app :
  mode' <> mode ->
  fst (get_conversation uid mode'
         (app_db (update_user_context uid mode context now app)))
  = fst (get_conversation uid mode' (app_db app))
  /\ fst (get_user_context uid mode' (update_user_context uid mode context now app))
     = fst (get_user_context uid mode' app).
Proof.
  intros Hne.
  assert (fst (get_conversation uid mode'
                 (app_db (update_user_context uid mode context now app)))
          = fst (get_conversation uid mode' (app_db app))) as Hs.
  { rewrite update_user_context_db. now apply save_conversation_other. }
  split; [exact Hs|].
  apply context_read_frame; [exact Hs|].
  now apply update_user_context_cache.
Qed.

(** A turn of a coach under [mode] leaves the context of another mode. *)
Lemma coach_turn_other uid mode mode' text now app :
  mode' <> mode ->
  let app1 := snd (get_user_context uid mode app) in
  let app2 := update_user_context uid mode text now app1 in
  fst (get_conversation uid mode' (app_db app2))
  = fst (get_conversation uid mode' (app_db app))
  /\ fst (get_user_context uid mode' app2) = fst (get_user_context uid mode' app).
Proof.
  intros Hne app1 app2.
  destruct (update_user_context_other uid mode mode' text now app1 Hne)
    as [Hs Hc].
  fold app2 in Hs, Hc. split.
  - rewrite Hs. unfold app1. now rewrite get_user_context_db.
  - rewrite Hc. apply context_read_frame.
    + unfold app1. now rewrite get_user_context_db.
    + apply get_user_context_cache.
Qed.

End IsolationFacts.

(** C6. Saving, or appending a turn to, the context of one mode of a user
    leaves the transcript of every other mode of that user as it was, in
    the store and as the application reads it: for [save_conversation],
    for [update_user_context], and for a turn of the roleplay coach and of
    the conversation coach. *)
Theorem context_isolation (db : DB) (app : App)
    (uid mode mode' text now child_text reply roleplay_type : string) :
  plain_key mode = true ->
  mode' <> mode ->
  fst (get_conversation uid mode' (snd (save_conversation uid mode text now db)))
  = fst (get_conversation uid mode' db)
  /\ fst (get_user_context uid mode'
            (update_user_context uid mode text now app))
     = fst (get_user_context uid mode' app)
  /\ (roleplay_key roleplay_type = mode ->
      let app' := roleplay_coach_turn child_text roleplay_type reply uid now app in
      fst (get_conversation uid mode' (app_db app'))
      = fst (get_conversation uid mode' (app_db app))
      /\ fst (get_user_context uid mode' app')
         = fst (get_user_context uid mode' app))
  /\ (mode = "conversation"%string ->
      let app' := english_coach_turn child_text reply uid now app in
      fst (get_conversation uid mode' (app_db app'))
      = fst (get_conversation uid mode' (app_db app))
      /\ fst (get_user_context uid mode' app')
         = fst (get_user_context uid mode' app)).
Proof.
  intros _ Hne. split; [|split; [|split]].
  - now apply save_conversation_other.
  - now apply update_user_context_other.
  - intros Hkey app'. unfold app', roleplay_coach_turn.
    fold (roleplay_key roleplay_type). rewrite Hkey.
    pose proof (coach_turn_other uid mode mode') as Hturn. cbv zeta in Hturn.
    destruct (get_user_context uid mode app) as [context app1] eqn:Hg.
    specialize (Hturn (context ++ String newline "Student: " ++ child_text
                         ++ String newline "Assistant: " ++ reply)%string
                  now app Hne).
    rewrite Hg in Hturn. exact Hturn.
  - intros -> app'. unfold app', english_coach_turn.
    pose proof (coach_turn_other uid "conversation" mode') as Hturn.
    cbv zeta in Hturn.
    destruct (get_user_context uid "conversation" app) as [context app1] eqn:Hg.
    specialize (Hturn (context ++ String newline "Child: " ++ child_text
                         ++ String newline "Assistant: " ++ reply)%string
                  now app Hne).
    rewrite Hg in Hturn. exact Hturn.
Qed.

Lemma context_isolation_witness :
  let app :=
    roleplay_coach_turn "Hi" "friend" "Hello!" "1234" example_now
      (coach_turns 2 example_app) in
  let app' :=
    roleplay_coach_turn "Good morning" "teacher" "Good morning!" "1234"
      example_now app in
  fst (get_conversation "1234" "roleplay_friend" (app_db app'))
  = fst (get_conversation "1234" "roleplay_friend" (app_db app))
  /\ fst (get_user_context "1234" "roleplay_friend" app')
     = fst (get_user_context "1234" "roleplay_friend" app).
Proof.
  intros app app'.
  destruct (context_isolation (app_db app) app "1234" "roleplay_teacher"
              "roleplay_friend" "" example_now "Good morning"
              "Good morning!" "teacher" eq_refl)
    as (_ & _ & Hturn & _).
  - discriminate.
  - exact (Hturn eq_refl).
Defined.

(** ** Normalisation of answers *)

Section NormalisationFacts.

(** A string of white space only. *)
Fixpoint all_space (s : string) : bool :=
  match s with
  | EmptyString => true
  | String c s' => is_space c && all_space s'
  end.

Lemma is_space_lower_char c : is_space (lower_char c) = is_space c.
Proof. destruct c as [[] [] [] [] [] [] [] []]; reflexivity. Qed.

Lemma lower_upper_char c : lower_char (upper_char c) = lower_char c.
Proof. destruct c as [[] [] [] [] [] [] [] []]; reflexivity. Qed.

Lemma lower_lower_char c : lower_char (lower_char c) = lower_char c.
Proof. destruct c as [[] [] [] [] [] [] [] []]; reflexivity. Qed.

Lemma lower_upper s : lower (upper s) = lower s.
Proof.
  induction s as [|c s IH]; simpl; [reflexivity|].
  now rewrite lower_upper_char, IH.
Qed.

Lemma lower_lower s : lower (lower s) = lower s.
Proof.
  induction s as [|c s IH]; simpl; [reflexivity|].
  now rewrite lower_lower_char, IH.
Qed.

Lemma lower_app s t : lower (s ++ t) = (lower s ++ lower t)%string.
Proof. induction s as [|c s IH]; simpl; [reflexivity|]. now rewrite IH. Qed.

Lemma lower_lstrip s : lower (lstrip s) = lstrip (lower s).
Proof.
  induction s as [|c s IH]; simpl; [reflexivity|].
  rewrite is_space_lower_char. destruct (is_space c); [exact IH|reflexivity].
Qed.

Lemma lower_rstrip s : lower (rstrip s) = rstrip (lower s).
Proof.
  induction s as [|c s IH]; simpl; [reflexivity|].
  rewrite <- IH, is_space_lower_char.
  destruct (rstrip s) as [|d r]; simpl; [|reflexivity].
  destruct (is_space c); reflexivity.
Qed.

(** Stripping and lower-casing commute. *)
Lemma lower_strip s : lower (strip s) = strip (lower s).
Proof. unfold strip. now rewrite lower_rstrip, lower_lstrip. Qed.

Lemma lstrip_all_space s : all_space s = true -> lstrip s = EmptyString.
Proof.
  induction s as [|c s IH]; simpl; [reflexivity|].
  intros H. apply andb_true_iff in H as [Hc Hs]. rewrite Hc. now apply IH.
Qed.

Lemma rstrip_all_space s : all_space s = true -> rstrip s = EmptyString.
Proof.
  induction s as [|c s IH]; simpl; [reflexivity|].
  intros H. apply andb_true_iff in H as [Hc Hs]. now rewrite (IH Hs), Hc.
Qed.

Lemma lstrip_pad l s : all_space l = true -> lstrip (l ++ s) = lstrip s.
Proof.
  induction l as [|c l IH]; simpl; [reflexivity|].
  intros H. apply andb_true_iff in H as [Hc Hl]. rewrite Hc. now apply IH.
Qed.

Lemma rstrip_pad s r : all_space r = true -> rstrip (s ++ r) = rstrip s.
Proof.
  intros Hr. induction s as [|c s IH]; simpl.
  - now apply rstrip_all_space.
  - now rewrite IH.
Qed.

Lemma strip_pad_right s r : all_space r = true -> strip (s ++ r) = strip s.
Proof.
  intros Hr. unfold strip. induction s as [|c s IH].
  - change (rstrip (lstrip r) = EmptyString).
    now rewrite (lstrip_all_space r Hr).
  - change (rstrip (if is_space c then lstrip (s ++ r) else String c s ++ r)
            = rstrip (if is_space c then lstrip s else String c s))%string.
    destruct (is_space c); [exact IH|]. now apply rstrip_pad.
Qed.

(** White space around a text does not survive [strip]. *)
Lemma strip_pad l s r :
  all_space l = true -> all_space r = true ->
  strip (l ++ s ++ r) = strip s.
Proof.
  intros Hl Hr. unfold strip. rewrite (lstrip_pad l _ Hl).
  now apply strip_pad_right.
Qed.

(** Two answers that differ in surrounding white space and in letter
    case have the same normal form. *)
Lemma normal_form_pad_case l r a b :
  all_space l = true -> all_space r = true ->
  lower a = lower b ->
  lower (strip (l ++ b ++ r)) = lower (strip a).
Proof.
  intros Hl Hr Hab. rewrite (strip_pad l b r Hl Hr).
  now rewrite !lower_strip, Hab.
Qed.

End NormalisationFacts.

(** ** Security question *)

Section SecurityFacts.

Variable generate_password_hash : string -> string -> string.
Variable check_password_hash : string -> string -> option bool.

(** What the credential verifier guarantees: a hash checks against the
    text it was made from, and is never the empty string. *)
Hypothesis check_generated :
  forall salt plain_text,
    check_password_hash (generate_password_hash salt plain_text) plain_text
    = Some true.
Hypothesis hash_nonempty :
  forall salt plain_text,
    nonempty (generate_password_hash salt plain_text) = true.

Lemma set_security_question_run coll convs uid u q a salt :
  List.find (has_id uid) coll = Some u ->
  exists coll' u',
    set_security_question generate_password_hash uid q a salt
      (mkDB (Some coll) convs)
    = (true, mkDB (Some coll') convs)
    /\ List.find (has_id uid) coll' = Some u'
    /\ u_security_question u' = Some q
    /\ u_security_answer u'
       = Some (generate_password_hash salt (lower (strip a))).
Proof.
  intros Hfind. unfold set_security_question. cbn [users_collection].
  unfold try_except.
  destruct (update_one_run (mkDB (Some coll) convs) coll uid
              (set_security q
                 (hash_password generate_password_hash salt (lower (strip a))))
              u _ eq_refl Hfind eq_refl eq_refl) as (coll' & Hrun & Hf').
  cbn [conversations_collection] in Hrun.
  rewrite (bind_ok _ _ _ _ _ Hrun).
  eexists coll', _. split; [reflexivity|]. split; [exact Hf'|].
  split; reflexivity.
Qed.

Lemma verify_security_answer_run coll convs uid u q b :
  List.find (has_id uid) coll = Some u ->
  fst (verify_security_answer check_password_hash uid q b
         (mkDB (Some coll) convs))
  = if negb (bool_decide (u_security_question u = Some q)) then false
    else match u_security_answer u with
         | None => false
         | Some stored_answer =>
             if negb (nonempty stored_answer) then false
             else check_pw check_password_hash stored_answer (lower (strip b))
         end.
Proof.
  intros Hfind. unfold verify_security_answer. cbn [users_collection].
  unfold try_except.
  rewrite (bind_ok _ _ _ _ _
             (find_one_run (mkDB (Some coll) convs) coll uid eq_refl)).
  rewrite Hfind.
  destruct (negb (bool_decide (u_security_question u = Some q)));
    [reflexivity|].
  destruct (u_security_answer u) as [stored|]; [|reflexivity].
  destruct (negb (nonempty stored)); reflexivity.
Qed.

(** C10. After [set_security_question] for an existing user,
    [verify_security_answer] with the same question accepts every answer
    whose stripped, lower-cased form is that of the original, so every
    answer that differs from it in surrounding white space and letter case
    only; and whatever the answer, it returns [False] when the question
    supplied is not the stored one or no answer is stored. *)
Theorem security_answer_normalised coll convs uid u q a salt :
  List.find (has_id uid) coll = Some u ->
  let db1 :=
    snd (set_security_question generate_password_hash uid q a salt
           (mkDB (Some coll) convs)) in
  (forall b,
     lower (strip b) = lower (strip a) ->
     fst (verify_security_answer check_password_hash uid q b db1) = true)
  /\ (forall l r b,
        all_space l = true -> all_space r = true -> lower b = lower a ->
        fst (verify_security_answer check_password_hash uid q
               (l ++ b ++ r)%string db1) = true)
  /\ (forall q' b,
        u_security_question u <> Some q' \/ u_security_answer u = None ->
        fst (verify_security_answer check_password_hash uid q' b
               (mkDB (Some coll) convs)) = false).
Proof.
  intros Hfind db1.
  destruct (set_security_question_run coll convs uid u q a salt Hfind)
    as (coll' & u' & Hrun & Hf' & Hq & Ha).
  assert (forall b,
            lower (strip b) = lower (strip a) ->
            fst (verify_security_answer check_password_hash uid q b db1) = true)
    as Haccept.
  { intros b Hb. unfold db1. rewrite Hrun. cbn [snd].
    rewrite (verify_security_answer_run coll' convs uid u' q b Hf').
    rewrite Hq, Ha, bool_decide_eq_true_2 by reflexivity. cbn [negb].
    rewrite hash_nonempty. cbn [negb]. unfold check_pw.
    now rewrite Hb, check_generated. }
  split; [exact Haccept|]. split.
  - intros l r b Hl Hr Hb. apply Haccept.
    now apply normal_form_pad_case.
  - intros q' b Hno.
    rewrite (verify_security_answer_run coll convs uid u q' b Hfind).
    destruct Hno as [Hq'|Hnone].
    + now rewrite bool_decide_eq_false_2 by exact Hq'.
    + rewrite Hnone. now destruct (negb _).
Qed.

End SecurityFacts.

Lemma security_answer_normalised_witness :
  let db1 :=
    snd (set_security_question example_hash "1234"
           "What is your favourite colour?" "  Sky Blue " "na"
           (mkDB (Some [example_student]) None)) in
  fst (verify_security_answer example_check "1234"
         "What is your favourite colour?" "sky blue" db1) = true
  /\ fst (verify_security_answer example_check "1234"
            "What is your favourite food?" "sky blue" db1) = false.
Proof.
  intros db1.
  assert (forall salt p, example_check (example_hash salt p) p = Some true)
    as Hcheck by (intros salt p; simpl; now rewrite String.eqb_refl).
  assert (forall salt p, nonempty (example_hash salt p) = true)
    as Hne by reflexivity.
  destruct (security_answer_normalised example_hash example_check Hcheck Hne
              [example_student] None "1234" example_student
              "What is your favourite colour?" "  Sky Blue " "na" eq_refl)
    as (Haccept & _ & _).
  split; [apply Haccept; reflexivity|].
  assert (exists u1, List.find (has_id "1234")
                       (default [] (users_collection db1)) = Some u1
                     /\ u_security_question u1
                        = Some "What is your favourite colour?"%string)
    as (u1 & Hf1 & Hq1) by (eexists; split; reflexivity).
  destruct (security_answer_normalised example_hash example_check Hcheck Hne
              (default [] (users_collection db1)) None "1234" u1
              "" "" "" Hf1) as (_ & _ & Hreject).
  apply (Hreject "What is your favourite food?"%string "sky blue"%string).
  left. rewrite Hq1. discriminate.
Defined.

(* ===================================================================== *)
(** * Part III: further properties of the code *)
(* ===================================================================== *)

(** ** Levels *)

Section LevelOrder.

Lemma level_at_least_one xp : 1 <= calculate_level_from_xp xp.
Proof.
  rewrite calculate_level_from_xp_closed.
  destruct (level_of_xp_bounds xp) as (H & _). exact H.
Qed.

Lemma level_threshold_below xp :
  0 <= xp -> xp_threshold_for_level (calculate_level_from_xp xp) <= xp.
Proof.
  intros Hxp. rewrite calculate_level_from_xp_closed.
  destruct (level_of_xp_bounds xp) as (H1 & H2 & _).
  destruct (Z.eq_dec (level_of_xp xp) 1) as [->|Hne]; [exact Hxp|].
  apply H2. lia.
Qed.

Lemma level_threshold_above xp :
  xp < xp_threshold_for_level (calculate_level_from_xp xp + 1).
Proof.
  rewrite calculate_level_from_xp_closed.
  destruct (level_of_xp_bounds xp) as (_ & _ & H & _). exact H.
Qed.

(** X1. The level never decreases when the XP grows. *)
Theorem level_monotone xp1 xp2 :
  xp1 <= xp2 -> calculate_level_from_xp xp1 <= calculate_level_from_xp xp2.
Proof.
  intros Hle. rewrite !calculate_level_from_xp_closed. unfold level_of_xp.
  destruct (Z.ltb_spec xp1 0) as [Hn1|Hp1];
    destruct (Z.ltb_spec xp2 0) as [Hn2|Hp2]; try lia.
  - assert (0 <= xp2 / 25) by (apply Z.div_pos; lia).
    pose proof (Z.log2_nonneg (xp2 / 25 + 1)). lia.
  - assert (xp1 / 25 <= xp2 / 25) by (apply Z.div_le_mono; lia).
    assert (Z.log2 (xp1 / 25 + 1) <= Z.log2 (xp2 / 25 + 1))
      by (apply Z.log2_le_mono; lia).
    lia.
Qed.

Lemma level_monotone_witness :
  20 <= 80 /\ calculate_level_from_xp 20 <= calculate_level_from_xp 80.
Proof. split; [lia|]. apply level_monotone. lia. Defined.

(** X2. The level of a non-negative XP total is the largest level whose
    threshold the total has reached: a threshold is reached exactly by the
    levels up to it. *)
Theorem level_is_largest_reached xp level :
  0 <= xp ->
  (xp_threshold_for_level level <= xp <-> level <= calculate_level_from_xp xp).
Proof.
  intros Hxp. split.
  - intros Hreached.
    destruct (Z_le_gt_dec level (calculate_level_from_xp xp)) as [H|H];
      [exact H|].
    exfalso. pose proof (level_threshold_above xp) as Habove.
    assert (calculate_level_from_xp xp + 1 <= level) as Hle by lia.
    pose proof (threshold_mono _ _ Hle). lia.
  - intros Hle. pose proof (threshold_mono _ _ Hle).
    pose proof (level_threshold_below xp Hxp). lia.
Qed.

Lemma level_is_largest_reached_witness :
  (xp_threshold_for_level 3 <= 100 <-> 3 <= calculate_level_from_xp 100)
  /\ (xp_threshold_for_level 4 <= 100 <-> 4 <= calculate_level_from_xp 100).
Proof.
  split; apply level_is_largest_reached; lia.
Defined.

(** X3. The XP gap to the next level is 25 at level 1 and doubles with
    every level: [25 * 2^(level-1)] from level 1 on. *)
Theorem next_level_gap_doubles level :
  1 <= level ->
  get_xp_for_next_level level = 25 * 2 ^ (level - 1)
  /\ get_xp_for_next_level (level + 1) = 2 * get_xp_for_next_level level.
Proof.
  intros Hl. unfold get_xp_for_next_level.
  rewrite (threshold_step (level + 1)) by lia.
  rewrite (threshold_step level) by lia.
  replace (level + 1 - 1) with (Z.succ (level - 1)) by lia.
  rewrite Z.pow_succ_r by lia. lia.
Qed.

Lemma next_level_gap_doubles_witness :
  get_xp_for_next_level 3 = 100 /\ get_xp_for_next_level 4 = 200.
Proof.
  destruct (next_level_gap_doubles 3 ltac:(lia)) as [H1 H2].
  split; [exact H1|].
  change (get_xp_for_next_level 4) with (get_xp_for_next_level (3 + 1)).
  rewrite H2, H1. reflexivity.
Defined.

(** X4. For a student whose stored level is the level of the stored XP,
    the progress shown by [get_user_stats] lies within the level: the XP
    inside the current level is at least 0 and less than the XP needed for
    the next one. *)
Theorem user_stats_within_level (u : User) xp :
  u_total_xp u = Some xp ->
  0 <= xp ->
  u_level u = Some (calculate_level xp) ->
  let stats := get_user_stats (Some u) in
  0 <= st_xp_in_current_level stats < st_xp_needed_for_next stats
  /\ st_xp_in_current_level stats + xp_threshold_for_level (st_level stats) = xp.
Proof.
  intros Hxp Hpos Hlevel. unfold get_user_stats, get_xp_for_level.
  cbn [mbind option_bind default st_xp_in_current_level
         st_xp_needed_for_next st_level].
  rewrite Hxp, Hlevel. cbn [default]. unfold calculate_level, id.
  pose proof (level_threshold_below xp Hpos).
  pose proof (level_threshold_above xp). lia.
Qed.

End LevelOrder.

Lemma user_stats_within_level_witness :
  let stats := get_user_stats (Some example_student) in
  0 <= st_xp_in_current_level stats < st_xp_needed_for_next stats
  /\ st_xp_in_current_level stats + xp_threshold_for_level (st_level stats)
     = 40.
Proof.
  apply (user_stats_within_level example_student 40);
    [reflexivity|lia|reflexivity].
Defined.

(** ** Badge evaluation: what is awarded *)

Section BadgeAwards.

Lemma catalogue_ids_distinct : NoDup (map fst ALL_BADGES).
Proof. apply (bool_decide_unpack _). vm_compute. exact I. Qed.

Lemma filter_fst_NoDup {A B} (f : A * B -> bool) (l : list (A * B)) :
  NoDup (map fst l) -> NoDup (map fst (List.filter f l)).
Proof.
  induction l as [|x l IH]; simpl; intros H; [constructor|].
  apply NoDup_cons in H as [Hx Hl]. destruct (f x); simpl.
  - apply NoDup_cons. split; [|now apply IH].
    intros Hin. apply Hx. apply list_elem_of_In in Hin. apply list_elem_of_In.
    apply in_map_iff in Hin as (y & Hy & Hin). apply filter_In in Hin as [Hin _].
    apply in_map_iff. now exists y.
  - now apply IH.
Qed.

Lemma new_badges_spec u bid :
  In bid (new_badges_of u)
  <-> exists badge,
        In (bid, badge) ALL_BADGES
        /\ ~ In bid (earned_list (u_achievements u))
        /\ b_req badge
           <= badge_current u (base_achievements (u_achievements u))
                (b_type badge).
Proof.
  unfold new_badges_of. rewrite badge_loop_filter, in_map_iff. split.
  - intros ([bid' badge] & Heq & Hin). cbn [fst] in Heq. subst bid'.
    apply filter_In in Hin as [Hin Hq]. exists badge. split; [exact Hin|].
    unfold qualifies in Hq. cbn [fst snd] in Hq.
    apply andb_true_iff in Hq as [Hnew Hreq]. split.
    + intros Hearned. apply is_in_In in Hearned. rewrite Hearned in Hnew.
      discriminate.
    + apply Z.geb_le in Hreq. exact Hreq.
  - intros (badge & Hin & Hnew & Hreq). exists (bid, badge).
    split; [reflexivity|]. apply filter_In. split; [exact Hin|].
    unfold qualifies. cbn [fst snd]. apply andb_true_iff. split.
    + destruct (is_in bid (earned_list (u_achievements u))) eqn:E;
        [|reflexivity].
      apply is_in_In in E. contradiction.
    + apply Z.geb_le. exact Hreq.
Qed.

Lemma new_badges_NoDup u : NoDup (new_badges_of u).
Proof.
  unfold new_badges_of. rewrite badge_loop_filter.
  apply filter_fst_NoDup. apply catalogue_ids_distinct.
Qed.

(** X5. An evaluation awards exactly the badges of the catalogue that are
    not yet earned and whose requirement the user meets (the level, the
    total XP or the named counter is at least [req]); after it, every
    badge whose requirement is met is in the earned list. *)
Theorem badge_evaluation_exact coll convs uid u :
  List.find (has_id uid) coll = Some u ->
  let current vt :=
    badge_current u (base_achievements (u_achievements u)) vt in
  let first := check_and_award_badges uid (mkDB (Some coll) convs) in
  (forall bid,
     In bid (fst first)
     <-> exists badge,
           In (bid, badge) ALL_BADGES
           /\ ~ In bid (earned_list (u_achievements u))
           /\ b_req badge <= current (b_type badge))
  /\ (forall bid badge,
        In (bid, badge) ALL_BADGES ->
        b_req badge <= current (b_type badge) ->
        In bid (earned_of uid (snd first))).
Proof.
  intros Hfind current first.
  destruct (check_and_award_run coll convs uid u Hfind)
    as (coll1 & Hrun & Hf1 & _).
  unfold first. rewrite Hrun. cbn [fst snd].
  rewrite (earned_of_found _ _ _ _ Hf1), awarded_earned. split.
  - intros bid. apply new_badges_spec.
  - intros bid badge Hin Hreq. apply in_or_app.
    destruct (in_dec string_dec bid (earned_list (u_achievements u)))
      as [Hearned|Hnew]; [now left|right].
    apply new_badges_spec. now exists badge.
Qed.

(** X6. An earned list without duplicates stays without duplicates: the
    badges an evaluation appends are distinct and none was earned. *)
Theorem badge_evaluation_no_duplicates coll convs uid u :
  List.find (has_id uid) coll = Some u ->
  NoDup (earned_list (u_achievements u)) ->
  let first := check_and_award_badges uid (mkDB (Some coll) convs) in
  NoDup (fst first) /\ NoDup (earned_of uid (snd first)).
Proof.
  intros Hfind Hnodup first.
  destruct (check_and_award_run coll convs uid u Hfind)
    as (coll1 & Hrun & Hf1 & _).
  unfold first. rewrite Hrun. cbn [fst snd].
  rewrite (earned_of_found _ _ _ _ Hf1), awarded_earned.
  split; [apply new_badges_NoDup|].
  apply NoDup_app. split; [exact Hnodup|]. split; [|apply new_badges_NoDup].
  intros bid Hin Hnew. apply list_elem_of_In in Hin, Hnew.
  exact (new_badges_fresh u bid Hnew Hin).
Qed.

End BadgeAwards.

Lemma badge_evaluation_exact_witness :
  fst (check_and_award_badges "1234" (mkDB (Some [example_student]) None))
  = ["level_2"; "xp_25"]%string
  /\ In "xp_25"%string
       (earned_of "1234"
          (snd (check_and_award_badges "1234"
                  (mkDB (Some [example_student]) None)))).
Proof.
  destruct (badge_evaluation_exact [example_student] None "1234"
              example_student eq_refl) as [_ Hall].
  split; [vm_compute; reflexivity|].
  apply (Hall "xp_25"%string (mkBadge "total_xp" 25)).
  - vm_compute. tauto.
  - vm_compute. discriminate.
Defined.

Lemma badge_evaluation_no_duplicates_witness :
  NoDup (earned_of "1234"
           (snd (check_and_award_badges "1234"
                   (mkDB (Some [example_student]) None)))).
Proof.
  apply (badge_evaluation_no_duplicates [example_student] None "1234"
           example_student eq_refl).
  constructor.
Defined.

(** ** Weekly challenges: what the progress update keeps *)

Section ChallengeInvariant.

(** A slot is in order: its progress never passes its target, and it is
    marked completed exactly when the progress has reached the target. *)
Definition slot_ok (c : Challenge) : Prop :=
  c_current c <= c_target c
  /\ (c_completed c = true <-> c_target c <= c_current c).

(** A challenge set is in order: its three slots are, and the counter
    [completed_today] is the number of completed slots. *)
Definition challenges_ok (cs : Challenges) : Prop :=
  slot_ok (challenge1 cs) /\ slot_ok (challenge2 cs)
  /\ slot_ok (challenge3 cs) /\ consistent cs.

Lemma fresh_challenges_ok wk n : challenges_ok (fresh_challenges wk n).
Proof.
  unfold challenges_ok, slot_ok, fresh_challenges; cbn.
  repeat split; try lia; try discriminate; intros; lia.
Qed.

Lemma advance_challenges_ok cs ctype increment :
  challenges_ok cs ->
  challenges_ok (fst (advance_challenges cs ctype increment)).
Proof.
  intros Hok.
  destruct cs as [w [t1 g1 k1 d1 x1] [t2 g2 k2 d2 x2] [t3 g3 k3 d3 x3] n s].
  unfold challenges_ok, slot_ok, consistent, count_completed in *.
  cbn in Hok. unfold advance_challenges.
  destruct (type_map ctype) as [[| |]|]; cbn;
    destruct d1, d2, d3; cbn;
    repeat match goal with
           | |- context [?a >=? ?b] => destruct (Z.geb_spec a b); cbn
           end;
    repeat split; intros; first [lia|congruence].
Qed.

(** X7. The progress update keeps a challenge set in order, whatever the
    type and the increment: progress stays within the target, a slot is
    completed exactly when its progress has reached the target, the
    counter stays the number of completed slots (so between 0 and 3), and
    no completed slot is reopened. *)
Theorem advance_keeps_challenges_ok cs ctype increment :
  challenges_ok cs ->
  let cs' := fst (advance_challenges cs ctype increment) in
  challenges_ok cs'
  /\ 0 <= completed_today cs' <= 3
  /\ completed_today cs <= completed_today cs'
  /\ (forall key, c_completed (get_slot key cs) = true ->
                  get_slot key cs' = get_slot key cs).
Proof.
  intros Hok.
  destruct cs as [w [t1 g1 k1 d1 x1] [t2 g2 k2 d2 x2] [t3 g3 k3 d3 x3] n s].
  unfold challenges_ok, slot_ok, consistent, count_completed in *.
  cbn in Hok. unfold advance_challenges.
  destruct (type_map ctype) as [[| |]|]; cbn;
    destruct d1, d2, d3; cbn;
    repeat match goal with
           | |- context [?a >=? ?b] => destruct (Z.geb_spec a b); cbn
           end;
    (split; [|split; [|split]]);
    try lia;
    try (intros [] ?; cbn in *; first [reflexivity|congruence]);
    try (repeat split; intros; first [lia|congruence]).
Qed.

End ChallengeInvariant.

Lemma advance_keeps_challenges_ok_witness :
  let cs := fresh_challenges example_week 0 in
  let cs' := fst (advance_challenges cs "mastery" 7) in
  challenges_ok cs'
  /\ c_current (challenge3 cs') = 3
  /\ completed_today cs' = 1.
Proof.
  intros cs cs'.
  destruct (advance_keeps_challenges_ok cs "mastery" 7
              (fresh_challenges_ok example_week 0)) as (Hok & _).
  split; [exact Hok|]. split; reflexivity.
Defined.

(** ** Invariants of the store

    An invariant of the store that every step of an operation keeps is
    kept by the operation, whether it returns or raises. *)

Section Keeps.

Definition keeps {X} (I : DB -> Prop) (f : DB -> X * DB) : Prop :=
  forall db, I db -> I (snd (f db)).

Lemma keeps_ret {A} I (a : A) : keeps I (ret a).
Proof. intros db H. exact H. Qed.

Lemma keeps_raise {A} I : keeps I (@raise A).
Proof. intros db H. exact H. Qed.

Lemma keeps_bind {A B} I (m : M A) (k : A -> M B) :
  keeps I m -> (forall a, keeps I (k a)) -> keeps I (bind m k).
Proof.
  intros Hm Hk db H. unfold bind. specialize (Hm db H).
  destruct (m db) as [[a|] db']; cbn [snd] in *; [|exact Hm].
  exact (Hk a db' Hm).
Qed.

Lemma keeps_try_except {A} I (body : M A) (dflt : A) :
  keeps I body -> keeps I (try_except body dflt).
Proof.
  intros Hb db H. unfold try_except. specialize (Hb db H).
  destruct (body db) as [[a|] db']; exact Hb.
Qed.

Lemma keeps_call {A} I (f : DB -> A * DB) : keeps I f -> keeps I (call f).
Proof.
  intros Hf db H. unfold call. specialize (Hf db H).
  destruct (f db) as [a db']. exact Hf.
Qed.

Lemma keeps_find_one I uid : keeps I (find_one uid).
Proof.
  intros db H. unfold find_one. destruct (users_collection db); exact H.
Qed.

Lemma keeps_find_all I : keeps I find_all.
Proof.
  intros db H. unfold find_all. destruct (users_collection db); exact H.
Qed.

(** An operation behind the guard on the collection handle. *)
Lemma keeps_guarded {X} I (dflt : X) (f : DB -> X * DB) :
  keeps I f ->
  keeps I (fun db =>
             match users_collection db with
             | None => (dflt, db)
             | Some _ => f db
             end).
Proof.
  intros Hf db H. cbv beta. destruct (users_collection db); [|exact H].
  exact (Hf db H).
Qed.

(** Every document of the users collection satisfies [P]. *)
Definition all_users (P : User -> Prop) (db : DB) : Prop :=
  match users_collection db with
  | Some coll => Forall P coll
  | None => True
  end.

(** The update [f] of the document of [uid] keeps [P]. *)
Definition preserves (uid : string) (P : User -> Prop)
    (f : User -> option User) : Prop :=
  forall v v', u_id v = uid -> P v -> f v = Some v' -> P v'.

Lemma update_first_Forall uid P f coll coll' :
  preserves uid P f ->
  Forall P coll ->
  update_first uid f coll = Some coll' ->
  Forall P coll'.
Proof.
  intros Hf Hall. revert coll'.
  induction Hall as [|v coll Hv Hall IH]; intros coll' Hup; simpl in Hup.
  - injection Hup as <-. constructor.
  - destruct (has_id uid v) eqn:Hid.
    + destruct (f v) as [v'|] eqn:Hfv; [|discriminate].
      injection Hup as <-. constructor; [|exact Hall].
      apply (Hf v v'); [|exact Hv|exact Hfv].
      apply String.eqb_eq. exact Hid.
    + destruct (update_first uid f coll) as [rest|]; [|discriminate].
      injection Hup as <-. constructor; [exact Hv|]. now apply IH.
Qed.

Lemma keeps_update_one uid P f :
  preserves uid P f -> keeps (all_users P) (update_one uid f).
Proof.
  intros Hf db H. unfold update_one, all_users in *.
  destruct (users_collection db) as [coll|] eqn:Hc;
    [|cbn [snd]; now rewrite Hc].
  destruct (update_first uid f coll) as [coll'|] eqn:Hup; cbn [snd].
  - cbn [users_collection]. exact (update_first_Forall uid P f coll coll' Hf H Hup).
  - now rewrite Hc.
Qed.

(** The ids of the collection, in order. *)
Definition user_ids (db : DB) : option (list string) :=
  map u_id <$> users_collection db.

Definition keeps_id (f : User -> option User) : Prop :=
  forall v v', f v = Some v' -> u_id v' = u_id v.

Lemma update_first_ids uid f coll coll' :
  keeps_id f ->
  update_first uid f coll = Some coll' ->
  map u_id coll' = map u_id coll.
Proof.
  intros Hf. revert coll'. induction coll as [|v coll IH]; intros coll' Hup;
    simpl in Hup.
  - now injection Hup as <-.
  - destruct (has_id uid v).
    + destruct (f v) as [v'|] eqn:Hfv; [|discriminate].
      injection Hup as <-. simpl. now rewrite (Hf v v' Hfv).
    + destruct (update_first uid f coll) as [rest|]; [|discriminate].
      injection Hup as <-. simpl. now rewrite (IH rest eq_refl).
Qed.

Lemma keeps_ids_update_one ids uid f :
  keeps_id f -> keeps (fun db => user_ids db = ids) (update_one uid f).
Proof.
  intros Hf db H. unfold update_one, user_ids in *.
  destruct (users_collection db) as [coll|] eqn:Hc;
    [|cbn [snd]; now rewrite Hc].
  destruct (update_first uid f coll) as [coll'|] eqn:Hup; cbn [snd].
  - cbn [users_collection fmap option_fmap option_map] in *.
    now rewrite (update_first_ids uid f coll coll' Hf Hup).
  - now rewrite Hc.
Qed.

(** A document other than that of [uid] is what it was. *)
Definition untouched (d : User) (u : User) : Prop :=
  u_id u = u_id d -> u = d.

Lemma preserves_untouched uid d f :
  u_id d <> uid -> keeps_id f -> preserves uid (untouched d) f.
Proof.
  intros Hne Hf v v' Hid _ Hfv Hd. exfalso. apply Hne.
  rewrite <- Hd, (Hf v v' Hfv). exact Hid.
Qed.

End Keeps.

(** The field updates keep the id of the document. *)
Section Setters.

Ltac setter_id :=
  intros v v' Hf;
  repeat match type of Hf with
         | context [match ?x with _ => _ end] => destruct x; try discriminate
         | _ => progress unfold in_achievements, set_achievements in Hf
         end;
  injection Hf as <-; reflexivity.

Lemma keeps_id_set_achievements a : keeps_id (set_achievements a).
Proof. unfold set_achievements. setter_id. Qed.

Lemma keeps_id_set_badges_earned l : keeps_id (set_badges_earned l).
Proof. unfold set_badges_earned. setter_id. Qed.

Lemma keeps_id_set_counter key n : keeps_id (set_counter key n).
Proof. unfold set_counter. setter_id. Qed.

Lemma keeps_id_set_daily_challenges cs : keeps_id (set_daily_challenges cs).
Proof. unfold set_daily_challenges. setter_id. Qed.

Lemma keeps_id_set_xp_level x l : keeps_id (set_xp_level x l).
Proof. unfold set_xp_level. setter_id. Qed.

Lemma keeps_id_set_login s m t : keeps_id (set_login s m t).
Proof. unfold set_login. setter_id. Qed.

Lemma keeps_id_inc_counter key n : keeps_id (inc_counter key n).
Proof. unfold inc_counter. setter_id. Qed.

Lemma keeps_id_inc_weekly_xp wk n : keeps_id (inc_weekly_xp wk n).
Proof. unfold inc_weekly_xp. setter_id. Qed.

Lemma keeps_id_set_xp_data x l st now : keeps_id (set_xp_data x l st now).
Proof. unfold set_xp_data. setter_id. Qed.

Lemma keeps_id_set_migrated l r : keeps_id (set_migrated l r).
Proof. unfold set_migrated. setter_id. Qed.

Lemma keeps_id_set_weekly_xp wk n : keeps_id (set_weekly_xp wk n).
Proof. unfold set_weekly_xp. setter_id. Qed.

End Setters.

(** ** Invariants across the operations on a user *)

Section OperationsKeep.

(** The invariant [I] is kept by every field update the operations make
    on the document of [uid]; where they write a level, it is the level
    of the XP written with it. *)
Record updates_keep (I : DB -> Prop) (uid : string) : Prop := {
  uk_achievements : forall a, keeps I (update_one uid (set_achievements a));
  uk_badges : forall l, keeps I (update_one uid (set_badges_earned l));
  uk_counter : forall k n, keeps I (update_one uid (set_counter k n));
  uk_challenges : forall cs, keeps I (update_one uid (set_daily_challenges cs));
  uk_xp_level :
    forall x,
      keeps I (update_one uid (set_xp_level x (calculate_level_from_xp x)));
  uk_login : forall s m t, keeps I (update_one uid (set_login s m t));
  uk_inc : forall k n, keeps I (update_one uid (inc_counter k n))
}.

Variable I : DB -> Prop.
Variable uid : string.
Hypothesis Hupdates : updates_keep I uid.

Ltac keeps_step :=
  first
    [ apply keeps_ret
    | apply keeps_raise
    | apply keeps_find_one
    | apply keeps_find_all
    | apply (uk_achievements I uid Hupdates)
    | apply (uk_badges I uid Hupdates)
    | apply (uk_counter I uid Hupdates)
    | apply (uk_challenges I uid Hupdates)
    | apply (uk_xp_level I uid Hupdates)
    | apply (uk_login I uid Hupdates)
    | apply (uk_inc I uid Hupdates)
    | assumption
    | apply keeps_try_except
    | apply keeps_bind; [|intros ?]
    | match goal with
      | |- keeps _ (match ?x with _ => _ end) => destruct x
      end ].

Lemma check_and_award_badges_keeps : keeps I (check_and_award_badges uid).
Proof.
  unfold check_and_award_badges. apply keeps_guarded. repeat keeps_step.
Qed.

Lemma get_daily_challenges_keeps wk : keeps I (get_daily_challenges uid wk).
Proof.
  unfold get_daily_challenges. apply keeps_guarded.
  repeat first [keeps_step
               | apply keeps_call; apply check_and_award_badges_keeps].
Qed.

Lemma update_challenge_progress_keeps ctype increment wk :
  keeps I (update_challenge_progress uid ctype increment wk).
Proof.
  unfold update_challenge_progress. apply keeps_guarded.
  repeat first [keeps_step
               | apply keeps_call; apply check_and_award_badges_keeps
               | apply keeps_call; apply get_daily_challenges_keeps].
Qed.

Lemma update_login_streak_keeps today yesterday :
  keeps I (update_login_streak uid today yesterday).
Proof.
  unfold update_login_streak. apply keeps_guarded.
  repeat first [keeps_step
               | apply keeps_call; apply check_and_award_badges_keeps].
Qed.

Lemma increment_activity_keeps activity_type amount :
  keeps I (increment_activity uid activity_type amount).
Proof.
  unfold increment_activity. apply keeps_guarded.
  repeat first [keeps_step
               | apply keeps_call; apply check_and_award_badges_keeps].
Qed.

Lemma update_weekly_xp_keeps xp_to_add wk :
  keeps I (update_one uid (inc_weekly_xp wk xp_to_add)) ->
  keeps I (update_weekly_xp uid xp_to_add wk).
Proof.
  intros Hinc. unfold update_weekly_xp. apply keeps_guarded.
  intros db H. destruct (xp_to_add <=? 0); [exact H|].
  revert db H. change (keeps I (try_except
    (do! update_one uid (inc_weekly_xp wk xp_to_add) in ret tt) tt)).
  repeat keeps_step.
Qed.

Lemma update_user_xp_keeps xp level stars now :
  keeps I (update_one uid (set_xp_data xp level stars now)) ->
  keeps I (update_user_xp uid xp level stars now).
Proof.
  intros Hset. unfold update_user_xp. apply keeps_guarded.
  repeat first [keeps_step
               | apply keeps_call; apply check_and_award_badges_keeps].
Qed.

End OperationsKeep.

(** *** The level invariant *)

Section LevelInvariant.

(** The stored level is the level of the stored XP (with the defaults the
    code reads for missing keys). *)
Definition level_ok (u : User) : Prop :=
  default 1 (u_level u) = calculate_level_from_xp (default 0 (u_total_xp u)).

Ltac setter_keeps :=
  intros v v' _ HP Hf;
  repeat match type of Hf with
         | context [match ?x with _ => _ end] => destruct x; try discriminate
         | _ => progress unfold in_achievements, set_achievements in Hf
         end;
  injection Hf as <-; first [exact HP | reflexivity].

Lemma level_ok_updates uid : updates_keep (all_users level_ok) uid.
Proof.
  constructor; intros; apply keeps_update_one.
  - unfold set_achievements. setter_keeps.
  - unfold set_badges_earned. setter_keeps.
  - unfold set_counter. setter_keeps.
  - unfold set_daily_challenges. setter_keeps.
  - unfold set_xp_level. setter_keeps.
  - unfold set_login. setter_keeps.
  - unfold inc_counter. setter_keeps.
Qed.

Lemma level_ok_inc_weekly uid wk n :
  keeps (all_users level_ok) (update_one uid (inc_weekly_xp wk n)).
Proof. apply keeps_update_one. unfold inc_weekly_xp. setter_keeps. Qed.

Lemma level_ok_set_xp_data uid x st now :
  keeps (all_users level_ok)
    (update_one uid (set_xp_data x (calculate_level_from_xp x) st now)).
Proof. apply keeps_update_one. unfold set_xp_data. setter_keeps. Qed.

(** X8. The operations that run after an activity keep the level
    invariant of every user: if each stored level is the level of the
    stored XP, it is so after [update_challenge_progress] (which adds the
    challenge XP and recomputes the level), after a badge evaluation,
    after a challenge fetch, an activity increment, a login-streak update
    and a weekly-XP update. *)
Theorem level_invariant_kept db uid ctype increment wk today yesterday
    activity amount xp_to_add :
  all_users level_ok db ->
  all_users level_ok
    (snd (update_challenge_progress uid ctype increment wk db))
  /\ all_users level_ok (snd (check_and_award_badges uid db))
  /\ all_users level_ok (snd (get_daily_challenges uid wk db))
  /\ all_users level_ok (snd (increment_activity uid activity amount db))
  /\ all_users level_ok (snd (update_login_streak uid today yesterday db))
  /\ all_users level_ok (snd (update_weekly_xp uid xp_to_add wk db)).
Proof.
  intros H. pose proof (level_ok_updates uid) as Hup.
  split; [exact (update_challenge_progress_keeps _ _ Hup _ _ _ db H)|].
  split; [exact (check_and_award_badges_keeps _ _ Hup db H)|].
  split; [exact (get_daily_challenges_keeps _ _ Hup _ db H)|].
  split; [exact (increment_activity_keeps _ _ Hup _ _ db H)|].
  split; [exact (update_login_streak_keeps _ _ Hup _ _ db H)|].
  exact (update_weekly_xp_keeps _ _ _ _ (level_ok_inc_weekly uid wk xp_to_add)
           db H).
Qed.

End LevelInvariant.

Lemma level_invariant_kept_witness :
  all_users level_ok
    (snd (update_challenge_progress "1234" "practice" 1 example_week
            example_db_all_done)).
Proof.
  destruct (level_invariant_kept example_db_all_done "1234" "practice" 1
              example_week "" "" "" 0 0) as (H & _).
  - unfold all_users. set (c := users_collection _). vm_compute in c.
    subst c. cbv beta iota.
    apply List.Forall_cons; [vm_compute; reflexivity | apply List.Forall_nil].
  - exact H.
Defined.

(** *** What an operation on one user leaves alone *)

Section Frame.

Variable uid : string.

(** A document after operations on [uid]: the same identifier, and the
    same document when it is another user's. *)
Definition kept_entry (u u' : User) : Prop :=
  u_id u' = u_id u /\ (u_id u <> uid -> u' = u).

Definition same_but (db0 db : DB) : Prop :=
  conversations_collection db = conversations_collection db0
  /\ match users_collection db0, users_collection db with
     | Some c0, Some c => Forall2 kept_entry c0 c
     | None, None => True
     | _, _ => False
     end.

Lemma kept_entry_refl u : kept_entry u u.
Proof. now split. Qed.

Lemma same_but_refl db : same_but db db.
Proof.
  split; [reflexivity|]. destruct (users_collection db) as [c|]; [|exact I].
  induction c; constructor; auto using kept_entry_refl.
Qed.

Lemma update_first_kept f c0 c c' :
  keeps_id f ->
  Forall2 kept_entry c0 c ->
  update_first uid f c = Some c' ->
  Forall2 kept_entry c0 c'.
Proof.
  intros Hid H. revert c'.
  induction H as [|u u' c0 c Hu H IH]; intros c' Hup; simpl in Hup.
  - injection Hup as <-. constructor.
  - destruct (has_id uid u') eqn:Hh.
    + destruct (f u') as [u''|] eqn:Hf; [|discriminate].
      injection Hup as <-. constructor; [|exact H].
      destruct Hu as [Hu1 Hu2]. apply Hid in Hf.
      unfold has_id in Hh. apply String.eqb_eq in Hh.
      split; [congruence|]. intros Hne. exfalso. apply Hne. congruence.
    + destruct (update_first uid f c) as [c1|]; [|discriminate].
      injection Hup as <-. constructor; [exact Hu|]. now apply IH.
Qed.

Lemma same_but_update_one db0 f :
  keeps_id f -> keeps (same_but db0) (update_one uid f).
Proof.
  intros Hid db [Hc Hu]. unfold update_one.
  destruct (users_collection db) as [c|] eqn:Hcoll;
    [|cbn [snd]; split; [exact Hc | now rewrite Hcoll]].
  destruct (update_first uid f c) as [c'|] eqn:Hup;
    [|cbn [snd]; split; [exact Hc | now rewrite Hcoll]].
  cbn [snd]. split; [exact Hc|]. cbn [users_collection].
  destruct (users_collection db0) as [c0|]; [|exact Hu].
  exact (update_first_kept f c0 c c' Hid Hu Hup).
Qed.

Lemma same_but_updates db0 : updates_keep (same_but db0) uid.
Proof.
  constructor; intros; apply same_but_update_one;
    auto using keeps_id_set_achievements, keeps_id_set_badges_earned,
      keeps_id_set_counter, keeps_id_set_daily_challenges,
      keeps_id_set_xp_level, keeps_id_set_login, keeps_id_inc_counter.
Qed.

Lemma get_user_by_id_value o db :
  fst (get_user_by_id o db)
  = match users_collection db with
    | Some c => List.find (has_id o) c
    | None => None
    end.
Proof.
  unfold get_user_by_id, try_except, find_one.
  destruct (users_collection db) as [c|]; reflexivity.
Qed.

Lemma kept_ids c0 c : Forall2 kept_entry c0 c -> map u_id c = map u_id c0.
Proof.
  induction 1 as [|u u' c0 c [Hu _] _ IH]; [reflexivity|].
  simpl. now rewrite Hu, IH.
Qed.

Lemma kept_find c0 c o :
  o <> uid -> Forall2 kept_entry c0 c ->
  List.find (has_id o) c = List.find (has_id o) c0.
Proof.
  intros Hne. induction 1 as [|u u' c0 c [Hu1 Hu2] _ IH]; [reflexivity|].
  simpl. unfold has_id at 1 3. rewrite Hu1.
  destruct (String.eqb (u_id u) o) eqn:Ho; [|exact IH].
  apply String.eqb_eq in Ho. rewrite Hu2; [reflexivity | congruence].
Qed.

(** What the caller of an operation on [uid] can observe of the rest of
    the store. *)
Definition others_kept {X} (f : DB -> X * DB) : Prop :=
  forall db,
    conversations_collection (snd (f db)) = conversations_collection db
    /\ user_ids (snd (f db)) = user_ids db
    /\ forall o, o <> uid ->
         fst (get_user_by_id o (snd (f db))) = fst (get_user_by_id o db).

Lemma same_but_others {X} (f : DB -> X * DB) :
  (forall db0, keeps (same_but db0) f) -> others_kept f.
Proof.
  intros Hk db. destruct (Hk db db (same_but_refl db)) as [Hc Hu].
  split; [exact Hc|]. unfold user_ids. setoid_rewrite get_user_by_id_value.
  destruct (users_collection db) as [c0|],
    (users_collection (snd (f db))) as [c|]; try contradiction.
  - split; [cbn; f_equal; now apply kept_ids|].
    intros o Ho. now apply kept_find.
  - split; reflexivity.
Qed.

(** X9. An operation on one user's document never touches the rest of
    the store: after [update_challenge_progress], [check_and_award_badges],
    [get_daily_challenges], [increment_activity], [update_login_streak],
    [update_weekly_xp] or [update_user_xp] for [uid], the conversations
    are the same, the users' identifiers are the same in the same order
    (no document is added or removed), and looking up any other user
    gives the same document as before. *)
Theorem operations_keep_other_users :
  (forall ctype increment wk,
     others_kept (update_challenge_progress uid ctype increment wk))
  /\ others_kept (check_and_award_badges uid)
  /\ (forall wk, others_kept (get_daily_challenges uid wk))
  /\ (forall activity amount,
        others_kept (increment_activity uid activity amount))
  /\ (forall today yesterday,
        others_kept (update_login_streak uid today yesterday))
  /\ (forall xp_to_add wk, others_kept (update_weekly_xp uid xp_to_add wk))
  /\ (forall xp level stars now,
        others_kept (update_user_xp uid xp level stars now)).
Proof.
  split; [intros; apply same_but_others; intros db0;
          apply update_challenge_progress_keeps, same_but_updates|].
  split; [apply same_but_others; intros db0;
          apply check_and_award_badges_keeps, same_but_updates|].
  split; [intros; apply same_but_others; intros db0;
          apply get_daily_challenges_keeps, same_but_updates|].
  split; [intros; apply same_but_others; intros db0;
          apply increment_activity_keeps, same_but_updates|].
  split; [intros; apply same_but_others; intros db0;
          apply update_login_streak_keeps, same_but_updates|].
  split; intros; apply same_but_others; intros db0.
  - apply update_weekly_xp_keeps, same_but_update_one,
      keeps_id_inc_weekly_xp.
  - apply update_user_xp_keeps;
      [apply same_but_updates
      | apply same_but_update_one, keeps_id_set_xp_data].
Qed.

End Frame.

(** *** Saving progress ([save_user_progress]) *)

Section ProgressKeeps.

Variable I : DB -> Prop.
Variable uid : string.
Hypothesis Hupdates : updates_keep I uid.
Hypothesis Hxp :
  forall x st now,
    keeps I (update_one uid (set_xp_data x (calculate_level_from_xp x) st now)).
Hypothesis Hweekly : forall wk n, keeps I (update_one uid (inc_weekly_xp wk n)).
Hypothesis Hstats :
  forall mode st now, keeps I (update_user_mode_stats uid mode st now).

Lemma track_mode_keeps mode st wk db :
  I db -> I (track_mode uid mode st wk db).
Proof.
  intros H. unfold track_mode.
  repeat match goal with
         | |- context [if ?b then _ else _] => destruct b
         end;
    try exact H;
    repeat first
      [ apply (update_challenge_progress_keeps I uid Hupdates)
      | apply (increment_activity_keeps I uid Hupdates) ];
    exact H.
Qed.

Lemma get_user_by_id_db o db : snd (get_user_by_id o db) = db.
Proof.
  unfold get_user_by_id, try_except, find_one.
  destruct (users_collection db); reflexivity.
Qed.

Lemma save_user_progress_unfold st mode now wk db :
  save_user_progress uid st mode now wk db
  = match fst (get_user_by_id uid db) with
    | Some user =>
        let new_xp := default 0 (u_total_xp user) + st in
        let new_level := calculate_level_from_xp new_xp in
        let old_level := default 1 (u_level user) in
        (Some (mkLevelInfo (new_level >? old_level) new_level old_level),
         track_mode uid mode st wk
           (snd (update_user_mode_stats uid mode st now
              (snd (update_weekly_xp uid st wk
                 (snd (update_user_xp uid new_xp new_level
                         (Some (default 0 (u_total_stars user) + st))
                         now db)))))))
    | None => (None, db)
    end.
Proof.
  unfold save_user_progress. pose proof (get_user_by_id_db uid db) as Hdb.
  destruct (get_user_by_id uid db) as [user db1]. cbn [fst snd] in *.
  subst db1. destruct user; reflexivity.
Qed.

Lemma save_user_progress_keeps st mode now wk :
  keeps I (save_user_progress uid st mode now wk).
Proof.
  intros db H. rewrite save_user_progress_unfold.
  destruct (fst (get_user_by_id uid db)) as [user|]; [|exact H].
  cbv zeta. cbn [snd]. apply track_mode_keeps, Hstats, update_weekly_xp_keeps;
    [apply Hweekly|].
  apply update_user_xp_keeps; [exact Hupdates | apply Hxp | exact H].
Qed.

End ProgressKeeps.

Section ProgressFacts.

Variable uid : string.

Lemma upsert_last_active_Forall (P : User -> Prop) now coll :
  (forall u, P u -> P (set_last_active now u)) ->
  P (mkUser uid None None None None None None None None None (Some now)
       Absent Absent None None None) ->
  Forall P coll -> Forall P (upsert_last_active uid now coll).
Proof.
  intros Hset Hnew. induction 1 as [|u coll Hu H IH]; simpl.
  - constructor; [exact Hnew | constructor].
  - destruct (has_id uid u); constructor; auto.
Qed.

Lemma level_ok_mode_stats mode st now :
  keeps (all_users level_ok) (update_user_mode_stats uid mode st now).
Proof.
  intros db H. unfold update_user_mode_stats, all_users in *.
  destruct (users_collection db) as [coll|] eqn:Hc;
    [|cbn [snd]; now rewrite Hc].
  cbn [snd users_collection].
  apply upsert_last_active_Forall; [intros u Hu; exact Hu | | exact H].
  vm_compute. reflexivity.
Qed.

(** With the user stored, the upsert is an update. *)
Lemma upsert_last_active_kept now c0 c :
  In uid (map u_id c0) ->
  Forall2 (kept_entry uid) c0 c ->
  Forall2 (kept_entry uid) c0 (upsert_last_active uid now c).
Proof.
  intros Hin H. induction H as [|u u' c0 c [Hu1 Hu2] H IH]; [destruct Hin|].
  simpl. destruct (has_id uid u') eqn:Hh.
  - constructor; [|exact H]. unfold has_id in Hh. apply String.eqb_eq in Hh.
    split; [exact Hu1|]. intros Hne. exfalso. apply Hne. congruence.
  - constructor; [now split|]. apply IH. destruct Hin as [Hin|Hin]; [|exact Hin].
    unfold has_id in Hh. apply String.eqb_neq in Hh. congruence.
Qed.

Lemma same_but_mode_stats db0 c0 mode st now :
  users_collection db0 = Some c0 ->
  In uid (map u_id c0) ->
  keeps (same_but uid db0) (update_user_mode_stats uid mode st now).
Proof.
  intros Hc0 Hin db [Hc Hu]. unfold update_user_mode_stats.
  rewrite Hc0 in Hu.
  destruct (users_collection db) as [c|] eqn:Hcoll; [|contradiction].
  cbn [snd]. split; [exact Hc|]. cbn [users_collection]. rewrite Hc0.
  now apply upsert_last_active_kept.
Qed.

Lemma find_In_ids o c u :
  List.find (has_id o) c = Some u -> In o (map u_id c).
Proof.
  intros H. pose proof (find_has_id _ _ _ H) as <-.
  apply find_some in H as [H _]. now apply in_map.
Qed.

(** X10. Saving a student's progress keeps the rest of the store and the
    level invariant: after [save_user_progress] for [uid] the
    conversations are unchanged, no user document is added or removed
    (the upsert of the mode statistics never inserts, the user being
    there), every other user's document is as before; and if every stored
    level was the level of the stored XP, it still is for every user. *)
Theorem save_user_progress_keeps_store stars_earned mode now week_key :
  others_kept uid (save_user_progress uid stars_earned mode now week_key)
  /\ keeps (all_users level_ok)
       (save_user_progress uid stars_earned mode now week_key).
Proof.
  split.
  - intros db.
    destruct (fst (get_user_by_id uid db)) as [user|] eqn:Hg.
    + rewrite get_user_by_id_value in Hg.
      destruct (users_collection db) as [c0|] eqn:Hc0; [|discriminate].
      apply find_In_ids in Hg. revert db Hc0.
      enough (Hk : forall db0, users_collection db0 = Some c0 ->
                 forall db, same_but uid db0 db ->
                   same_but uid db0
                     (snd (save_user_progress uid stars_earned mode now
                             week_key db))).
      { intros db Hc0.
        pose proof (Hk db Hc0 db (same_but_refl uid db)) as [Hc Hu].
        split; [exact Hc|]. unfold user_ids.
        setoid_rewrite get_user_by_id_value. rewrite Hc0 in *.
        destruct (users_collection
                    (snd (save_user_progress uid stars_earned mode now
                            week_key db))) as [c|]; [|contradiction].
        split; [cbn; f_equal; now apply kept_ids with (uid := uid)|].
        intros o Ho. now apply kept_find with (uid := uid). }
      intros db0 Hc0. apply save_user_progress_keeps.
      * apply same_but_updates.
      * intros. apply same_but_update_one. apply keeps_id_set_xp_data.
      * intros. apply same_but_update_one. apply keeps_id_inc_weekly_xp.
      * intros. now apply same_but_mode_stats with (c0 := c0).
    + rewrite save_user_progress_unfold, Hg. cbn [snd]. repeat split.
  - apply save_user_progress_keeps.
    + apply level_ok_updates.
    + intros. apply level_ok_set_xp_data.
    + intros. apply level_ok_inc_weekly.
    + intros. apply level_ok_mode_stats.
Qed.

End ProgressFacts.

(** *** What is stored for the user an operation works on *)

Section Found.

Variable uid : string.

(** The document [find_one] returns for [uid] satisfies [Q]. *)
Definition found (Q : User -> Prop) (db : DB) : Prop :=
  exists c u,
    users_collection db = Some c /\ List.find (has_id uid) c = Some u /\ Q u.

Lemma update_first_find f c c' u :
  keeps_id f ->
  update_first uid f c = Some c' ->
  List.find (has_id uid) c = Some u ->
  exists u', f u = Some u' /\ List.find (has_id uid) c' = Some u'.
Proof.
  intros Hid. revert c'. induction c as [|x rest IH]; [discriminate|].
  intros c' Hup Hfind. simpl in *. destruct (has_id uid x) eqn:E.
  - injection Hfind as ->. destruct (f u) as [u'|] eqn:Hf; [|discriminate].
    injection Hup as <-. exists u'. split; [reflexivity|]. simpl.
    unfold has_id in *. now rewrite (Hid _ _ Hf), E.
  - destruct (update_first uid f rest) as [rest'|]; [|discriminate].
    injection Hup as <-. destruct (IH _ eq_refl Hfind) as (u' & Hf & Hfind').
    exists u'. split; [exact Hf|]. simpl. now rewrite E.
Qed.

Lemma found_update_one (Q : User -> Prop) f :
  keeps_id f ->
  (forall v v', Q v -> f v = Some v' -> Q v') ->
  keeps (found Q) (update_one uid f).
Proof.
  intros Hid Hst db (c & u & Hc & Hfind & HQ). unfold update_one. rewrite Hc.
  destruct (update_first uid f c) as [c'|] eqn:Hup.
  - destruct (update_first_find f c c' u Hid Hup Hfind) as (u' & Hf & Hfind').
    exists c', u'. cbn [snd users_collection]. eauto.
  - exists c, u. cbn [snd]. auto.
Qed.

Lemma found_set (Q : User -> Prop) f db c u u' :
  users_collection db = Some c ->
  List.find (has_id uid) c = Some u ->
  f u = Some u' -> u_id u' = u_id u -> Q u' ->
  found Q (snd (update_one uid f db)).
Proof.
  intros Hc Hfind Hf Hid HQ.
  destruct (update_one_run db c uid f u u' Hc Hfind Hf Hid)
    as (c' & Hrun & Hfind').
  rewrite Hrun. exists c', u'. cbn [snd users_collection]. auto.
Qed.

Lemma upsert_last_active_find now c u :
  List.find (has_id uid) c = Some u ->
  List.find (has_id uid) (upsert_last_active uid now c)
  = Some (set_last_active now u).
Proof.
  induction c as [|x rest IH]; [discriminate|]. simpl.
  destruct (has_id uid x) eqn:E.
  - intros [= ->]. simpl. unfold has_id in *. cbn [set_last_active u_id].
    now rewrite E.
  - intros H. simpl. rewrite E. now apply IH.
Qed.

Lemma found_mode_stats (Q : User -> Prop) mode st now :
  (forall u, Q u -> Q (set_last_active now u)) ->
  keeps (found Q) (update_user_mode_stats uid mode st now).
Proof.
  intros Hst db (c & u & Hc & Hfind & HQ). unfold update_user_mode_stats.
  rewrite Hc. cbn [snd].
  exists (upsert_last_active uid now c), (set_last_active now u).
  cbn [users_collection]. split; [reflexivity|].
  split; [now apply upsert_last_active_find | now apply Hst].
Qed.

Lemma snd_try_call {X Y} (f : DB -> X * DB) (y d : Y) db :
  snd (try_except (do! call f in ret y) d db) = snd (f db).
Proof.
  unfold try_except, bind, call, ret. destruct (f db). reflexivity.
Qed.

(** The weekly XP the leaderboard reads for a week. *)
Definition weekly_xp_of (week_key : string) (u : User) : Z :=
  match u_weekly_xp u with
  | Val weekly_xp_map => default 0 (weekly_xp_map !! week_key)
  | _ => 0
  end.

(** What the later steps of [save_user_progress] keep of the document. *)
Definition progress_saved (stars : Z) (weekly : field (gmap string Z))
    (u : User) : Prop :=
  u_total_stars u = Some stars /\ level_ok u /\ u_weekly_xp u = weekly.

Ltac stable_setter :=
  intros v v' HP Hf;
  repeat match type of Hf with
         | context [match ?x with _ => _ end] => destruct x; try discriminate
         | _ => progress unfold in_achievements, set_achievements in Hf
         end;
  injection Hf as <-; exact HP.

Lemma progress_saved_updates s w : updates_keep (found (progress_saved s w)) uid.
Proof.
  constructor; intros; apply found_update_one.
  - apply keeps_id_set_achievements.
  - unfold set_achievements. stable_setter.
  - apply keeps_id_set_badges_earned.
  - unfold set_badges_earned. stable_setter.
  - apply keeps_id_set_counter.
  - unfold set_counter. stable_setter.
  - apply keeps_id_set_daily_challenges.
  - unfold set_daily_challenges. stable_setter.
  - apply keeps_id_set_xp_level.
  - unfold set_xp_level. intros v v' (H1 & H2 & H3) [= <-].
    split; [exact H1|]. split; [reflexivity | exact H3].
  - apply keeps_id_set_login.
  - unfold set_login. stable_setter.
  - apply keeps_id_inc_counter.
  - unfold inc_counter. stable_setter.
Qed.

End Found.

Section ProgressAccounts.

Variable uid : string.

Lemma try_bind_ok {A B} (m : M A) (k : A -> M B) (d : B) db a db' :
  m db = (Some a, db') -> try_except (bind m k) d db = try_except (k a) d db'.
Proof. intros H. unfold try_except. now rewrite (bind_ok _ _ _ _ _ H). Qed.

Lemma try_bind_err {A B} (m : M A) (k : A -> M B) (d : B) db db' :
  m db = (None, db') -> snd (try_except (bind m k) d db) = db'.
Proof. intros H. unfold try_except. now rewrite (bind_err _ _ _ _ H). Qed.

Lemma update_user_xp_found db c u x st now :
  users_collection db = Some c ->
  List.find (has_id uid) c = Some u ->
  found uid (progress_saved st (u_weekly_xp u))
    (snd (update_user_xp uid x (calculate_level_from_xp x) (Some st) now db)).
Proof.
  intros Hc Hfind. unfold update_user_xp. rewrite Hc.
  destruct (update_one_run db c uid
              (set_xp_data x (calculate_level_from_xp x) (Some st) now)
              u _ Hc Hfind eq_refl eq_refl) as (c' & Hrun & Hfind').
  rewrite (try_bind_ok _ _ _ _ _ _ Hrun), snd_try_call.
  apply (check_and_award_badges_keeps _ uid (progress_saved_updates uid _ _)).
  eexists c', _. cbn [users_collection]. split; [reflexivity|].
  split; [exact Hfind'|]. repeat split.
Qed.

(** The map [update_weekly_xp] leaves under [weekly_xp]. *)
Definition weekly_after (xp_to_add : Z) (week_key : string)
    (w : field (gmap string Z)) : field (gmap string Z) :=
  if xp_to_add <=? 0 then w
  else
    match w with
    | Malformed => Malformed
    | Val m => Val (<[week_key := default 0 (m !! week_key) + xp_to_add]> m)
    | Absent => Val (<[week_key := 0 + xp_to_add]> ∅)
    end.

Lemma update_weekly_xp_found s w st wk db :
  found uid (progress_saved s w) db ->
  found uid (progress_saved s (weekly_after st wk w))
    (snd (update_weekly_xp uid st wk db)).
Proof.
  intros (c & u & Hc & Hfind & H1 & H2 & H3).
  unfold update_weekly_xp, weekly_after. rewrite Hc.
  destruct (st <=? 0); [exists c, u; cbn [snd]; repeat split; auto|].
  destruct (inc_weekly_xp wk st u) as [u'|] eqn:Hinc.
  - assert (Hid : u_id u' = u_id u) by exact (keeps_id_inc_weekly_xp _ _ _ _ Hinc).
    destruct (update_one_run db c uid _ u u' Hc Hfind Hinc Hid)
      as (c' & Hrun & Hfind').
    rewrite (try_bind_ok _ _ _ _ _ _ Hrun). cbn [try_except ret snd].
    exists c', u'. cbn [users_collection]. split; [reflexivity|].
    split; [exact Hfind'|]. unfold inc_weekly_xp in Hinc. subst w.
    destruct (u_weekly_xp u); try discriminate; injection Hinc as <-;
      repeat split; auto.
  - assert (Hw : w = Malformed).
    { unfold inc_weekly_xp in Hinc. subst w.
      destruct (u_weekly_xp u); [discriminate | reflexivity | discriminate]. }
    assert (Hrun : update_one uid (inc_weekly_xp wk st) db = (None, db)).
    { unfold update_one. rewrite Hc.
      assert (Hup : update_first uid (inc_weekly_xp wk st) c = None).
      { clear Hc. induction c as [|x rest IH]; [discriminate|].
        simpl in *. destruct (has_id uid x).
        - injection Hfind as ->. now rewrite Hinc.
        - now rewrite (IH Hfind). }
      now rewrite Hup. }
    rewrite (try_bind_err _ _ _ _ _ Hrun). rewrite Hw.
    exists c, u. repeat split; auto. congruence.
Qed.

Lemma weekly_after_value st wk u u' :
  u_weekly_xp u' = weekly_after st wk (u_weekly_xp u) ->
  u_weekly_xp u <> Malformed ->
  weekly_xp_of wk u' = weekly_xp_of wk u + Z.max 0 st.
Proof.
  unfold weekly_xp_of, weekly_after. intros -> Hw.
  destruct (Z.leb_spec st 0); [destruct (u_weekly_xp u); lia|].
  destruct (u_weekly_xp u) as [| |m]; [|contradiction|].
  - rewrite lookup_insert_eq. simpl. lia.
  - rewrite lookup_insert_eq. destruct (m !! wk); simpl; lia.
Qed.

(** X11. What saving progress stores for the student. For a stored user
    [save_user_progress] returns the level of the new XP next to the
    stored level, with [leveled_up] their comparison; afterwards the
    stored [total_stars] is the old value plus [stars_earned], the stored
    level is the level of the stored XP (whatever it was before), and,
    when [weekly_xp] is a map, this week's entry has grown by
    [stars_earned] if that is positive and not at all otherwise (XP from
    completed challenges is not counted in it). For an unknown user
    the answer is [None] and the store is unchanged. *)
Theorem save_user_progress_accounts db stars_earned mode now week_key :
  let r := save_user_progress uid stars_earned mode now week_key db in
  match fst (get_user_by_id uid db) with
  | Some u =>
      let new_level :=
        calculate_level_from_xp (default 0 (u_total_xp u) + stars_earned) in
      let old_level := default 1 (u_level u) in
      fst r = Some (mkLevelInfo (new_level >? old_level) new_level old_level)
      /\ found uid
           (fun u' =>
              u_total_stars u'
              = Some (default 0 (u_total_stars u) + stars_earned)
              /\ level_ok u'
              /\ (u_weekly_xp u <> Malformed ->
                  weekly_xp_of week_key u'
                  = weekly_xp_of week_key u + Z.max 0 stars_earned))
           (snd r)
  | None => r = (None, db)
  end.
Proof.
  cbv zeta. rewrite save_user_progress_unfold.
  destruct (fst (get_user_by_id uid db)) as [u|] eqn:Hg; [|reflexivity].
  rewrite get_user_by_id_value in Hg.
  destruct (users_collection db) as [c|] eqn:Hc; [|discriminate].
  cbv zeta. cbn [fst snd]. split; [reflexivity|].
  set (s := default 0 (u_total_stars u) + stars_earned).
  set (w := weekly_after stars_earned week_key (u_weekly_xp u)).
  enough (H : found uid (progress_saved s w)
                (track_mode uid mode stars_earned week_key
                   (snd (update_user_mode_stats uid mode stars_earned now
                      (snd (update_weekly_xp uid stars_earned week_key
                         (snd (update_user_xp uid
                                 (default 0 (u_total_xp u) + stars_earned)
                                 (calculate_level_from_xp
                                    (default 0 (u_total_xp u) + stars_earned))
                                 (Some s) now db)))))))).
  { destruct H as (c' & u' & Hc' & Hfind' & H1 & H2 & H3).
    exists c', u'. repeat split; auto.
    intros Hw. now apply weekly_after_value. }
  apply (track_mode_keeps _ uid (progress_saved_updates uid s w)).
  apply found_mode_stats; [intros v Hv; exact Hv|].
  apply update_weekly_xp_found.
  now apply update_user_xp_found with (c := c).
Qed.

End ProgressAccounts.

(** *** Login streak and activity counters *)

Section Counters.

Variable uid : string.

(** [achievements.get(key, 0)] on what the functions take for the
    achievements: the stored document, or the default one. *)
Definition counter_of (key : string) (u : User) : Z :=
  default 0 (counters (base_achievements (u_achievements u)) !! key).

Definition last_login_of (u : User) : option string :=
  last_login (base_achievements (u_achievements u)).

Lemma awarded_counter u key : counter_of key (awarded u) = counter_of key u.
Proof.
  unfold awarded, counter_of.
  destruct (is_nil (new_badges_of u));
    destruct (u_achievements u) as [| |a] eqn:Ha; simpl;
    unfold set_badges_earned, in_achievements; simpl; rewrite ?Ha; simpl;
    try reflexivity;
    now rewrite ?lookup_empty, ?init_counters_zero.
Qed.

Lemma awarded_last_login u : last_login_of (awarded u) = last_login_of u.
Proof.
  unfold awarded, last_login_of.
  destruct (is_nil (new_badges_of u));
    destruct (u_achievements u) as [| |a] eqn:Ha; simpl;
    unfold set_badges_earned, in_achievements; simpl; rewrite ?Ha; simpl;
    reflexivity.
Qed.

(** An update followed by the badge evaluation, as the last steps of a
    function. *)
Lemma update_then_award {Y} (Q : User -> Prop) f (y d : Y) db c u u' :
  users_collection db = Some c ->
  List.find (has_id uid) c = Some u ->
  f u = Some u' -> u_id u' = u_id u ->
  Q (awarded u') ->
  found uid Q
    (snd (try_except
            (do! update_one uid f in
             do! call (check_and_award_badges uid) in ret y) d db)).
Proof.
  intros Hc Hfind Hf Hid HQ.
  destruct (update_one_run db c uid f u u' Hc Hfind Hf Hid)
    as (c' & Hrun & Hfind').
  rewrite (try_bind_ok _ _ _ _ _ _ Hrun), snd_try_call.
  destruct (check_and_award_run c' (conversations_collection db) uid u' Hfind')
    as (c'' & Hrun' & Hfind'' & _).
  rewrite Hrun'. exists c'', (awarded u'). cbn [snd users_collection]. auto.
Qed.

(** The steps of [update_login_streak] once the achievements are read. *)
Definition login_steps (achievements : Achievements) (today yesterday : string)
  : M unit :=
  let last_login := last_login achievements in
  if bool_decide (last_login = Some today) then ret tt
  else
    let streak :=
      default 0 (counters achievements !! "daily_login_streak"%string) in
    let streak :=
      if bool_decide (last_login = Some yesterday) then streak + 1 else 1 in
    let max_streak :=
      Z.max streak
        (default 0 (counters achievements !! "max_login_streak"%string)) in
    do! update_one uid (set_login streak max_streak today) in
    do! call (check_and_award_badges uid) in
    ret tt.

(** What a login on a new day stores. *)
Definition login_recorded (u : User) (today yesterday : string) (u' : User)
  : Prop :=
  counter_of "daily_login_streak" u'
  = (if bool_decide (last_login_of u = Some yesterday)
     then counter_of "daily_login_streak" u + 1 else 1)
  /\ counter_of "max_login_streak" u'
     = Z.max (counter_of "daily_login_streak" u')
         (counter_of "max_login_streak" u)
  /\ last_login_of u' = Some today.

Lemma login_steps_run db c u0 u today yesterday :
  users_collection db = Some c ->
  List.find (has_id uid) c = Some u0 ->
  u_achievements u0 <> Malformed ->
  base_achievements (u_achievements u0) = base_achievements (u_achievements u) ->
  last_login_of u <> Some today ->
  found uid (login_recorded u today yesterday)
    (snd (try_except
            (login_steps (base_achievements (u_achievements u)) today yesterday)
            tt db)).
Proof.
  intros Hc Hfind Hwf Hbase Hnew. unfold login_steps.
  fold (last_login_of u). rewrite (bool_decide_eq_false_2 _ Hnew). cbv zeta.
  fold (counter_of "daily_login_streak" u) (counter_of "max_login_streak" u).
  set (streak := if bool_decide (last_login_of u = Some yesterday)
                 then counter_of "daily_login_streak" u + 1 else 1).
  set (mx := Z.max streak (counter_of "max_login_streak" u)).
  destruct (set_login streak mx today u0) as [u1|] eqn:Hset.
  2:{ unfold set_login, in_achievements, set_achievements in Hset.
      destruct (u_achievements u0); [discriminate | contradiction | discriminate]. }
  apply update_then_award with (c := c) (u := u0) (u' := u1); auto.
  - exact (keeps_id_set_login _ _ _ _ _ Hset).
  - unfold login_recorded. rewrite !awarded_counter, awarded_last_login.
    unfold set_login, in_achievements, set_achievements in Hset.
    destruct (u_achievements u0) as [| |a0]; [|contradiction|];
      injection Hset as <-; unfold counter_of, last_login_of;
      cbn [u_achievements base_achievements counters last_login];
      rewrite lookup_insert_ne by discriminate;
      rewrite !lookup_insert_eq; repeat split; reflexivity.
Qed.

(** X12. The login streak. For a stored user, [update_login_streak] does
    nothing when the last login recorded is today; otherwise it records
    today as the last login, sets the daily streak to the old one plus 1
    when the last login was yesterday and to 1 when it was not, and sets
    the maximal streak to the larger of the new streak and the old
    maximum. Missing achievements count as the default ones, and
    achievements that are not a document are first replaced by them. For
    an unknown user the store is unchanged. *)
Theorem login_streak_recorded db today yesterday :
  match fst (get_user_by_id uid db) with
  | Some u =>
      if bool_decide (last_login_of u = Some today)
      then update_login_streak uid today yesterday db = (tt, db)
      else found uid (login_recorded u today yesterday)
             (snd (update_login_streak uid today yesterday db))
  | None => update_login_streak uid today yesterday db = (tt, db)
  end.
Proof.
  rewrite get_user_by_id_value. unfold update_login_streak.
  destruct (users_collection db) as [c|] eqn:Hc; [|reflexivity].
  rewrite (try_bind_ok _ _ _ _ _ _ (find_one_run db c uid Hc)).
  destruct (List.find (has_id uid) c) as [u|] eqn:Hfind; [|reflexivity].
  change (if bool_decide (last_login_of u = Some today)
          then
            try_except
              (let! achievements :=
                 match u_achievements u with
                 | Absent => ret init_user_achievements
                 | Val a => ret a
                 | Malformed =>
                     do! update_one uid
                           (set_achievements init_user_achievements) in
                     ret init_user_achievements
                 end in
               login_steps achievements today yesterday) tt db = (tt, db)
          else
            found uid (login_recorded u today yesterday)
              (snd (try_except
                      (let! achievements :=
                         match u_achievements u with
                         | Absent => ret init_user_achievements
                         | Val a => ret a
                         | Malformed =>
                             do! update_one uid
                                   (set_achievements init_user_achievements) in
                             ret init_user_achievements
                         end in
                       login_steps achievements today yesterday) tt db))).
  destruct (u_achievements u) as [| |a] eqn:Ha.
  - (* no achievements stored *)
    rewrite (try_bind_ok _ _ _ _ _ _ (eq_refl : ret _ db = (Some _, db))).
    case_bool_decide as Hl.
    + unfold login_steps. unfold last_login_of in Hl. rewrite Ha in Hl.
      discriminate Hl.
    + pose proof (login_steps_run db c u u today yesterday Hc Hfind) as H.
      rewrite Ha in H. apply H; [discriminate | reflexivity | exact Hl].
  - (* not a document: replaced first *)
    destruct (update_one_run db c uid (set_achievements init_user_achievements)
                u _ Hc Hfind eq_refl eq_refl) as (c' & Hrun & Hfind').
    rewrite (try_bind_ok _ _ _ _ _ _
               (bind_ok _ (fun _ => ret init_user_achievements) _ _ _ Hrun)).
    case_bool_decide as Hl.
    + unfold last_login_of in Hl. rewrite Ha in Hl. discriminate Hl.
    + pose proof (login_steps_run
                    (mkDB (Some c') (conversations_collection db)) c' _ u
                    today yesterday eq_refl Hfind') as H.
      rewrite Ha in H. apply H; [discriminate | reflexivity | exact Hl].
  - rewrite (try_bind_ok _ _ _ _ _ _ (eq_refl : ret _ db = (Some _, db))).
    case_bool_decide as Hl.
    + unfold login_steps. unfold last_login_of in Hl. rewrite Ha in Hl.
      cbn [base_achievements] in Hl. rewrite (bool_decide_eq_true_2 _ Hl).
      reflexivity.
    + pose proof (login_steps_run db c u u today yesterday Hc Hfind) as H.
      rewrite Ha in H. apply H; [discriminate | reflexivity | exact Hl].
Qed.

End Counters.

Section Activity.

Variable uid : string.

Lemma update_first_missing f c :
  List.find (has_id uid) c = None -> update_first uid f c = Some c.
Proof.
  induction c as [|x rest IH]; [reflexivity|]. simpl.
  destruct (has_id uid x); [discriminate|]. intros H. now rewrite (IH H).
Qed.

Lemma update_first_refused f c u :
  List.find (has_id uid) c = Some u -> f u = None ->
  update_first uid f c = None.
Proof.
  induction c as [|x rest IH]; [discriminate|]. simpl.
  destruct (has_id uid x).
  - intros [= ->] Hf. now rewrite Hf.
  - intros H Hf. now rewrite (IH H Hf).
Qed.

Lemma update_one_missing f db c :
  users_collection db = Some c ->
  List.find (has_id uid) c = None ->
  update_one uid f db = (Some tt, db).
Proof.
  intros Hc Hfind. unfold update_one.
  rewrite Hc, (update_first_missing f c Hfind). destruct db as [uc cc].
  cbn in *. now subst.
Qed.

Lemma update_one_refused f db c u :
  users_collection db = Some c ->
  List.find (has_id uid) c = Some u -> f u = None ->
  update_one uid f db = (None, db).
Proof.
  intros Hc Hfind Hf. unfold update_one.
  now rewrite Hc, (update_first_refused f c u Hfind Hf).
Qed.

Lemma check_and_award_missing db c :
  users_collection db = Some c ->
  List.find (has_id uid) c = None ->
  check_and_award_badges uid db = ([], db).
Proof.
  intros Hc Hfind. unfold check_and_award_badges. rewrite Hc.
  rewrite (try_bind_ok _ _ _ _ _ _ (find_one_run db c uid Hc)), Hfind.
  reflexivity.
Qed.

(** What [increment_activity] stores: the counter of the activity grown
    by the amount, the other counters as they were. *)
Definition activity_recorded (u : User) (key : string) (amount : Z) (u' : User)
  : Prop :=
  counter_of key u' = counter_of key u + amount
  /\ forall other, other <> key -> counter_of other u' = counter_of other u.

(** X13. Activity counters. For a stored user whose achievements are a
    document or missing, [increment_activity] adds [amount] to the counter
    [<activity_type>_count] (a missing counter counts from 0) and leaves
    every other counter as it was, also through the badge evaluation that
    follows. When the achievements are not a document the write is
    refused and nothing is stored; for an unknown user the store is
    unchanged. *)
Theorem activity_counted db activity_type amount :
  let key := (activity_type ++ "_count")%string in
  match fst (get_user_by_id uid db) with
  | Some u =>
      match u_achievements u with
      | Malformed => increment_activity uid activity_type amount db = (tt, db)
      | _ =>
          found uid (activity_recorded u key amount)
            (snd (increment_activity uid activity_type amount db))
      end
  | None => increment_activity uid activity_type amount db = (tt, db)
  end.
Proof.
  cbv zeta. rewrite get_user_by_id_value. unfold increment_activity.
  destruct (users_collection db) as [c|] eqn:Hc; [|reflexivity].
  cbv zeta. set (key := (activity_type ++ "_count")%string).
  destruct (List.find (has_id uid) c) as [u|] eqn:Hfind.
  - assert (Hok : u_achievements u <> Malformed ->
               found uid (activity_recorded u key amount)
                 (snd (try_except
                         (do! update_one uid (inc_counter key amount) in
                          do! call (check_and_award_badges uid) in ret tt)
                         tt db))).
    { intros Hwf.
      destruct (inc_counter key amount u) as [u'|] eqn:Hinc.
      2:{ unfold inc_counter, in_achievements, set_achievements in Hinc.
          destruct (u_achievements u);
            [discriminate | contradiction | discriminate]. }
      apply update_then_award with (c := c) (u := u) (u' := u'); auto.
      - exact (keeps_id_inc_counter _ _ _ _ Hinc).
      - unfold activity_recorded.
        setoid_rewrite awarded_counter. unfold counter_of.
        unfold inc_counter, in_achievements, set_achievements in Hinc.
        destruct (u_achievements u) as [| |a0] eqn:Ha; [|contradiction|];
          injection Hinc as <-;
          cbn [u_achievements base_achievements counters empty_achievements].
        + rewrite lookup_insert_eq, lookup_empty, init_counters_zero.
          split; [reflexivity|]. intros other Hne.
          rewrite lookup_insert_ne by congruence.
          now rewrite lookup_empty, init_counters_zero.
        + rewrite lookup_insert_eq. split; [reflexivity|].
          intros other Hne. now rewrite lookup_insert_ne by congruence. }
    destruct (u_achievements u) as [| |a] eqn:Ha.
    + apply Hok. discriminate.
    + assert (Hinc : inc_counter key amount u = None)
        by (unfold inc_counter, in_achievements; now rewrite Ha).
      unfold try_except.
      rewrite (bind_err _ _ _ _
                 (update_one_refused (inc_counter key amount) db c u Hc Hfind
                    Hinc)).
      reflexivity.
    + apply Hok. discriminate.
  - unfold try_except.
    rewrite (bind_ok _ _ _ _ _ (update_one_missing _ db c Hc Hfind)).
    rewrite (bind_ok _ _ _ _ _
               (call_run _ _ _ _ (check_and_award_missing db c Hc Hfind))).
    reflexivity.
Qed.

End Activity.

Section WeeklyXp.

Variable uid : string.

(** What [update_weekly_xp] stores: the amount added to this week's
    entry, the entries of the other weeks as they were. *)
Definition weekly_recorded (u : User) (week_key : string) (xp_to_add : Z)
    (u' : User) : Prop :=
  weekly_xp_of week_key u' = weekly_xp_of week_key u + xp_to_add
  /\ forall other, other <> week_key ->
       weekly_xp_of other u' = weekly_xp_of other u.

(** X14. Weekly XP. [update_weekly_xp] stores nothing for an amount that
    is zero or negative; for a positive amount and a stored user whose
    [weekly_xp] is a map or missing it adds the amount to the entry of
    the current week (counted from 0 when missing) and leaves the entries
    of all other weeks as they were. When [weekly_xp] is not a map the
    write is refused and nothing is stored; for an unknown user the store
    is unchanged. *)
Theorem weekly_xp_added db xp_to_add week_key :
  match fst (get_user_by_id uid db) with
  | Some u =>
      if xp_to_add <=? 0
      then update_weekly_xp uid xp_to_add week_key db = (tt, db)
      else
        match u_weekly_xp u with
        | Malformed => update_weekly_xp uid xp_to_add week_key db = (tt, db)
        | _ =>
            found uid (weekly_recorded u week_key xp_to_add)
              (snd (update_weekly_xp uid xp_to_add week_key db))
        end
  | None => update_weekly_xp uid xp_to_add week_key db = (tt, db)
  end.
Proof.
  rewrite get_user_by_id_value. unfold update_weekly_xp.
  destruct (users_collection db) as [c|] eqn:Hc; [|reflexivity].
  destruct (List.find (has_id uid) c) as [u|] eqn:Hfind.
  - destruct (xp_to_add <=? 0); [reflexivity|].
    assert (Hok : forall u',
               inc_weekly_xp week_key xp_to_add u = Some u' ->
               weekly_recorded u week_key xp_to_add u' ->
               found uid (weekly_recorded u week_key xp_to_add)
                 (snd (try_except
                         (do! update_one uid
                                (inc_weekly_xp week_key xp_to_add) in ret tt)
                         tt db))).
    { intros u' Hinc HQ.
      destruct (update_one_run db c uid _ u u' Hc Hfind Hinc
                  (keeps_id_inc_weekly_xp _ _ _ _ Hinc))
        as (c' & Hrun & Hfind').
      rewrite (try_bind_ok _ _ _ _ _ _ Hrun). cbn [try_except ret snd].
      exists c', u'. cbn [users_collection]. auto. }
    destruct (u_weekly_xp u) as [| |m] eqn:Hw.
    + eapply Hok; [unfold inc_weekly_xp; rewrite Hw; reflexivity|].
      unfold weekly_recorded, weekly_xp_of. cbn [u_weekly_xp]. rewrite Hw.
      rewrite lookup_insert_eq, lookup_empty. split; [reflexivity|].
      intros other Hne. rewrite lookup_insert_ne by congruence.
      now rewrite lookup_empty.
    + assert (Hinc : inc_weekly_xp week_key xp_to_add u = None)
        by (unfold inc_weekly_xp; now rewrite Hw).
      unfold try_except.
      rewrite (bind_err _ _ _ _
                 (update_one_refused uid _ db c u Hc Hfind Hinc)).
      reflexivity.
    + eapply Hok; [unfold inc_weekly_xp; rewrite Hw; reflexivity|].
      unfold weekly_recorded, weekly_xp_of. cbn [u_weekly_xp]. rewrite Hw.
      rewrite lookup_insert_eq. split; [reflexivity|].
      intros other Hne. now rewrite lookup_insert_ne by congruence.
  - destruct (xp_to_add <=? 0); [reflexivity|]. unfold try_except.
    rewrite (bind_ok _ _ _ _ _ (update_one_missing uid _ db c Hc Hfind)).
    reflexivity.
Qed.

End WeeklyXp.

Section StoredChallenges.

Lemma current_challenges_week stored wk :
  week (current_challenges stored wk) = wk.
Proof.
  unfold current_challenges. destruct stored as [cs|]; [|reflexivity].
  destruct (String.eqb_spec (week cs) wk); [assumption | reflexivity].
Qed.

Lemma current_challenges_ok stored wk :
  (forall cs, stored = Some cs -> week cs = wk -> challenges_ok cs) ->
  challenges_ok (current_challenges stored wk).
Proof.
  intros H. unfold current_challenges. destruct stored as [cs|];
    [|apply fresh_challenges_ok].
  destruct (String.eqb_spec (week cs) wk);
    [now apply H | apply fresh_challenges_ok].
Qed.

Lemma advance_challenges_week cs ctype increment :
  week (fst (advance_challenges cs ctype increment)) = week cs.
Proof.
  destruct cs as [w c1 c2 c3 n s]. unfold advance_challenges.
  destruct (type_map ctype) as [[| |]|]; cbn;
    repeat match goal with
           | |- context [if ?b then _ else _] => destruct b; cbn
           end; reflexivity.
Qed.

(** X15. The stored challenge set stays in order. For a stored user
    (with achievements that are a document or missing) whose challenge
    set of the current week, if there is one, is in order,
    [update_challenge_progress] stores a set of the current week that is
    in order again: progress within the targets, slots completed exactly
    at the target, [completed_today] the number of completed slots. The
    XP it returns is what it has added to the stored [total_xp]. *)
Theorem progress_keeps_challenges_ok coll convs uid u ctype increment wk :
  List.find (has_id uid) coll = Some u ->
  u_achievements u <> Malformed ->
  (forall cs, u_daily_challenges u = Some cs -> week cs = wk ->
              challenges_ok cs) ->
  exists xp_earned coll' u' cs',
    update_challenge_progress uid ctype increment wk (mkDB (Some coll) convs)
    = (xp_earned, mkDB (Some coll') convs)
    /\ List.find (has_id uid) coll' = Some u'
    /\ u_daily_challenges u' = Some cs'
    /\ week cs' = wk
    /\ challenges_ok cs'
    /\ default 0 (u_total_xp u') = default 0 (u_total_xp u) + Z.max 0 xp_earned.
Proof.
  intros Hfind Hwf Hok.
  destruct (update_challenge_progress_run coll convs uid u ctype increment wk
              Hfind Hwf) as (coll' & u' & Hrun & Hfind' & Hdc & Hxp).
  eexists _, coll', u', _. split; [exact Hrun|]. split; [exact Hfind'|].
  split; [exact Hdc|].
  split; [now rewrite advance_challenges_week, current_challenges_week|].
  split.
  - apply advance_challenges_ok, current_challenges_ok, Hok.
  - rewrite Hxp.
    destruct (Z.gtb_spec
                (snd (advance_challenges
                        (current_challenges (u_daily_challenges u) wk)
                        ctype increment)) 0); simpl; lia.
Qed.

(** X16. Fetching the challenges twice in a week. For a stored user
    (with achievements that are a document or missing) the second
    [get_daily_challenges] of the same week returns the set the first one
    returned, a set of that week, and stores nothing. *)
Theorem challenge_fetch_idempotent coll convs uid u wk :
  List.find (has_id uid) coll = Some u ->
  u_achievements u <> Malformed ->
  let first := get_daily_challenges uid wk (mkDB (Some coll) convs) in
  get_daily_challenges uid wk (snd first) = first
  /\ exists cs, fst first = Some cs /\ week cs = wk.
Proof.
  intros Hfind Hwf.
  destruct (get_daily_challenges_run coll convs uid u wk Hfind Hwf)
    as (coll' & u' & Hrun & Hfind' & Hdc & _).
  cbv zeta. rewrite Hrun. cbn [fst snd]. split.
  - apply (get_daily_challenges_current coll' convs uid u' _ wk Hfind' Hdc).
    apply current_challenges_week.
  - eexists. split; [reflexivity | apply current_challenges_week].
Qed.

End StoredChallenges.

Lemma progress_keeps_challenges_ok_witness :
  exists xp_earned coll' u' cs',
    update_challenge_progress "1234" "mastery" 3 example_week
      (mkDB (Some [example_student]) None)
    = (xp_earned, mkDB (Some coll') None)
    /\ List.find (has_id "1234") coll' = Some u'
    /\ u_daily_challenges u' = Some cs'
    /\ challenges_ok cs'.
Proof.
  destruct (progress_keeps_challenges_ok [example_student] None "1234"
              example_student "mastery" 3 example_week)
    as (xp & coll' & u' & cs' & Hrun & Hf & Hdc & _ & Hok & _).
  - reflexivity.
  - discriminate.
  - intros cs [= <-] Hweek. discriminate Hweek.
  - exists xp, coll', u', cs'. auto.
Defined.

Lemma challenge_fetch_idempotent_witness :
  let first :=
    get_daily_challenges "1234" example_week
      (mkDB (Some [example_student]) None) in
  get_daily_challenges "1234" example_week (snd first) = first.
Proof.
  destruct (challenge_fetch_idempotent [example_student] None "1234"
              example_student example_week) as (H & _).
  - reflexivity.
  - discriminate.
  - exact H.
Defined.

(** *** Transcripts *)

Section Transcripts.

Lemma stored_text_upsert_other uid uid' mode text now coll mode' :
  uid' <> uid ->
  stored_text uid' mode' (upsert_mode uid mode text now coll)
  = stored_text uid' mode' coll.
Proof.
  intros Hne. unfold stored_text. induction coll as [|d rest IH]; simpl.
  - unfold has_user_id. simpl.
    destruct (String.eqb_spec uid uid'); [congruence | reflexivity].
  - destruct (has_user_id uid d) eqn:Hd; simpl.
    + unfold has_user_id in *. simpl. apply String.eqb_eq in Hd.
      rewrite Hd. destruct (String.eqb_spec uid uid'); [congruence|].
      reflexivity.
    + destruct (has_user_id uid' d); [reflexivity | exact IH].
Qed.

Lemma stored_text_unset uid uid' mode coll mode' :
  stored_text uid' mode' (unset_first uid mode coll)
  = if String.eqb uid' uid && String.eqb mode' mode then EmptyString
    else stored_text uid' mode' coll.
Proof.
  unfold stored_text. induction coll as [|d rest IH]; simpl.
  - now destruct (String.eqb uid' uid && String.eqb mode' mode).
  - destruct (has_user_id uid d) eqn:Hd; simpl.
    + unfold has_user_id in *. simpl. apply String.eqb_eq in Hd. rewrite Hd.
      rewrite (String.eqb_sym uid' uid).
      destruct (String.eqb_spec uid uid') as [->|Hne]; simpl; [|reflexivity].
      destruct (cd_conversations d) as [m|]; simpl.
      * destruct (String.eqb_spec mode' mode) as [->|Hm].
        -- now rewrite lookup_delete_eq.
        -- now rewrite lookup_delete_ne by congruence.
      * now destruct (String.eqb mode' mode).
    + destruct (has_user_id uid' d) eqn:Hd'; [|exact IH].
      unfold has_user_id in *. apply String.eqb_eq in Hd'.
      apply String.eqb_neq in Hd.
      destruct (String.eqb_spec uid' uid) as [->|_]; [congruence|].
      reflexivity.
Qed.

Lemma delete_conversation_run users coll uid mode :
  delete_conversation uid mode (mkDB users (Some coll))
  = (true, mkDB users (Some (unset_first uid mode coll))).
Proof. reflexivity. Qed.

Lemma unset_first_length uid mode coll :
  length (unset_first uid mode coll) = length coll.
Proof.
  induction coll as [|d rest IH]; [reflexivity|]. simpl.
  destruct (has_user_id uid d); simpl; [reflexivity | now rewrite IH].
Qed.

(** X17. Transcripts of different users are apart: saving or deleting a
    transcript of one user leaves every transcript of any other user,
    under every mode, as it was, and leaves the users collection
    untouched. *)
Theorem transcripts_of_users_apart db uid uid' mode mode' text now :
  plain_key mode = true ->
  uid' <> uid ->
  let saved := snd (save_conversation uid mode text now db) in
  let deleted := snd (delete_conversation uid mode db) in
  fst (get_conversation uid' mode' saved) = fst (get_conversation uid' mode' db)
  /\ fst (get_conversation uid' mode' deleted)
     = fst (get_conversation uid' mode' db)
  /\ users_collection saved = users_collection db
  /\ users_collection deleted = users_collection db.
Proof.
  intros _ Hne. destruct db as [users [coll|]]; [|repeat split].
  cbv zeta. rewrite save_conversation_run, delete_conversation_run.
  cbn [snd users_collection]. rewrite !get_conversation_run. cbn [fst].
  rewrite stored_text_upsert_other by exact Hne. rewrite stored_text_unset.
  destruct (String.eqb_spec uid' uid); [congruence|]. repeat split.
Qed.

(** X18. Deleting a transcript. After [delete_conversation] the
    transcript of the user under the mode reads as the empty string, what
    is stored under the user's other modes is as before, and no document
    is added or removed; the answer is [True] whenever the collection is
    there, also for a user without transcripts, and [False] with an
    unchanged store when it is not. *)
Theorem delete_conversation_clears db uid mode mode' :
  plain_key mode = true ->
  let r := delete_conversation uid mode db in
  fst (get_conversation uid mode (snd r)) = EmptyString
  /\ (mode' <> mode ->
      fst (get_conversation uid mode' (snd r))
      = fst (get_conversation uid mode' db))
  /\ match conversations_collection db with
     | Some coll =>
         fst r = true
         /\ (length <$> conversations_collection (snd r)) = Some (length coll)
     | None => r = (false, db)
     end.
Proof.
  intros _. destruct db as [users [coll|]]; [|repeat split].
  cbv zeta. rewrite delete_conversation_run. cbn [fst snd].
  rewrite !get_conversation_run. cbn [fst conversations_collection].
  rewrite !stored_text_unset, String.eqb_refl. cbn [andb].
  rewrite String.eqb_refl. split; [reflexivity|]. split.
  - intros Hne. destruct (String.eqb_spec mode' mode); [congruence|reflexivity].
  - split; [reflexivity|]. cbn. now rewrite unset_first_length.
Qed.

Lemma trimmed_idempotent mode text :
  trimmed mode (trimmed mode text) = trimmed mode text.
Proof.
  destruct (trimmed_lines mode text) as (Hlen & _).
  destruct (trimmed_lines mode (trimmed mode text)) as (_ & _ & Hsame).
  cbv zeta in *. now apply Hsame.
Qed.

(** X19. Saving a stored transcript again. What [get_conversation]
    returns after a save is a fixed point of the trimming: saving it
    again under the same mode stores the same text, so a transcript that
    is read and written back never shrinks further. *)
Theorem save_conversation_round_trip db uid mode text now now' :
  plain_key mode = true ->
  conversations_collection db <> None ->
  let db1 := snd (save_conversation uid mode text now db) in
  let stored := fst (get_conversation uid mode db1) in
  stored = trimmed mode text
  /\ fst (get_conversation uid mode
            (snd (save_conversation uid mode stored now' db1)))
     = stored.
Proof.
  intros _ Hc. destruct db as [users [coll|]]; [|contradiction].
  cbv zeta. rewrite save_conversation_run. cbn [snd].
  rewrite get_conversation_run. cbn [fst].
  rewrite save_conversation_run. cbn [snd].
  rewrite get_conversation_run. cbn [fst].
  rewrite !stored_text_upsert, String.eqb_refl.
  split; [reflexivity | apply trimmed_idempotent].
Qed.

End Transcripts.

Lemma transcripts_of_users_apart_witness :
  let db := snd (save_conversation "1234" "conversation" "Student: hi"
                   example_now (mkDB None (Some []))) in
  fst (get_conversation "1234" "conversation"
         (snd (save_conversation "77" "conversation" "Student: hello"
                 example_now db)))
  = "Student: hi"%string.
Proof.
  intros db.
  destruct (transcripts_of_users_apart db "77" "1234" "conversation"
              "conversation" "Student: hello" example_now) as (H & _).
  - reflexivity.
  - discriminate.
  - rewrite H. reflexivity.
Defined.

Lemma delete_conversation_clears_witness :
  let db := snd (save_conversation "1234" "conversation" "Student: hi"
                   example_now (mkDB None (Some []))) in
  fst (get_conversation "1234" "conversation"
         (snd (delete_conversation "1234" "conversation" db)))
  = EmptyString.
Proof.
  intros db.
  destruct (delete_conversation_clears db "1234" "conversation" "roleplay")
    as (H & _).
  - reflexivity.
  - exact H.
Defined.

Lemma save_conversation_round_trip_witness :
  let db := mkDB None (Some []) in
  let db1 := snd (save_conversation "1234" "roleplay" "Student: hi"
                    example_now db) in
  fst (get_conversation "1234" "roleplay"
         (snd (save_conversation "1234" "roleplay"
                 (fst (get_conversation "1234" "roleplay" db1))
                 example_now db1)))
  = fst (get_conversation "1234" "roleplay" db1).
Proof.
  intros db db1.
  destruct (save_conversation_round_trip db "1234" "roleplay" "Student: hi"
              example_now example_now) as (_ & H).
  - reflexivity.
  - discriminate.
  - exact H.
Defined.

(** *** Accounts *)

Section Accounts.

Variable generate_password_hash : string -> string -> string.
Variable check_password_hash : string -> string -> option bool.

(** What the credential verifier guarantees: a hash checks against the
    text it was made from. *)
Hypothesis check_generated :
  forall salt plain_text,
    check_password_hash (generate_password_hash salt plain_text) plain_text
    = Some true.

Lemma find_app_new o coll user :
  List.find (has_id o) (coll ++ [user])
  = match List.find (has_id o) coll with
    | Some u => Some u
    | None => if has_id o user then Some user else None
    end.
Proof.
  induction coll as [|x rest IH]; simpl; [reflexivity|].
  destruct (has_id o x); [reflexivity | exact IH].
Qed.

(** The password stored for a user checks against a text. *)
Definition password_accepts (plain_text : string) (u : User) : Prop :=
  exists stored,
    u_password u = Some stored
    /\ check_pw check_password_hash stored plain_text = true.

(** X20. Signing up. With the collection available and an identifier
    that is not stored yet, [create_user] appends one document and
    returns it; [get_user_by_id] then returns that document, every other
    lookup gives what it gave before, the stored password is the hash,
    which checks against the password given, and the new user starts
    with the level of its XP. With the identifier already stored, or
    without the collection, it returns [None] and stores nothing. *)
Theorem create_user_round_trip db uid username password user_type salt now :
  let r :=
    create_user generate_password_hash uid username password user_type salt
      now db in
  match users_collection db with
  | None => r = (None, db)
  | Some coll =>
      match List.find (has_id uid) coll with
      | Some _ => r = (None, db)
      | None =>
          exists user,
            r = (Some user,
                 mkDB (Some (coll ++ [user])) (conversations_collection db))
            /\ fst (get_user_by_id uid (snd r)) = Some user
            /\ (forall o, o <> uid ->
                  fst (get_user_by_id o (snd r)) = fst (get_user_by_id o db))
            /\ u_id user = uid
            /\ u_username user = Some username
            /\ u_user_type user = Some user_type
            /\ password_accepts password user
            /\ level_ok user
      end
  end.
Proof.
  cbv zeta. unfold create_user, try_except, bind, insert_one.
  destruct (users_collection db) as [coll|] eqn:Hc; [|reflexivity].
  cbn [u_id].
  destruct (List.find (has_id uid) coll) as [old|] eqn:Hfind; [reflexivity|].
  eexists. split; [reflexivity|]. cbn [snd ret].
  split.
  { rewrite get_user_by_id_value. cbn [users_collection].
    rewrite find_app_new, Hfind. unfold has_id. cbn [u_id].
    now rewrite String.eqb_refl. }
  split.
  { intros o Ho. rewrite !get_user_by_id_value. cbn [users_collection].
    rewrite Hc, find_app_new.
    destruct (List.find (has_id o) coll); [reflexivity|].
    unfold has_id. cbn [u_id].
    destruct (String.eqb_spec uid o); [congruence | reflexivity]. }
  repeat (split; [reflexivity|]). split.
  - eexists. split; [reflexivity|]. unfold check_pw, hash_password.
    now rewrite check_generated.
  - vm_compute. reflexivity.
Qed.

Lemma keeps_id_set_password h : keeps_id (set_password h).
Proof. intros v v' [= <-]. reflexivity. Qed.

(** X21. Resetting a password. For a stored user
    [reset_student_password_by_security] stores the hash of the new
    password, which checks against it, and leaves the user name, the
    security question and answer, the XP and the level of the document as
    they were. It answers [True] whenever the collection is there, also
    for an unknown user, for whom nothing is stored. *)
Theorem password_reset_round_trip db uid new_password salt :
  let r :=
    reset_student_password_by_security generate_password_hash uid new_password
      salt db in
  match fst (get_user_by_id uid db) with
  | Some u =>
      fst r = true
      /\ found uid
           (fun u' =>
              password_accepts new_password u'
              /\ u_username u' = u_username u
              /\ u_security_question u' = u_security_question u
              /\ u_security_answer u' = u_security_answer u
              /\ u_total_xp u' = u_total_xp u
              /\ u_level u' = u_level u)
           (snd r)
  | None =>
      r = (match users_collection db with Some _ => true | None => false end,
           db)
  end.
Proof.
  cbv zeta. rewrite get_user_by_id_value.
  unfold reset_student_password_by_security.
  destruct (users_collection db) as [c|] eqn:Hc; [|reflexivity].
  destruct (List.find (has_id uid) c) as [u|] eqn:Hfind.
  - destruct (update_one_run db c uid
                (set_password
                   (hash_password generate_password_hash salt new_password))
                u _ Hc Hfind eq_refl eq_refl) as (c' & Hrun & Hfind').
    rewrite (try_bind_ok _ _ _ _ _ _ Hrun). cbn [try_except ret fst snd].
    split; [reflexivity|]. eexists c', _. cbn [users_collection].
    split; [reflexivity|]. split; [exact Hfind'|].
    split; [|repeat split].
    eexists. split; [reflexivity|]. unfold check_pw, hash_password.
    now rewrite check_generated.
  - unfold try_except.
    rewrite (bind_ok _ _ _ _ _ (update_one_missing uid _ db c Hc Hfind)).
    reflexivity.
Qed.

End Accounts.

Section Removal.

Lemma find_not_stored o coll :
  ~ In o (map u_id coll) -> List.find (has_id o) coll = None.
Proof.
  intros Hnot. destruct (List.find (has_id o) coll) as [u|] eqn:Hfind;
    [|reflexivity].
  exfalso. apply Hnot. apply find_some in Hfind as [Hin Hid].
  apply String.eqb_eq in Hid. rewrite <- Hid. now apply in_map.
Qed.

Lemma delete_first_other uid o coll :
  o <> uid ->
  List.find (has_id o) (delete_first uid coll) = List.find (has_id o) coll.
Proof.
  intros Hne. induction coll as [|x rest IH]; [reflexivity|]. simpl.
  destruct (has_id uid x) eqn:Hx.
  - unfold has_id in *. apply String.eqb_eq in Hx. rewrite Hx.
    destruct (String.eqb_spec uid o); [congruence | reflexivity].
  - simpl. destruct (has_id o x); [reflexivity | exact IH].
Qed.

Lemma delete_first_gone uid coll :
  List.NoDup (map u_id coll) ->
  List.find (has_id uid) (delete_first uid coll) = None.
Proof.
  induction coll as [|x rest IH]; [reflexivity|]. simpl. intros Hnd.
  apply List.NoDup_cons_iff in Hnd as [Hnot Hnd].
  destruct (has_id uid x) eqn:Hx.
  - unfold has_id in Hx. apply String.eqb_eq in Hx. rewrite Hx in Hnot.
    now apply find_not_stored.
  - simpl. rewrite Hx. now apply IH.
Qed.

(** X22. Removing a user. With the identifiers of the stored documents
    distinct, as the store keeps them, after [delete_user] the user is not
    found any more, every other lookup gives what it gave before, and the
    transcripts are all still there (those of the removed user too); the
    answer is [True], also when there was no such user. *)
Theorem delete_user_removes db uid coll :
  users_collection db = Some coll ->
  List.NoDup (map u_id coll) ->
  let r := delete_user uid db in
  fst r = true
  /\ fst (get_user_by_id uid (snd r)) = None
  /\ (forall o, o <> uid ->
        fst (get_user_by_id o (snd r)) = fst (get_user_by_id o db))
  /\ conversations_collection (snd r) = conversations_collection db
  /\ (List.find (has_id uid) coll = None -> snd r = db).
Proof.
  intros Hc Hnd. cbv zeta. unfold delete_user. rewrite Hc. cbn [fst snd].
  split; [reflexivity|]. split.
  { rewrite get_user_by_id_value. cbn [users_collection].
    now apply delete_first_gone. }
  split.
  { intros o Ho. rewrite !get_user_by_id_value. cbn [users_collection].
    rewrite Hc. now apply delete_first_other. }
  split; [reflexivity|].
  intros Hnone. destruct db as [uc cc]. cbn in *. subst uc. do 2 f_equal.
  clear Hnd. induction coll as [|x rest IH]; [reflexivity|]. simpl in *.
  destruct (has_id uid x); [discriminate|]. now rewrite (IH Hnone).
Qed.

End Removal.

Lemma create_user_round_trip_witness :
  exists user,
    create_user example_hash "77" "ravi" "secret" "student" "na" example_now
      example_db
    = (Some user,
       mkDB (Some (default [] (users_collection example_db) ++ [user]))
         (conversations_collection example_db))
    /\ password_accepts example_check "secret" user.
Proof.
  assert (forall salt p, example_check (example_hash salt p) p = Some true)
    as Hcheck by (intros salt p; simpl; now rewrite String.eqb_refl).
  pose proof (create_user_round_trip example_hash example_check Hcheck
                example_db "77" "ravi" "secret" "student" "na" example_now)
    as H.
  cbv zeta in H.
  change (users_collection example_db)
    with (Some (default [] (users_collection example_db))) in H.
  cbv beta iota in H.
  change (List.find (has_id "77") (default [] (users_collection example_db)))
    with (@None User) in H.
  cbv beta iota in H.
  destruct H as (user & Hrun & _ & _ & _ & _ & _ & Hpw & _).
  exists user. split; [exact Hrun | exact Hpw].
Defined.

Lemma password_reset_round_trip_witness :
  found "1234" (password_accepts example_check "new secret")
    (snd (reset_student_password_by_security example_hash "1234" "new secret"
            "na" (mkDB (Some [example_student]) None))).
Proof.
  assert (forall salt p, example_check (example_hash salt p) p = Some true)
    as Hcheck by (intros salt p; simpl; now rewrite String.eqb_refl).
  pose proof (password_reset_round_trip example_hash example_check Hcheck
                (mkDB (Some [example_student]) None) "1234" "new secret" "na")
    as H.
  cbv zeta in H.
  change (fst (get_user_by_id "1234" (mkDB (Some [example_student]) None)))
    with (Some example_student) in H.
  cbv beta iota in H.
  destruct H as (_ & c & u & Hc & Hfind & Hpw & _).
  exists c, u. auto.
Defined.

Lemma delete_user_removes_witness :
  fst (get_user_by_id "1234"
         (snd (delete_user "1234" (mkDB (Some [example_student]) None))))
  = None.
Proof.
  destruct (delete_user_removes (mkDB (Some [example_student]) None) "1234"
              [example_student]) as (_ & H & _).
  - reflexivity.
  - repeat constructor. intros [].
  - exact H.
Defined.

(** *** Mistake log *)

Section MistakeLog.

Definition has_md_id (uid : string) (d : MistakesDoc) : bool :=
  String.eqb (md_id d) uid.

(** [user.get('mistakes', {...})] for the stored user. *)
Definition mistakes_of (uid : string) (users : option (list MistakesDoc))
  : option Mistakes :=
  match users with
  | Some coll =>
      match List.find (has_md_id uid) coll with
      | Some d => Some (default default_mistakes (md_mistakes d))
      | None => None
      end
  | None => None
  end.

Lemma log_mistake_first_find uid f coll :
  List.find (has_md_id uid) (log_mistake_first uid f coll)
  = match List.find (has_md_id uid) coll with
    | Some d =>
        Some match f (md_mistakes d) with
             | Some m => mkMistakesDoc (md_id d) (Some m)
             | None => d
             end
    | None => None
    end.
Proof.
  induction coll as [|d rest IH]; [reflexivity|]. simpl.
  unfold has_md_id at 2. destruct (String.eqb (md_id d) uid) eqn:Hd.
  - destruct (f (md_mistakes d)); simpl; unfold has_md_id; simpl;
      now rewrite Hd.
  - simpl. unfold has_md_id at 1. now rewrite Hd.
Qed.

Lemma log_mistake_first_same uid f coll :
  (forall d, List.find (has_md_id uid) coll = Some d ->
             f (md_mistakes d) = None) ->
  log_mistake_first uid f coll = coll.
Proof.
  induction coll as [|d rest IH]; [reflexivity|]. simpl.
  unfold has_md_id. destruct (String.eqb (md_id d) uid).
  - intros H. now rewrite (H d eq_refl).
  - intros H. now rewrite (IH H).
Qed.

Lemma last_n_snoc {A} n (l : list A) x :
  last_n (S n) (l ++ [x]) = last_n n l ++ [x].
Proof.
  unfold last_n. rewrite length_app. simpl length.
  replace (length l + 1 - S n)%nat with (length l - n)%nat by lia.
  rewrite skipn_app.
  replace (length l - n - length l)%nat with 0%nat by lia. reflexivity.
Qed.

Lemma last_n_bound {A} n (l : list A) : (length (last_n n l) <= n)%nat.
Proof. unfold last_n. rewrite length_skipn. lia. Qed.

(** X23. The mistake log. For a stored user [log_mistake] adds 1 to
    [total] (counted from 0 when missing); for a category that has a list
    it stores the 49 most recent earlier entries followed by the new
    entry, so at most 50 with the new one last, and leaves the other
    categories as they were; for a category without a list only the total
    grows. With the category name [total] and a total stored, appending
    to the number raises and nothing is stored; nor is anything stored for
    an unknown user or without the collection. *)
Theorem mistake_logged users uid mistake_type mistake_data time :
  let after := log_mistake uid mistake_type mistake_data time users in
  let entry := mkMistake mistake_data time in
  match mistakes_of uid users with
  | None => after = users
  | Some m =>
      match m_lists m !! mistake_type with
      | Some l =>
          mistakes_of uid after
          = Some (mkMistakes
                    (<[mistake_type := last_n 49 l ++ [entry]]> (m_lists m))
                    (Some (default 0 (m_total m) + 1)))
          /\ (length (last_n 49 l ++ [entry]) <= 50)%nat
      | None =>
          if String.eqb mistake_type "total"
             && bool_decide (is_Some (m_total m))
          then after = users
          else mistakes_of uid after
               = Some (mkMistakes (m_lists m)
                         (Some (default 0 (m_total m) + 1)))
      end
  end.
Proof.
  cbv zeta. unfold log_mistake, mistakes_of.
  destruct users as [coll|]; [|reflexivity].
  rewrite log_mistake_first_find.
  destruct (List.find (has_md_id uid) coll) as [d|] eqn:Hfind.
  - set (m := default default_mistakes (md_mistakes d)).
    unfold log_mistake_update. fold m.
    destruct (m_lists m !! mistake_type) as [l|] eqn:Hl.
    + cbn [m_lists m_total md_mistakes default]. rewrite last_n_snoc.
      split; [reflexivity|]. rewrite length_app. simpl length.
      pose proof (last_n_bound 49 l). lia.
    + destruct (String.eqb mistake_type "total"
                && bool_decide (is_Some (m_total m))) eqn:Hb.
      * f_equal. apply log_mistake_first_same. intros d' Hd'.
        rewrite Hfind in Hd'. injection Hd' as <-.
        unfold log_mistake_update. fold m. now rewrite Hl, Hb.
      * reflexivity.
  - f_equal. apply log_mistake_first_same. intros d Hd.
    rewrite Hfind in Hd. discriminate Hd.
Qed.

End MistakeLog.

(** *** Letter feedback *)

Section LetterFeedback.

(** The letter an entry reports, and whether the entry is "correct". *)
Definition letter_of (e : LetterStatus) : ascii :=
  match e with
  | LetterCorrect c => c
  | LetterIncorrect c _ => c
  | LetterMissing c => c
  end.

Definition is_letter_correct (e : LetterStatus) : bool :=
  match e with LetterCorrect _ => true | _ => false end.

Definition string_tl (s : string) : string :=
  match s with EmptyString => EmptyString | String _ s' => s' end.

(** The comparison, letter by letter along the correct word. *)
Fixpoint compare_letters (student correct : string) : list LetterStatus :=
  match correct with
  | EmptyString => []
  | String c correct' =>
      match student with
      | String s student' =>
          (if Ascii.eqb s c then LetterCorrect c else LetterIncorrect c s)
          :: compare_letters student' correct'
      | EmptyString => LetterMissing c :: compare_letters EmptyString correct'
      end
  end.

Lemma compare_spelling_step_shift student correct acc i :
  compare_spelling_step student correct acc (S i)
  = compare_spelling_step (string_tl student) (string_tl correct) acc i.
Proof.
  unfold compare_spelling_step.
  destruct correct as [|c correct']; destruct student as [|s student'];
    simpl; try reflexivity; now destruct i.
Qed.

Lemma fold_left_shift {A} (f g : A -> nat -> A) l acc :
  (forall a i, f a (S i) = g a i) ->
  fold_left f (map S l) acc = fold_left g l acc.
Proof.
  intros H. revert acc. induction l as [|i l IH]; intros acc; simpl;
    [reflexivity|]. now rewrite H, IH.
Qed.

Lemma compare_spelling_loop n student correct acc :
  (String.length correct <= n)%nat ->
  fold_left (compare_spelling_step student correct) (seq 0 n) acc
  = acc ++ compare_letters student correct.
Proof.
  revert student correct acc.
  induction n as [|n IH]; intros student correct acc Hlen.
  - destruct correct; [simpl; now rewrite app_nil_r | simpl in Hlen; lia].
  - cbn [seq fold_left]. rewrite <- seq_shift.
    rewrite (fold_left_shift _
               (compare_spelling_step (string_tl student) (string_tl correct))
               _ _ (compare_spelling_step_shift student correct)).
    rewrite IH by (destruct correct; simpl in *; lia).
    unfold compare_spelling_step.
    destruct correct as [|c correct']; simpl;
      [destruct student; reflexivity|].
    destruct student as [|s student']; simpl.
    + now rewrite <- app_assoc.
    + destruct (Ascii.eqb s c); now rewrite <- app_assoc.
Qed.

Lemma compare_spelling_letters student_spelling correct_word :
  compare_spelling student_spelling correct_word
  = compare_letters (strip (lower student_spelling))
      (strip (lower correct_word)).
Proof.
  unfold compare_spelling. cbv zeta.
  rewrite compare_spelling_loop by lia. reflexivity.
Qed.

Lemma compare_letters_spell student correct :
  map letter_of (compare_letters student correct)
  = list_ascii_of_string correct.
Proof.
  revert student. induction correct as [|c correct IH]; intros student;
    [reflexivity|].
  destruct student as [|s student]; simpl; rewrite IH;
    [reflexivity | now destruct (Ascii.eqb s c)].
Qed.

Lemma compare_letters_all_correct student correct :
  forallb is_letter_correct (compare_letters student correct)
  = String.prefix correct student.
Proof.
  revert student. induction correct as [|c correct IH]; intros student.
  - now destruct student.
  - destruct student as [|s student]; [reflexivity|]. simpl.
    rewrite IH. destruct (Ascii.eqb_spec s c) as [->|Hne].
    + destruct (ascii_dec c c); [reflexivity | contradiction].
    + destruct (ascii_dec c s); [congruence | reflexivity].
Qed.

(** X24. The letter feedback of the spelling check follows the correct
    word: [compare_spelling] gives one entry per letter of the correct
    word (lower-cased and stripped), in order and reporting that letter,
    so letters typed beyond its end are not reported; and every entry is
    "correct" exactly when the correct word is a prefix of what was
    typed. *)
Theorem compare_spelling_follows_word student_spelling correct_word :
  let student := strip (lower student_spelling) in
  let correct := strip (lower correct_word) in
  let comparison := compare_spelling student_spelling correct_word in
  map letter_of comparison = list_ascii_of_string correct
  /\ length comparison = String.length correct
  /\ forallb is_letter_correct comparison = String.prefix correct student.
Proof.
  cbv zeta. rewrite compare_spelling_letters.
  split; [apply compare_letters_spell|]. split.
  - rewrite <- (length_map letter_of), compare_letters_spell.
    generalize (strip (lower correct_word)) as s.
    induction s; simpl; congruence.
  - apply compare_letters_all_correct.
Qed.

End LetterFeedback.

(** *** Star ladders *)

Section StarLadders.

Variable ratio : string -> string -> Q.

Lemma repeat_stars_monotone r1 r2 :
  (r1 <= r2)%Q -> repeat_stars r1 <= repeat_stars r2.
Proof.
  intros Hle. unfold repeat_stars.
  assert (Hup : forall q, Qle_bool q r1 = true -> Qle_bool q r2 = true).
  { intros q H. apply Qle_bool_iff. apply Qle_bool_iff in H.
    now apply Qle_trans with r1. }
  destruct (Qle_bool (9 # 10) r1) eqn:H9; [now rewrite (Hup _ H9)|].
  destruct (Qle_bool (75 # 100) r1) eqn:H75;
    [rewrite (Hup _ H75); destruct (Qle_bool (9 # 10) r2); lia|].
  destruct (Qle_bool (6 # 10) r1) eqn:H6;
    [rewrite (Hup _ H6); destruct (Qle_bool (9 # 10) r2),
       (Qle_bool (75 # 100) r2); lia|].
  destruct (Qle_bool (9 # 10) r2), (Qle_bool (75 # 100) r2),
    (Qle_bool (6 # 10) r2); lia.
Qed.

(** X25. The star ladders. Both checks give between 0 and 3 stars; in
    repeat mode a higher similarity never gives fewer stars; in spelling
    mode 3 stars are given exactly for a word that is the correct one
    once both are lower-cased and stripped: any other word gets at most 2,
    however similar it is. *)
Theorem stars_within_ladder student correct :
  0 <= check_repeat_stars ratio student correct <= 3
  /\ 0 <= check_spelling_stars ratio student correct <= 3
  /\ (check_spelling_stars ratio student correct = 3
      <-> strip (lower student) = strip (lower correct))
  /\ (forall student' correct',
        (ratio (lower student) (lower correct)
         <= ratio (lower student') (lower correct'))%Q ->
        check_repeat_stars ratio student correct
        <= check_repeat_stars ratio student' correct').
Proof.
  split.
  { unfold check_repeat_stars, repeat_stars. cbv zeta.
    repeat match goal with
           | |- context [if ?b then _ else _] => destruct b
           end; lia. }
  split.
  { unfold check_spelling_stars. cbv zeta.
    repeat match goal with
           | |- context [if ?b then _ else _] => destruct b
           end; lia. }
  split.
  - unfold check_spelling_stars. cbv zeta.
    destruct (String.eqb_spec (strip (lower student)) (strip (lower correct)))
      as [Heq|Hne]; [tauto|].
    split; [|contradiction].
    repeat match goal with
           | |- context [if ?b then _ else _] => destruct b
           end; discriminate.
  - intros student' correct' Hle. unfold check_repeat_stars. cbv zeta.
    now apply repeat_stars_monotone.
Qed.

End StarLadders.

(** *** Who is on the leaderboard *)

Section LeaderboardMembers.




End LeaderboardMembers.

(** *** The migration of levels and badges *)

Section Migration.

(** What the migration makes of the document [u] of a user it visits:
    the XP as it was and the level of that XP; achievements that were a
    document are one, achievements that were not a document are replaced
    by one, and missing achievements stay missing unless the badge
    evaluation creates them. *)
Definition migrated_ok (u u' : User) : Prop :=
  level_ok u'
  /\ u_total_xp u' = u_total_xp u
  /\ match u_achievements u with
     | Absent =>
         u_achievements u' = Absent \/ exists a, u_achievements u' = Val a
     | _ => exists a, u_achievements u' = Val a
     end.

Lemma awarded_document u a :
  u_achievements u = Val a -> exists a', u_achievements (awarded u) = Val a'.
Proof.
  intros Ha. unfold awarded. rewrite Ha.
  destruct (is_nil (new_badges_of u)); [eauto|].
  unfold set_badges_earned, in_achievements. rewrite Ha.
  cbn [set_achievements default from_option id u_achievements]. eauto.
Qed.

Lemma migrate_one_keeps (I : DB -> Prop) a :
  updates_keep I (u_id a) ->
  (forall l r, keeps I (update_one (u_id a) (set_migrated l r))) ->
  keeps I (migrate_one a).
Proof.
  intros Hup Hset. unfold migrate_one. cbv zeta.
  apply keeps_try_except, keeps_bind; [apply Hset|]. intros _.
  apply keeps_bind; [|intros; apply keeps_ret].
  apply keeps_call, check_and_award_badges_keeps, Hup.
Qed.

Lemma migrate_one_run c convs a :
  List.find (has_id (u_id a)) c = Some a ->
  exists c' v,
    migrate_one a (mkDB (Some c) convs) = (true, mkDB (Some c') convs)
    /\ Forall2 (kept_entry (u_id a)) c c'
    /\ List.find (has_id (u_id a)) c' = Some v
    /\ migrated_ok a v.
Proof.
  intros Hfind.
  pose proof (migrate_one_keeps (same_but (u_id a) (mkDB (Some c) convs)) a
                (same_but_updates (u_id a) _)
                (fun l r => same_but_update_one (u_id a) _ _
                              (keeps_id_set_migrated l r))
                _ (same_but_refl (u_id a) _)) as Hkept.
  unfold migrate_one in *. cbv zeta in *.
  set (f := set_migrated
              (calculate_level_from_xp (default 0 (u_total_xp a)))
              match u_achievements a with Malformed => true | _ => false end)
    in *.
  destruct (update_one_run (mkDB (Some c) convs) c (u_id a) f a _ eq_refl
              Hfind eq_refl eq_refl) as (c1 & Hrun1 & Hfind1).
  cbn [conversations_collection] in Hrun1.
  rewrite (try_bind_ok _ _ _ _ _ _ Hrun1) in *.
  destruct (check_and_award_run c1 convs (u_id a) _ Hfind1)
    as (c2 & Hrun2 & Hfind2 & _).
  unfold try_except in *.
  rewrite (bind_ok _ _ _ _ _ (call_run _ _ _ _ Hrun2)) in *.
  cbn [ret snd] in *. destruct Hkept as [_ Hkept]. cbn in Hkept.
  eexists c2, _. split; [reflexivity|]. split; [exact Hkept|].
  split; [exact Hfind2|].
  match goal with
  | |- migrated_ok a (awarded ?u1) =>
      destruct (awarded_frame u1) as (_ & Hxp & Hlv & _);
      pose proof (awarded_not_malformed u1) as Hwf;
      pose proof (awarded_document u1) as Hdoc
  end.
  split; [unfold level_ok; rewrite Hxp, Hlv; reflexivity|].
  split; [rewrite Hxp; reflexivity|].
  cbn [u_achievements] in Hdoc.
  destruct (u_achievements a) as [| |a0] eqn:Ha.
  - match goal with
    | |- u_achievements ?v = Absent \/ _ =>
        destruct (u_achievements v) as [| |a1]; [now left | | right; eauto]
    end.
    now elim Hwf.
  - exact (Hdoc _ eq_refl).
  - exact (Hdoc _ eq_refl).
Qed.

End Migration.

(** A loop over a snapshot of the collection that updates the documents
    of the users it visits, each once. *)

Section Visits.

(** What a visit makes of a document. *)
Variable Q : User -> User -> Prop.

(** The state of a document while the loop runs: updated when its user
    has been visited, as it was otherwise. *)
Definition visited_rel (visited : list string) (u u' : User) : Prop :=
  u_id u' = u_id u
  /\ (In (u_id u) visited -> Q u u')
  /\ (~ In (u_id u) visited -> u' = u).

Lemma visited_rel_start c0 : Forall2 (visited_rel []) c0 c0.
Proof.
  induction c0 as [|u c IH]; constructor; [|exact IH].
  split; [reflexivity|]. split; [intros []|reflexivity].
Qed.

Lemma visited_find visited c0 c a :
  List.NoDup (map u_id c0) ->
  Forall2 (visited_rel visited) c0 c ->
  In a c0 -> ~ In (u_id a) visited ->
  List.find (has_id (u_id a)) c = Some a.
Proof.
  intros Hnd H Hin Hnot. revert Hnd Hin.
  induction H as [|u u' c0 c (Hid & _ & Hsame) H IH]; [intros _ []|].
  simpl. intros Hnd Hin. apply List.NoDup_cons_iff in Hnd as [Hfresh Hnd].
  unfold has_id at 1. rewrite Hid.
  destruct Hin as [->|Hin].
  - rewrite String.eqb_refl. f_equal. now apply Hsame.
  - destruct (String.eqb_spec (u_id u) (u_id a)) as [He|_];
      [|now apply IH].
    exfalso. apply Hfresh. rewrite He. now apply in_map.
Qed.

Lemma visited_others visited uid c0 c c' :
  ~ In uid (map u_id c0) ->
  Forall2 (visited_rel visited) c0 c ->
  Forall2 (kept_entry uid) c c' ->
  Forall2 (visited_rel (uid :: visited)) c0 c'.
Proof.
  intros Hfresh H. revert c' Hfresh.
  induction H as [|w w1 c0 c (Hid & Hdone & Hsame) H IH];
    intros c' Hfresh Hk; inversion Hk as [|? w2 ? c3 [Hid2 Hk2] Hk'];
    subst; constructor.
  - assert (u_id w <> uid) by (intros E; apply Hfresh; now left).
    rewrite Hk2 by congruence.
    split; [exact Hid|]. split.
    + intros [E|Hin]; [congruence | now apply Hdone].
    + intros Hnot. apply Hsame. intros Hin. apply Hnot. now right.
  - apply IH; [|exact Hk']. intros Hin. apply Hfresh. now right.
Qed.

Lemma visited_step visited a c0 c c' v :
  List.NoDup (map u_id c0) ->
  Forall2 (visited_rel visited) c0 c ->
  In a c0 ->
  Forall2 (kept_entry (u_id a)) c c' ->
  List.find (has_id (u_id a)) c' = Some v -> Q a v ->
  Forall2 (visited_rel (u_id a :: visited)) c0 c'.
Proof.
  intros Hnd H. revert c' Hnd.
  induction H as [|u u1 c0 c (Hid & Hdone & Hsame) H IH];
    intros c' Hnd Hin Hkept Hfind Hv; [destruct Hin|].
  inversion Hkept as [|? u2 ? c2 [Hid2 Hk2] Hk]; subst.
  apply List.NoDup_cons_iff in Hnd as [Hfresh Hnd].
  simpl in Hfind. unfold has_id at 1 in Hfind. rewrite Hid2, Hid in Hfind.
  destruct (String.eqb_spec (u_id u) (u_id a)) as [He|Hne].
  - injection Hfind as ->.
    assert (a = u) as ->.
    { destruct Hin as [<-|Hin]; [reflexivity|].
      exfalso. apply Hfresh. rewrite He. now apply in_map. }
    constructor.
    + split; [congruence|]. split; [intros _; exact Hv|].
      intros Hnot. exfalso. apply Hnot. now left.
    + now apply visited_others with (c := c).
  - rewrite Hk2 by congruence. constructor.
    + split; [exact Hid|]. split.
      * intros [E|Hin']; [congruence | now apply Hdone].
      * intros Hnot. apply Hsame. intros Hin'. apply Hnot. now right.
    + apply IH; auto. destruct Hin as [<-|Hin]; [congruence | exact Hin].
Qed.

End Visits.

Lemma same_id_same_document c0 a b :
  List.NoDup (map u_id c0) ->
  In a c0 -> In b c0 -> u_id a = u_id b -> a = b.
Proof.
  induction c0 as [|x c IH]; [intros _ []|].
  simpl. intros Hnd. apply List.NoDup_cons_iff in Hnd as [Hfresh Hnd].
  intros [->|Ha] [->|Hb] E; auto.
  - exfalso. apply Hfresh. rewrite E. now apply in_map.
  - exfalso. apply Hfresh. rewrite <- E. now apply in_map.
Qed.

Lemma snapshot_ids_distinct (p : User -> bool) c0 :
  List.NoDup (map u_id c0) -> List.NoDup (map u_id (List.filter p c0)).
Proof.
  induction c0 as [|x c IH]; [constructor|].
  simpl. intros Hnd. apply List.NoDup_cons_iff in Hnd as [Hfresh Hnd].
  destruct (p x); [|now apply IH]. simpl. constructor; [|now apply IH].
  intros Hin. apply Hfresh. apply in_map_iff in Hin as (y & Hy & Hin).
  apply filter_In in Hin as [Hin _]. rewrite <- Hy. now apply in_map.
Qed.

Section MigrationLoop.

Variable coll0 : list User.
Hypothesis ids_distinct : List.NoDup (map u_id coll0).

Definition migration_rel : list string -> User -> User -> Prop :=
  visited_rel migrated_ok.

Lemma migrate_loop_run snapshot :
  forall visited c convs migrated errors,
    Forall2 (migration_rel visited) coll0 c ->
    (forall a, In a snapshot -> In a coll0 /\ ~ In (u_id a) visited) ->
    List.NoDup (map u_id snapshot) ->
    exists c',
      migrate_loop snapshot migrated errors (mkDB (Some c) convs)
      = ((migrated + Z.of_nat (length snapshot), errors),
         mkDB (Some c') convs)
      /\ Forall2 (migration_rel (rev (map u_id snapshot) ++ visited)) coll0 c'.
Proof.
  induction snapshot as [|a rest IH];
    intros visited c convs migrated errors Hrel Hsnap Hnd.
  - exists c. simpl. split; [do 2 f_equal; lia | exact Hrel].
  - destruct (Hsnap a (or_introl eq_refl)) as [Hin Hnot].
    pose proof (visited_find _ visited coll0 c a ids_distinct Hrel Hin Hnot)
      as Hfind.
    destruct (migrate_one_run c convs a Hfind)
      as (c1 & v & Hrun & Hkept & Hfind1 & Hv).
    simpl map in Hnd. apply List.NoDup_cons_iff in Hnd as [Hfresh Hnd].
    destruct (IH (u_id a :: visited) c1 convs (migrated + 1) errors
                (visited_step _ visited a coll0 c c1 v ids_distinct Hrel Hin
                   Hkept Hfind1 Hv))
      as (c' & Hloop & Hrel'); [|exact Hnd|].
    { intros b Hb. destruct (Hsnap b (or_intror Hb)) as [Hb1 Hb2].
      split; [exact Hb1|]. intros [E|Hv']; [|contradiction].
      apply Hfresh. rewrite E. now apply in_map. }
    exists c'. cbn [migrate_loop]. rewrite Hrun, Hloop. split.
    + do 2 f_equal. simpl length. lia.
    + simpl map. simpl rev. now rewrite <- app_assoc.
Qed.

Lemma migration_rel_final visited (c0 c : list User) :
  (forall u, In u c0 -> (In (u_id u) visited <-> not_teacher u = true)) ->
  Forall2 (migration_rel visited) c0 c ->
  Forall2
    (fun u u' =>
       u_id u' = u_id u
       /\ if not_teacher u then migrated_ok u u' else u' = u)
    c0 c.
Proof.
  intros Hmem H.
  induction H as [|u u' c0 c (Hid & Hdone & Hsame) H IH]; constructor.
  - split; [exact Hid|]. destruct (not_teacher u) eqn:Hnt.
    + apply Hdone, Hmem; [now left | exact Hnt].
    + apply Hsame. intros Hin. apply Hmem in Hin; [congruence | now left].
  - apply IH. intros w Hw. apply Hmem. now right.
Qed.

(** X27. The migration. With the identifiers of the stored documents
    distinct, as the store keeps them,
    [migrate_all_users_levels_and_badges] visits every document that is
    not a teacher's, counts each as migrated and none as an error, and
    leaves every such document with its XP as it was and the level of
    that XP. Achievements that were not a document are replaced by one,
    achievements that were a document are one, and missing achievements
    stay missing unless the badge evaluation creates them. The documents
    of teachers are as they were, no document is added, removed or moved,
    and the transcripts are untouched. *)
Theorem migration_restores_levels convs :
  exists coll',
    migrate_all_users_levels_and_badges (mkDB (Some coll0) convs)
    = ((Z.of_nat (length (List.filter not_teacher coll0)), 0),
       mkDB (Some coll') convs)
    /\ Forall2
         (fun u u' =>
            u_id u' = u_id u
            /\ if not_teacher u then migrated_ok u u' else u' = u)
         coll0 coll'.
Proof.
  unfold migrate_all_users_levels_and_badges. cbn [users_collection].
  destruct (migrate_loop_run (List.filter not_teacher coll0) [] coll0 convs 0 0)
    as (coll' & Hrun & Hrel).
  - apply visited_rel_start.
  - intros a Ha. apply filter_In in Ha as [Ha _]. split; [exact Ha | intros []].
  - now apply snapshot_ids_distinct.
  - exists coll'. split; [exact Hrun|].
    rewrite app_nil_r in Hrel.
    apply (migration_rel_final
             (rev (map u_id (List.filter not_teacher coll0))) coll0 coll');
      [|exact Hrel].
    intros u Hu. rewrite <- in_rev, in_map_iff. split.
    + intros (b & E & Hb). apply filter_In in Hb as [Hb Hnt].
      now rewrite <- (same_id_same_document coll0 b u ids_distinct Hb Hu E).
    + intros Hnt. exists u. split; [reflexivity|].
      apply filter_In. now split.
Qed.

End MigrationLoop.

Lemma migration_restores_levels_witness :
  exists coll',
    migrate_all_users_levels_and_badges
      (mkDB (Some [example_student; example_member "T" "5" "teacher" 0 0])
         None)
    = ((1, 0), mkDB (Some coll') None).
Proof.
  destruct (migration_restores_levels
              [example_student; example_member "T" "5" "teacher" 0 0])
    with (convs := @None (list ConvDoc)) as (coll' & Hrun & _).
  - repeat constructor; simpl; intuition discriminate.
  - exists coll'. exact Hrun.
Defined.

(** *** Seeding the weekly XP *)

Section Backfill.

Variable week_key : string.

(** The test of [backfill_weekly_xp] on a document of the snapshot: no
    entry for the week, and XP to seed it with. *)
Definition weekly_missing (u : User) : bool :=
  match u_weekly_xp u with
  | Val weekly_xp_map =>
      match weekly_xp_map !! week_key with
      | Some _ => false
      | None => true
      end
  | _ => true
  end.

Definition needs_seed (u : User) : bool :=
  weekly_missing u && (default 0 (u_total_xp u) >? 0).

(** The document with the entry of the week set to the total XP. *)
Definition seeded (u : User) : User :=
  default u (set_weekly_xp week_key (default 0 (u_total_xp u)) u).

Lemma backfill_loop_cons a rest :
  backfill_loop week_key (a :: rest)
  = if needs_seed a then
      do! update_one (u_id a)
            (set_weekly_xp week_key (default 0 (u_total_xp a))) in
      backfill_loop week_key rest
    else backfill_loop week_key rest.
Proof.
  cbn [backfill_loop]. unfold needs_seed, weekly_missing.
  destruct (u_weekly_xp a) as [| |m]; cbn [andb];
    try destruct (m !! week_key); cbn [andb];
    destruct (default 0 (u_total_xp a) >? 0); reflexivity.
Qed.

Lemma update_one_kept uid f c convs c1 :
  keeps_id f ->
  update_one uid f (mkDB (Some c) convs) = (Some tt, mkDB (Some c1) convs) ->
  Forall2 (kept_entry uid) c c1.
Proof.
  intros Hid Hrun.
  pose proof (same_but_update_one uid (mkDB (Some c) convs) f Hid _
                (same_but_refl uid _)) as [_ H].
  rewrite Hrun in H. exact H.
Qed.

Definition backfill_rel : list string -> User -> User -> Prop :=
  visited_rel (fun u u' => u' = seeded u).

Variable coll0 : list User.
Hypothesis ids_distinct : List.NoDup (map u_id coll0).

Lemma backfill_loop_run snapshot :
  forall visited c convs,
    Forall2 (backfill_rel visited) coll0 c ->
    (forall a, In a snapshot -> In a coll0 /\ ~ In (u_id a) visited) ->
    List.NoDup (map u_id snapshot) ->
    (forall a, In a snapshot -> needs_seed a = true ->
               u_weekly_xp a <> Malformed) ->
    exists c' visited',
      backfill_loop week_key snapshot (mkDB (Some c) convs)
      = (Some tt, mkDB (Some c') convs)
      /\ Forall2 (backfill_rel visited') coll0 c'
      /\ (forall x,
            In x visited'
            <-> In x visited
                \/ exists a, In a snapshot /\ needs_seed a = true
                             /\ u_id a = x).
Proof.
  induction snapshot as [|a rest IH]; intros visited c convs Hrel Hsnap Hnd Hwf.
  - exists c, visited. split; [reflexivity|]. split; [exact Hrel|].
    intros x. split; [now left|]. intros [H|(a & [] & _)]. exact H.
  - destruct (Hsnap a (or_introl eq_refl)) as [Hin Hnot].
    simpl map in Hnd. apply List.NoDup_cons_iff in Hnd as [Hfresh Hnd].
    rewrite backfill_loop_cons.
    destruct (needs_seed a) eqn:Hneeds.
    + pose proof (visited_find _ visited coll0 c a ids_distinct Hrel Hin Hnot)
        as Hfind.
      destruct (set_weekly_xp week_key (default 0 (u_total_xp a)) a)
        as [a'|] eqn:Hset.
      2:{ exfalso. apply (Hwf a (or_introl eq_refl) Hneeds).
          unfold set_weekly_xp in Hset.
          destruct (u_weekly_xp a); [discriminate | reflexivity | discriminate]. }
      destruct (update_one_run (mkDB (Some c) convs) c (u_id a) _ a a' eq_refl
                  Hfind Hset (keeps_id_set_weekly_xp _ _ _ _ Hset))
        as (c1 & Hrun & Hfind1).
      cbn [conversations_collection] in Hrun.
      rewrite (bind_ok _ _ _ _ _ Hrun).
      destruct (IH (u_id a :: visited) c1 convs) as (c' & visited' & Hloop & Hrel' & Hmem).
      * apply (visited_step _ visited a coll0 c c1 a' ids_distinct Hrel Hin);
          [|exact Hfind1|].
        -- exact (update_one_kept (u_id a)
                    (set_weekly_xp week_key (default 0 (u_total_xp a)))
                    c convs c1 (keeps_id_set_weekly_xp _ _) Hrun).
        -- unfold seeded. now rewrite Hset.
      * intros b Hb. destruct (Hsnap b (or_intror Hb)) as [Hb1 Hb2].
        split; [exact Hb1|]. intros [E|Hv']; [|contradiction].
        apply Hfresh. rewrite E. now apply in_map.
      * exact Hnd.
      * intros b Hb. apply Hwf. now right.
      * exists c', visited'. split; [exact Hloop|]. split; [exact Hrel'|].
        intros x. rewrite Hmem. split.
        -- intros [[E|H]|(b & Hb & Hn & E)].
           ++ right. exists a. split; [now left | now split].
           ++ now left.
           ++ right. exists b. split; [now right | now split].
        -- intros [H|(b & [<-|Hb] & Hn & E)].
           ++ left. now right.
           ++ left. now left.
           ++ right. exists b. now split.
    + destruct (IH visited c convs Hrel) as (c' & visited' & Hloop & Hrel' & Hmem).
      * intros b Hb. apply Hsnap. now right.
      * exact Hnd.
      * intros b Hb. apply Hwf. now right.
      * exists c', visited'. split; [exact Hloop|]. split; [exact Hrel'|].
        intros x. rewrite Hmem. split.
        -- intros [H|(b & Hb & Hn & E)]; [now left|].
           right. exists b. split; [now right | now split].
        -- intros [H|(b & [<-|Hb] & Hn & E)]; [now left | congruence |].
           right. exists b. now split.
Qed.

End Backfill.

Section BackfillFacts.

Variable week_key : string.

(** What the backfill makes of a document. *)
Definition backfilled (u : User) : User :=
  if not_teacher u && needs_seed week_key u then seeded week_key u else u.

Lemma seeded_id u : u_id (seeded week_key u) = u_id u.
Proof.
  unfold seeded.
  destruct (set_weekly_xp week_key (default 0 (u_total_xp u)) u) as [u'|] eqn:H;
    [|reflexivity].
  exact (keeps_id_set_weekly_xp _ _ _ _ H).
Qed.

Lemma backfilled_id u : u_id (backfilled u) = u_id u.
Proof.
  unfold backfilled. destruct (not_teacher u && needs_seed week_key u);
    [apply seeded_id | reflexivity].
Qed.

Lemma seeded_weekly u :
  u_weekly_xp u <> Malformed ->
  needs_seed week_key (seeded week_key u) = false
  /\ weekly_xp_of week_key (seeded week_key u) = default 0 (u_total_xp u)
  /\ (forall other, other <> week_key ->
        weekly_xp_of other (seeded week_key u) = weekly_xp_of other u)
  /\ u_total_xp (seeded week_key u) = u_total_xp u.
Proof.
  intros Hwf. unfold seeded, set_weekly_xp, needs_seed, weekly_missing,
    weekly_xp_of.
  destruct (u_weekly_xp u) as [| |m] eqn:Hw; [|contradiction|];
    cbn [default from_option id u_weekly_xp u_total_xp];
    rewrite lookup_insert_eq; cbn [andb].
  - repeat split; try reflexivity. intros other Hne.
    rewrite lookup_insert_ne by congruence. now rewrite lookup_empty.
  - repeat split; try reflexivity. intros other Hne.
    now rewrite lookup_insert_ne by congruence.
Qed.

Lemma backfill_rel_final visited (c0 c : list User) :
  (forall u, In u c0 ->
     (In (u_id u) visited
      <-> not_teacher u && needs_seed week_key u = true)) ->
  Forall2 (backfill_rel week_key visited) c0 c ->
  c = map backfilled c0.
Proof.
  intros Hmem H.
  induction H as [|u u' c0 c (Hid & Hdone & Hsame) H IH]; [reflexivity|].
  simpl. f_equal.
  - unfold backfilled.
    destruct (not_teacher u && needs_seed week_key u) eqn:Hb.
    + apply Hdone, Hmem; [now left | exact Hb].
    + apply Hsame. intros Hin. apply Hmem in Hin; [congruence | now left].
  - apply IH. intros w Hw. apply Hmem. now right.
Qed.

Lemma backfill_run coll convs :
  List.NoDup (map u_id coll) ->
  (forall u, In u coll -> not_teacher u = true ->
             needs_seed week_key u = true -> u_weekly_xp u <> Malformed) ->
  backfill_weekly_xp week_key (mkDB (Some coll) convs)
  = (tt, mkDB (Some (map backfilled coll)) convs).
Proof.
  intros Hnd Hwf. unfold backfill_weekly_xp. cbn [users_collection].
  destruct (backfill_loop_run week_key coll Hnd
              (List.filter not_teacher coll) [] coll convs)
    as (c' & visited' & Hloop & Hrel & Hmem).
  - apply visited_rel_start.
  - intros a Ha. apply filter_In in Ha as [Ha _]. split; [exact Ha | intros []].
  - now apply snapshot_ids_distinct.
  - intros a Ha. apply filter_In in Ha as [Ha Hnt]. now apply Hwf.
  - unfold try_except. rewrite Hloop. do 3 f_equal.
    apply (backfill_rel_final visited' coll c'); [|exact Hrel].
    intros u Hu. rewrite Hmem, andb_true_iff. split.
    + intros [[]|(a & Ha & Hn & E)]. apply filter_In in Ha as [Ha Hnt].
      now rewrite <- (same_id_same_document coll a u Hnd Ha Hu E).
    + intros [Hnt Hn]. right. exists u.
      split; [apply filter_In; now split | now split].
Qed.

(** X28. Seeding the weekly XP. With the identifiers of the stored
    documents distinct and no document to seed with a [weekly_xp] that is
    not a map, [backfill_weekly_xp] sets the entry of the week to the
    total XP for exactly the documents that are not a teacher's, have no
    entry for the week and have positive XP; it overwrites no entry,
    changes no other week and no other document, and running it again
    changes nothing. *)
Theorem backfill_seeds_missing_week coll convs :
  List.NoDup (map u_id coll) ->
  (forall u, In u coll -> not_teacher u = true ->
             needs_seed week_key u = true -> u_weekly_xp u <> Malformed) ->
  let db' := mkDB (Some (map backfilled coll)) convs in
  backfill_weekly_xp week_key (mkDB (Some coll) convs) = (tt, db')
  /\ backfill_weekly_xp week_key db' = (tt, db')
  /\ forall u, In u coll ->
       weekly_xp_of week_key (backfilled u)
       = (if not_teacher u && needs_seed week_key u
          then default 0 (u_total_xp u)
          else weekly_xp_of week_key u)
       /\ (forall other, other <> week_key ->
             weekly_xp_of other (backfilled u) = weekly_xp_of other u)
       /\ (not_teacher u && needs_seed week_key u = false ->
           backfilled u = u).
Proof.
  intros Hnd Hwf. cbv zeta.
  assert (Hseed : forall u, In u coll ->
            not_teacher u && needs_seed week_key u = true ->
            u_weekly_xp u <> Malformed).
  { intros u Hu Hb. apply andb_true_iff in Hb as [Hnt Hn]. now apply Hwf. }
  split; [now apply backfill_run|]. split.
  - assert (Hfix : map backfilled (map backfilled coll) = map backfilled coll).
    { rewrite map_map. apply map_ext_in. intros u Hu.
      destruct (not_teacher u && needs_seed week_key u) eqn:Hb.
      - assert (Hs : backfilled u = seeded week_key u)
          by (unfold backfilled; now rewrite Hb).
        rewrite Hs. unfold backfilled.
        destruct (seeded_weekly u (Hseed u Hu Hb)) as (-> & _).
        now rewrite andb_false_r.
      - assert (Hs : backfilled u = u)
          by (unfold backfilled; now rewrite Hb).
        now rewrite !Hs. }
    rewrite <- Hfix at 2. apply backfill_run.
    + rewrite map_map. erewrite map_ext; [exact Hnd|].
      intros u. apply backfilled_id.
    + intros u' Hu' Hnt Hn. apply in_map_iff in Hu' as (u & <- & Hu).
      unfold backfilled in *.
      destruct (not_teacher u && needs_seed week_key u) eqn:Hb.
      * destruct (seeded_weekly u (Hseed u Hu Hb)) as (Hno & _). congruence.
      * rewrite Hnt, Hn in Hb. discriminate.
  - intros u Hu. unfold backfilled.
    destruct (not_teacher u && needs_seed week_key u) eqn:Hb.
    + destruct (seeded_weekly u (Hseed u Hu Hb)) as (_ & Hw & Ho & _).
      split; [exact Hw|]. split; [exact Ho | discriminate].
    + repeat split.
Qed.

End BackfillFacts.

Lemma backfill_seeds_missing_week_witness :
  backfill_weekly_xp example_week (mkDB (Some [example_student]) None)
  = (tt, mkDB (Some [seeded example_week example_student]) None)
  /\ weekly_xp_of example_week (seeded example_week example_student) = 40.
Proof.
  destruct (backfill_seeds_missing_week example_week [example_student] None)
    as (Hrun & _ & Hw).
  - repeat constructor. intros [].
  - intros u [<-|[]] _ _. discriminate.
  - split; [exact Hrun|].
    exact (proj1 (Hw example_student (or_introl eq_refl))).
Defined.

(** *** Reading a context back *)

Section ContextReadBack.

Lemma update_user_context_cache_same uid mode context now app :
  cached_text uid mode
    (conversation_contexts (update_user_context uid mode context now app))
  = context.
Proof.
  unfold update_user_context, cached_text.
  destruct (save_conversation uid mode context now (app_db app)) as [ok db].
  cbn [conversation_contexts]. rewrite lookup_insert_eq.
  match goal with
  | |- context [default ∅ (Some ?x)] => change (default ∅ (Some x)) with x
  end.
  now rewrite lookup_insert_eq.
Qed.

Lemma update_user_context_cache_user uid uid' mode mode' context now app :
  uid' <> uid ->
  cached_text uid' mode'
    (conversation_contexts (update_user_context uid mode context now app))
  = cached_text uid' mode' (conversation_contexts app).
Proof.
  intros Hne. unfold update_user_context, cached_text.
  destruct (save_conversation uid mode context now (app_db app)) as [ok db].
  cbn [conversation_contexts]. rewrite lookup_insert_ne by congruence.
  destruct (conversation_contexts app !! uid); [reflexivity|].
  now rewrite lookup_insert_ne by congruence.
Qed.

(** X29. Reading a context back. After [update_user_context],
    [get_user_context] of the same user and mode returns the text as the
    store has trimmed it when the store is there (it goes before the
    copy in memory, which is not trimmed), and the whole untrimmed text
    from memory when the store is not there; the contexts of every other
    user read as before. *)
Theorem context_read_after_write app uid uid' mode mode' text now :
  plain_key mode = true ->
  let app' := update_user_context uid mode text now app in
  fst (get_user_context uid mode app')
  = match conversations_collection (app_db app) with
    | Some _ =>
        if nonempty (trimmed mode text) then trimmed mode text else text
    | None => text
    end
  /\ (uid' <> uid ->
      fst (get_user_context uid' mode' app')
      = fst (get_user_context uid' mode' app)).
Proof.
  intros _. cbv zeta. split.
  - rewrite get_user_context_value, update_user_context_db,
      update_user_context_cache_same. cbv zeta.
    destruct (app_db app) as [users [coll|]]; cbn [conversations_collection].
    + rewrite save_conversation_run. cbn [snd].
      rewrite get_conversation_run. cbn [fst].
      now rewrite stored_text_upsert, String.eqb_refl.
    + reflexivity.
  - intros Hne. apply context_read_frame.
    + rewrite update_user_context_db.
      destruct (app_db app) as [users [coll|]]; [|reflexivity].
      rewrite save_conversation_run. cbn [snd].
      rewrite !get_conversation_run. cbn [fst].
      now apply stored_text_upsert_other.
    + now apply update_user_context_cache_user.
Qed.

End ContextReadBack.

Lemma context_read_after_write_witness :
  fst (get_user_context "1234" "roleplay_teacher"
         (update_user_context "1234" "roleplay_teacher" (example_turns 30)
            example_now (mkApp (mkDB None (Some [])) ∅)))
  = trimmed "roleplay_teacher" (example_turns 30)
  /\ fst (get_user_context "1234" "roleplay_teacher"
            (update_user_context "1234" "roleplay_teacher" (example_turns 30)
               example_now (mkApp (mkDB None None) ∅)))
     = example_turns 30.
Proof.
  split.
  - destruct (context_read_after_write (mkApp (mkDB None (Some [])) ∅)
                "1234" "77" "roleplay_teacher" "roleplay" (example_turns 30)
                example_now eq_refl) as (H & _).
    rewrite H. vm_compute. reflexivity.
  - destruct (context_read_after_write (mkApp (mkDB None None) ∅)
                "1234" "77" "roleplay_teacher" "roleplay" (example_turns 30)
                example_now eq_refl) as (H & _).
    exact H.
Defined.

(** *** The security question *)

Section SecurityQuestion.

Variable generate_password_hash : string -> string -> string.

Lemma keeps_id_set_security q h : keeps_id (set_security q h).
Proof. intros v v' [= <-]. reflexivity. Qed.

Lemma get_user_security_question_value o db :
  fst (get_user_security_question o db)
  = fst (get_user_by_id o db) ≫= u_security_question.
Proof.
  unfold get_user_security_question, get_user_by_id, try_except, bind,
    find_one, ret.
  destruct (users_collection db) as [c|]; [|reflexivity].
  destruct (List.find (has_id o) c); reflexivity.
Qed.

Lemma set_security_question_keeps_others uid q a salt :
  others_kept uid (set_security_question generate_password_hash uid q a salt).
Proof.
  apply same_but_others. intros db0. unfold set_security_question.
  apply keeps_guarded, keeps_try_except, keeps_bind;
    [|intros; apply keeps_ret].
  apply same_but_update_one, keeps_id_set_security.
Qed.

(** X30. The security question. For a stored user
    [set_security_question] stores the question, which
    [get_user_security_question] then returns, and the hash of the
    stripped, lower-cased answer, and leaves the password, the user name
    and the XP of the document as they were; for an unknown user it stores
    nothing, and [get_user_security_question] answers [None]. The
    questions of all other users read as before. *)
Theorem security_question_round_trip db uid q a salt :
  let r := set_security_question generate_password_hash uid q a salt db in
  match fst (get_user_by_id uid db) with
  | Some u =>
      fst r = true
      /\ fst (get_user_security_question uid (snd r)) = Some q
      /\ found uid
           (fun u' =>
              u_security_answer u'
              = Some (generate_password_hash salt (lower (strip a)))
              /\ u_password u' = u_password u
              /\ u_username u' = u_username u
              /\ u_total_xp u' = u_total_xp u)
           (snd r)
  | None =>
      snd r = db /\ fst (get_user_security_question uid db) = None
  end
  /\ forall o, o <> uid ->
       fst (get_user_security_question o (snd r))
       = fst (get_user_security_question o db).
Proof.
  cbv zeta. split.
  - rewrite !get_user_security_question_value, !get_user_by_id_value.
    unfold set_security_question.
    destruct (users_collection db) as [c|] eqn:Hc;
      [|cbn [snd]; rewrite ?Hc; now split].
    destruct (List.find (has_id uid) c) as [u|] eqn:Hfind.
    + destruct (update_one_run db c uid
                  (set_security q
                     (hash_password generate_password_hash salt
                        (lower (strip a))))
                  u _ Hc Hfind eq_refl eq_refl) as (c' & Hrun & Hfind').
      rewrite (try_bind_ok _ _ _ _ _ _ Hrun).
      cbn [try_except ret fst snd users_collection]. rewrite Hfind'.
      split; [reflexivity|]. split; [reflexivity|].
      eexists c', _. cbn [users_collection]. split; [reflexivity|].
      split; [exact Hfind' | repeat split].
    + unfold try_except.
      rewrite (bind_ok _ _ _ _ _ (update_one_missing uid _ db c Hc Hfind)).
      cbn [ret snd]. now split.
  - intros o Ho. rewrite !get_user_security_question_value.
    destruct (set_security_question_keeps_others uid q a salt db)
      as (_ & _ & H).
    now rewrite (H o Ho).
Qed.

End SecurityQuestion.
